(** * Fleet transition optimiser: model builder, constraint generator and
      solution decoder

    A shallow embedding of [optimizer.py] (class [OptimizationModel] and
    function [solve_optimization]) and of the reading of the batch ids in
    [validate_submission.py].

    Conventions of the embedding:
    - pandas tables are lists of row records; [set_index(..)[col].to_dict()]
      is a [gmap] filled row by row (a later row overwrites an earlier one);
    - Python floats and numpy numbers are exact rationals ([Q]), and the
      rounding of a floating-point operation is not modelled: a statement
      on numbers is a statement on the exact values; [np.inf] is the
      constructor [PosInf] of [bound];
    - strings are ASCII strings, and the cells of an id column hold
      strings;
    - the Python exceptions that the code can raise are the constructors of
      [exn]; a function that can raise returns a [result];
    - loops that mutate the model, the registries or the plan are written in
      a state-and-exception monad [M S];
    - the MILP solver is a black box, a parameter of [solve_optimization]. *)

From Stdlib Require Import ZArith QArith Lqa Ascii String List Lia.
From stdpp Require Import gmap strings list fin_maps pretty sorting.

Open Scope Z_scope.

(** ** Exceptions and the state monad *)

Inductive exn : Type :=
| KeyError
| IndexError
| ValueError
| ZeroDivisionError.

Inductive result (A : Type) : Type :=
| Ok (a : A)
| Raise (e : exn).

Arguments Ok {A} a.
Arguments Raise {A} e.

Definition is_ok {A} (r : result A) : Prop :=
  match r with Ok _ => True | Raise _ => False end.

Definition rbind {A B} (r : result A) (k : A → result B) : result B :=
  match r with
  | Ok a => k a
  | Raise e => Raise e
  end.

Definition M (S A : Type) : Type := S → result (A * S).

Definition ret {S A} (a : A) : M S A := λ s, Ok (a, s).

Definition bind {S A B} (c : M S A) (k : A → M S B) : M S B :=
  λ s, match c s with
       | Ok (a, s') => k a s'
       | Raise e => Raise e
       end.

Definition raise {S A} (e : exn) : M S A := λ _, Raise e.

Definition get {S} : M S S := λ s, Ok (s, s).

Definition modify {S} (f : S → S) : M S unit := λ s, Ok (tt, f s).

Definition lift {S A} (r : result A) : M S A :=
  λ s, match r with Ok a => Ok (a, s) | Raise e => Raise e end.

Declare Scope monad_scope.
Delimit Scope monad_scope with monad.
Notation "x <- c ;; k" := (bind c (λ x, k))
  (at level 100, c at next level, right associativity) : monad_scope.
Notation "c ;; k" := (bind c (λ _, k))
  (at level 100, right associativity) : monad_scope.
Open Scope monad_scope.

(** [for x in l: body x] *)
Fixpoint for_ {S A} (l : list A) (body : A → M S unit) : M S unit :=
  match l with
  | [] => ret tt
  | x :: l' => body x ;; for_ l' body
  end.

(** [if c: body] with no [else] *)
Definition when {S} (c : bool) (body : M S unit) : M S unit :=
  if c then body else ret tt.

(** [d[k]]: raises [KeyError] when the key is absent *)
Definition getitem `{Countable K} {V} (d : gmap K V) (k : K) : result V :=
  match d !! k with
  | Some v => Ok v
  | None => Raise KeyError
  end.

(** [d.get(k, dflt)] *)
Definition dict_get `{Countable K} {V} (d : gmap K V) (k : K) (dflt : V) : V :=
  default dflt (d !! k).

(** [k in d] *)
Definition contains `{Countable K} {V} (d : gmap K V) (k : K) : bool :=
  bool_decide (is_Some (d !! k)).

(** [range(a, b)] over the integers *)
Definition range (a b : Z) : list Z := seqZ a (b - a).

(** ** Numbers *)

(** A bound of a variable or of a constraint row: a number, [np.inf] or
    [-np.inf]. *)
Inductive bound : Type :=
| NegInf
| Fin (q : Q)
| PosInf.

(** [int(round(x))]: Python rounds to the nearest integer, a tie going to
    the even neighbour. *)
Definition py_round (q : Q) : Z :=
  let n := Qnum q in
  let d := Z.pos (Qden q) in
  let fl := n `div` d in
  match 2 * (n `mod` d) ?= d with
  | Lt => fl
  | Gt => fl + 1
  | Eq => if Z.even fl then fl else fl + 1
  end.

(** [a / b] with [b] an [int]: division by zero is an error. *)
Definition py_div (a : Q) (b : Z) : result Q :=
  if decide (b = 0) then Raise ZeroDivisionError else Ok (a / inject_Z b)%Q.

(** ** Strings *)

(** [s.split(c)] for a one-character separator. *)
Fixpoint split_on (c : ascii) (s : string) : list string :=
  match s with
  | EmptyString => [EmptyString]
  | String a s' =>
      if Ascii.eqb a c then EmptyString :: split_on c s'
      else match split_on c s' with
           | [] => [String a EmptyString]
           | w :: ws => String a w :: ws
           end
  end.

(** [l[i]] on a Python list with a non-negative literal index *)
Definition list_getitem {A} (l : list A) (i : nat) : result A :=
  match l !! i with
  | Some a => Ok a
  | None => Raise IndexError
  end.

(** The white space that [int] skips around a literal in an ASCII
    string: the characters 9 to 13 and the space. *)
Definition is_space (a : ascii) : bool :=
  let n := nat_of_ascii a in
  ((9 <=? n)%nat && (n <=? 13)%nat) || (n =? 32)%nat.

Fixpoint lstrip (s : string) : string :=
  match s with
  | String a s' => if is_space a then lstrip s' else s
  | EmptyString => EmptyString
  end.

Definition strip (s : string) : string :=
  String.rev (lstrip (String.rev (lstrip s))).

Definition digit_of (a : ascii) : option Z :=
  let n := nat_of_ascii a in
  if ((48 <=? n)%nat && (n <=? 57)%nat)%bool then Some (Z.of_nat n - 48) else None.

(** Digits of a decimal literal; a single underscore may separate two
    digits. [acc] is the value read so far, [after_digit] tells whether
    the previous character was a digit. *)
Fixpoint digits (s : string) (acc : Z) (after_digit : bool) : option Z :=
  match s with
  | EmptyString => if after_digit then Some acc else None
  | String a s' =>
      match digit_of a with
      | Some d => digits s' (10 * acc + d) true
      | None =>
          if (Ascii.eqb a "_" && after_digit)%bool then
            match s' with
            | String b _ => if digit_of b is Some _ then digits s' acc false else None
            | EmptyString => None
            end
          else None
      end
  end.

(** [int(s)] on an ASCII string: surrounding white space, an optional
    sign, decimal digits. *)
Definition py_int (s : string) : result Z :=
  let body :=
    match strip s with
    | String "-" s' => (λ z, - z) <$> digits s' 0 false
    | String "+" s' => digits s' 0 false
    | s' => digits s' 0 false
    end in
  match body with
  | Some z => Ok z
  | None => Raise ValueError
  end.

(** [sorted(col.unique())] *)
Definition sorted_unique_Z (l : list Z) : list Z :=
  merge_sort Z.le (remove_dups l).

Definition string_le (a b : string) : Prop := String.leb a b = true.

Global Instance string_le_dec a b : Decision (string_le a b).
Proof. unfold string_le. apply _. Defined.

Definition sorted_unique_str (l : list string) : list string :=
  merge_sort string_le (remove_dups l).

(** ** The model under construction: class [OptimizationModel] *)

Record OptimizationModel : Type := {
  var_names : list string;
  var_types : list Z;          (* 0 for continuous, 1 for integer *)
  lbs : list bound;
  ubs : list bound;
  obj_coeffs : list Q;
  var_map : gmap string nat;
  constraints_rows : list nat;
  constraints_cols : list nat;
  constraints_vals : list Q;
  constraints_lbs : list bound;
  constraints_ubs : list bound;
  constraint_count : nat
}.

(** [OptimizationModel.__init__] *)
Definition new_model : OptimizationModel := {|
  var_names := [];
  var_types := [];
  lbs := [];
  ubs := [];
  obj_coeffs := [];
  var_map := ∅;
  constraints_rows := [];
  constraints_cols := [];
  constraints_vals := [];
  constraints_lbs := [];
  constraints_ubs := [];
  constraint_count := 0
|}.

(** [OptimizationModel.add_variable]: the new variable gets the next free
    index, which is returned. *)
Definition add_variable (name var_type : string) (lb ub : bound) (obj : Q)
    (m : OptimizationModel) : nat * OptimizationModel :=
  let idx := length (var_names m) in
  (idx,
   {| var_names := var_names m ++ [name];
      var_types := var_types m ++ [if String.eqb var_type "integer" then 1 else 0];
      lbs := lbs m ++ [lb];
      ubs := ubs m ++ [ub];
      obj_coeffs := obj_coeffs m ++ [obj];
      var_map := <[name := idx]> (var_map m);
      constraints_rows := constraints_rows m;
      constraints_cols := constraints_cols m;
      constraints_vals := constraints_vals m;
      constraints_lbs := constraints_lbs m;
      constraints_ubs := constraints_ubs m;
      constraint_count := constraint_count m |}).

(** A term of a constraint: [(coeff, var_idx)]. *)
Definition term : Type := Q * nat.

(** [OptimizationModel.add_constraint]: the terms are stored as
    (row, column, value) triples; the sense decides the row's bounds. A
    sense other than the three known ones stores no bounds. *)
Definition add_constraint (terms : list term) (sense : string) (rhs : Q)
    (m : OptimizationModel) : OptimizationModel :=
  let row_idx := constraint_count m in
  let new_lbs :=
    if String.eqb sense "==" then [Fin rhs]
    else if String.eqb sense "<=" then [NegInf]
    else if String.eqb sense ">=" then [Fin rhs]
    else [] in
  let new_ubs :=
    if String.eqb sense "==" then [Fin rhs]
    else if String.eqb sense "<=" then [Fin rhs]
    else if String.eqb sense ">=" then [PosInf]
    else [] in
  {| var_names := var_names m;
     var_types := var_types m;
     lbs := lbs m;
     ubs := ubs m;
     obj_coeffs := obj_coeffs m;
     var_map := var_map m;
     constraints_rows := constraints_rows m ++ map (λ _, row_idx) terms;
     constraints_cols := constraints_cols m ++ map snd terms;
     constraints_vals := constraints_vals m ++ map fst terms;
     constraints_lbs := constraints_lbs m ++ new_lbs;
     constraints_ubs := constraints_ubs m ++ new_ubs;
     constraint_count := S row_idx |}.

(** The constraint rows as the solver sees them: row [i] of the sparse
    matrix, read back from the triples, with its two bounds. *)
Definition row_terms (m : OptimizationModel) (i : nat) : list term :=
  omap (λ '(r, c, v), if decide (r = i) then Some (v, c) else None)
       (zip (zip (constraints_rows m) (constraints_cols m)) (constraints_vals m)).

Record constraint : Type := {
  c_terms : list term;
  c_lb : bound;
  c_ub : bound
}.

Definition row (m : OptimizationModel) (i : nat) : option constraint :=
  lb ← constraints_lbs m !! i;
  ub ← constraints_ubs m !! i;
  Some {| c_terms := row_terms m i; c_lb := lb; c_ub := ub |}.

(** The three senses used by the generator, as rows. *)
Definition eq_row (terms : list term) (rhs : Q) : constraint :=
  {| c_terms := terms; c_lb := Fin rhs; c_ub := Fin rhs |}.

Definition le_row (terms : list term) (rhs : Q) : constraint :=
  {| c_terms := terms; c_lb := NegInf; c_ub := Fin rhs |}.

(** All rows of the model, in order. *)
Definition rows (m : OptimizationModel) : list constraint :=
  omap (row m) (seq 0 (constraint_count m)).

(** ** Input tables *)

Record carbon_row : Type := {
  ce_year : Z;
  ce_carbon_emission : Q
}.

Record demand_row : Type := {
  dm_year : Z;
  dm_size : string;
  dm_distance : string;
  dm_demand : Q
}.

Record vehicle_row : Type := {
  vh_vehicle : string;
  vh_size : string;
  vh_year : Z;
  vh_cost : Q;
  vh_yearly_range : Q
}.

Record fuel_row : Type := {
  fu_fuel : string;
  fu_year : Z;
  fu_emissions : Q;
  fu_cost : Q
}.

Record vehicle_fuel_row : Type := {
  vf_id : string;
  vf_fuel : string;
  vf_consumption : Q
}.

Record profile_row : Type := {
  cp_end_of_year : Z;
  cp_resale_value_percent : Q;
  cp_insurance_cost_percent : Q;
  cp_maintenance_cost_percent : Q
}.

(** What [load_data] returns. *)
Record Data : Type := {
  carbon_emissions : list carbon_row;
  demand : list demand_row;
  vehicles : list vehicle_row;
  fuels_table : list fuel_row;
  vehicles_fuels : list vehicle_fuel_row;
  cost_profiles : list profile_row
}.

(** [df.set_index(keys)[col].to_dict()]: rows are entered in order, a
    later row with the same key replaces the earlier value. *)
Definition to_dict `{Countable K} {V} (l : list (K * V)) : gmap K V :=
  foldl (λ m kv, <[kv.1 := kv.2]> m) ∅ l.

(** [col.apply(f)] for an [f] that can raise: the first failing row
    decides. *)
Fixpoint apply_col {A B} (f : A → result B) (l : list A) : result (list B) :=
  match l with
  | [] => Ok []
  | a :: l' =>
      rbind (f a) (λ b, rbind (apply_col f l') (λ bs, Ok (b :: bs)))
  end.

Definition underscore : ascii := "_"%char.

(** The sets and parameter maps of [solve_optimization]. *)
Record Params : Type := {
  years : list Z;
  sizes : list string;
  distances : list string;
  vehicle_types : list string;
  fuels : list string;
  demand_dict : gmap (Z * string * string) Q;
  emission_targets : gmap Z Q;
  vehicle_cost : gmap (string * string * Z) Q;
  vehicle_range : gmap (string * string * Z) Q;
  fuel_cost : gmap (string * Z) Q;
  fuel_emissions : gmap (string * Z) Q;
  consumption : gmap (string * string * Z * string) Q;
  resale_profile : gmap Z Q;
  insurance_profile : gmap Z Q;
  maintenance_profile : gmap Z Q
}.

(** The three derived columns of the vehicles-fuels table, each computed
    over all rows before the next one. *)
Definition vf_keys (vf : list vehicle_fuel_row)
    : result (list (string * string * Z * string)) :=
  rbind (apply_col (λ r, list_getitem (split_on underscore (vf_id r)) 0) vf) (λ vts,
  rbind (apply_col (λ r, list_getitem (split_on underscore (vf_id r)) 1) vf) (λ szs,
  rbind (apply_col (λ r, rbind (list_getitem (split_on underscore (vf_id r)) 2) py_int) vf) (λ yrs,
  Ok (zip_with (λ '(v, s, y) r, (v, s, y, vf_fuel r)) (zip (zip vts szs) yrs) vf)))).

(** Lines 90 to 117 of [optimizer.py]: sets, then parameters. *)
Definition parameters (data : Data) : result Params :=
  rbind (vf_keys (vehicles_fuels data)) (λ keys,
  Ok {|
    years := sorted_unique_Z (ce_year <$> carbon_emissions data);
    sizes := sorted_unique_str (dm_size <$> demand data);
    distances := sorted_unique_str (dm_distance <$> demand data);
    vehicle_types := sorted_unique_str (vh_vehicle <$> vehicles data);
    fuels := sorted_unique_str (fu_fuel <$> fuels_table data);
    demand_dict :=
      to_dict ((λ r, ((dm_year r, dm_size r, dm_distance r), dm_demand r)) <$> demand data);
    emission_targets :=
      to_dict ((λ r, (ce_year r, ce_carbon_emission r)) <$> carbon_emissions data);
    vehicle_cost :=
      to_dict ((λ r, ((vh_vehicle r, vh_size r, vh_year r), vh_cost r)) <$> vehicles data);
    vehicle_range :=
      to_dict ((λ r, ((vh_vehicle r, vh_size r, vh_year r), vh_yearly_range r)) <$> vehicles data);
    fuel_cost :=
      to_dict ((λ r, ((fu_fuel r, fu_year r), fu_cost r)) <$> fuels_table data);
    fuel_emissions :=
      to_dict ((λ r, ((fu_fuel r, fu_year r), fu_emissions r)) <$> fuels_table data);
    consumption :=
      to_dict (zip keys (vf_consumption <$> vehicles_fuels data));
    resale_profile :=
      to_dict ((λ r, (cp_end_of_year r, cp_resale_value_percent r)) <$> cost_profiles data);
    insurance_profile :=
      to_dict ((λ r, (cp_end_of_year r, cp_insurance_cost_percent r)) <$> cost_profiles data);
    maintenance_profile :=
      to_dict ((λ r, (cp_end_of_year r, cp_maintenance_cost_percent r)) <$> cost_profiles data)
  |}).

(** ** Model Builder: the variables *)

(** The model together with the five registries of [solve_optimization];
    a registry maps a key tuple to the index of its variable. *)
Record Builder : Type := {
  model : OptimizationModel;
  buy_vars : gmap (Z * string * string) nat;
  sell_vars : gmap (Z * string * string * Z) nat;
  use_vars : gmap (Z * string * string * string * string) nat;
  km_vars : gmap (Z * string * string * string * string) nat;
  fleet_vars : gmap (Z * string * string * Z) nat
}.

Definition new_builder : Builder := {|
  model := new_model;
  buy_vars := ∅;
  sell_vars := ∅;
  use_vars := ∅;
  km_vars := ∅;
  fleet_vars := ∅
|}.

(** [model.add_variable(name, 'continuous', obj=obj)] *)
Definition new_variable (name : string) (obj : Q) : M Builder nat :=
  λ b, let '(idx, m) := add_variable name "continuous" (Fin 0) PosInf obj (model b) in
       Ok (idx,
           {| model := m; buy_vars := buy_vars b; sell_vars := sell_vars b;
              use_vars := use_vars b; km_vars := km_vars b;
              fleet_vars := fleet_vars b |}).

Definition set_buy (k : Z * string * string) (idx : nat) : M Builder unit :=
  modify (λ b, {| model := model b; buy_vars := <[k := idx]> (buy_vars b);
                  sell_vars := sell_vars b; use_vars := use_vars b;
                  km_vars := km_vars b; fleet_vars := fleet_vars b |}).

Definition set_sell (k : Z * string * string * Z) (idx : nat) : M Builder unit :=
  modify (λ b, {| model := model b; buy_vars := buy_vars b;
                  sell_vars := <[k := idx]> (sell_vars b); use_vars := use_vars b;
                  km_vars := km_vars b; fleet_vars := fleet_vars b |}).

Definition set_use (k : Z * string * string * string * string) (idx : nat)
    : M Builder unit :=
  modify (λ b, {| model := model b; buy_vars := buy_vars b;
                  sell_vars := sell_vars b; use_vars := <[k := idx]> (use_vars b);
                  km_vars := km_vars b; fleet_vars := fleet_vars b |}).

Definition set_km (k : Z * string * string * string * string) (idx : nat)
    : M Builder unit :=
  modify (λ b, {| model := model b; buy_vars := buy_vars b;
                  sell_vars := sell_vars b; use_vars := use_vars b;
                  km_vars := <[k := idx]> (km_vars b); fleet_vars := fleet_vars b |}).

Definition set_fleet (k : Z * string * string * Z) (idx : nat) : M Builder unit :=
  modify (λ b, {| model := model b; buy_vars := buy_vars b;
                  sell_vars := sell_vars b; use_vars := use_vars b;
                  km_vars := km_vars b; fleet_vars := <[k := idx]> (fleet_vars b) |}).

(** The names given to the variables (f-strings). *)
Definition buy_name (t : Z) (v s : string) : string :=
  "Buy_" +:+ pretty t +:+ "_" +:+ v +:+ "_" +:+ s.

Definition fleet_name (t : Z) (v s : string) (age : Z) : string :=
  "Fleet_" +:+ pretty t +:+ "_" +:+ v +:+ "_" +:+ s +:+ "_" +:+ pretty age.

Definition sell_name (t : Z) (v s : string) (age : Z) : string :=
  "Sell_" +:+ pretty t +:+ "_" +:+ v +:+ "_" +:+ s +:+ "_" +:+ pretty age.

Definition use_name (t : Z) (v s d f : string) : string :=
  "Use_" +:+ pretty t +:+ "_" +:+ v +:+ "_" +:+ s +:+ "_" +:+ d +:+ "_" +:+ f.

Definition km_name (t : Z) (v s d f : string) : string :=
  "Km_" +:+ pretty t +:+ "_" +:+ v +:+ "_" +:+ s +:+ "_" +:+ d +:+ "_" +:+ f.

(** The first planning year, a literal of the source. *)
Definition base_year : Z := 2023.

Section Variables.
Variable P : Params.

(** Objective coefficient of [Fleet_t_v_s_age] *)
Definition holding_cost (t : Z) (v s : string) (age : Z) : Q :=
  let year_bought := t - age in
  let price := dict_get (vehicle_cost P) (v, s, year_bought) 0%Q in
  let maint_rate := (dict_get (maintenance_profile P) age 0 / 100)%Q in
  let ins_rate := (dict_get (insurance_profile P) age 0 / 100)%Q in
  (price * (maint_rate + ins_rate))%Q.

(** Objective coefficient of [Sell_t_v_s_age] *)
Definition resale_value (t : Z) (v s : string) (age : Z) : Q :=
  let year_bought := t - age in
  let price := dict_get (vehicle_cost P) (v, s, year_bought) 0%Q in
  let resale_rate := (dict_get (resale_profile P) age 0 / 100)%Q in
  ((-1)%Q * price * resale_rate)%Q.

(** Objective coefficient of [Km_t_v_s_d_f], given the consumption *)
Definition cost_per_km (t : Z) (f : string) (cons : Q) : Q :=
  let f_cost := dict_get (fuel_cost P) (f, t) 0%Q in
  (cons * f_cost)%Q.

(** Body of the loops over [d] and [f] (lines 161 to 171) *)
Definition create_use_km (t : Z) (v s d f : string) : M Builder unit :=
  when (contains (consumption P) (v, s, t, f)) (
    iu <- new_variable (use_name t v s d f) 0%Q ;;
    set_use (t, v, s, d, f) iu ;;
    cons <- lift (getitem (consumption P) (v, s, t, f)) ;;
    ik <- new_variable (km_name t v s d f) (cost_per_km t f cons) ;;
    set_km (t, v, s, d, f) ik).

(** Body of the loops over [t], [v] and [s] (lines 131 to 171) *)
Definition create_cell (t : Z) (v s : string) : M Builder unit :=
  ib <- new_variable (buy_name t v s) (dict_get (vehicle_cost P) (v, s, t) 0%Q) ;;
  set_buy (t, v, s) ib ;;
  for_ (range 0 11) (λ age,
    when (bool_decide (base_year ≤ t - age)) (
      i <- new_variable (fleet_name t v s age) (holding_cost t v s age) ;;
      set_fleet (t, v, s, age) i)) ;;
  for_ (range 1 11) (λ age,
    when (bool_decide (base_year ≤ t - age)) (
      i <- new_variable (sell_name t v s age) (resale_value t v s age) ;;
      set_sell (t, v, s, age) i)) ;;
  for_ (distances P) (λ d,
    for_ (fuels P) (λ f,
      create_use_km t v s d f)).

(** Lines 128 to 171 *)
Definition create_variables : M Builder unit :=
  for_ (years P) (λ t,
    for_ (vehicle_types P) (λ v,
      for_ (sizes P) (λ s,
        create_cell t v s))).

End Variables.

(** ** Constraint Generator *)

(** A list built by [terms = []] and nested loops that [append], when the
    appended value can raise. *)
Fixpoint gather {A B} (l : list A) (f : A → result (list B)) : result (list B) :=
  match l with
  | [] => Ok []
  | a :: l' => rbind (f a) (λ bs, rbind (gather l' f) (λ bs', Ok (bs ++ bs')))
  end.

Section Constraints.
Variable P : Params.
(** The registries are only read from here on. *)
Variable R : Builder.

(** [model.add_constraint(terms, sense, rhs)] *)
Definition emit (terms : list term) (sense : string) (rhs : Q)
    : M OptimizationModel unit :=
  modify (add_constraint terms sense rhs).

(** Lines 187 to 217: the ages 1 to 10 of one (t, v, s) *)
Definition fleet_aging (t : Z) (v s : string) (age : Z) : M OptimizationModel unit :=
  when (bool_decide (base_year ≤ t - age)) (
    fa <- lift (getitem (fleet_vars R) (t, v, s, age)) ;;
    sa <- lift (getitem (sell_vars R) (t, v, s, age)) ;;
    terms <- (if bool_decide (base_year < t) then
                fp <- lift (getitem (fleet_vars R) (t - 1, v, s, age - 1)) ;;
                ret ([(1%Q, fa); (1%Q, sa)] ++ [((-1)%Q, fp)])
              else ret [(1%Q, fa); (1%Q, sa)]) ;;
    emit terms "==" 0%Q ;;
    when (bool_decide (base_year < t)) (
      sa' <- lift (getitem (sell_vars R) (t, v, s, age)) ;;
      fp' <- lift (getitem (fleet_vars R) (t - 1, v, s, age - 1)) ;;
      emit [(1%Q, sa'); ((-1)%Q, fp')] "<=" 0%Q)).

(** Lines 179 to 217: one (t, v, s) *)
Definition fleet_cell (t : Z) (v s : string) : M OptimizationModel unit :=
  f0 <- lift (getitem (fleet_vars R) (t, v, s, 0)) ;;
  b0 <- lift (getitem (buy_vars R) (t, v, s)) ;;
  emit [(1%Q, f0); ((-1)%Q, b0)] "==" 0%Q ;;
  for_ (range 1 11) (fleet_aging t v s).

(** 1. Fleet Dynamics (lines 176 to 217) *)
Definition fleet_dynamics : M OptimizationModel unit :=
  for_ (years P) (λ t,
    for_ (vehicle_types P) (λ v,
      for_ (sizes P) (λ s,
        fleet_cell t v s))).

(** The terms of a demand row: the Km variables of the cell that exist,
    vehicle types outermost, fuels innermost. *)
Definition demand_terms (t : Z) (s d : string) : list term :=
  v ← vehicle_types P;
  f ← fuels P;
  match km_vars R !! (t, v, s, d, f) with
  | Some ik => [(1%Q, ik)]
  | None => []
  end.

(** Lines 234 to 241: the link of one Km variable to its Use variable *)
Definition link_km_use (t : Z) (s d v f : string) : M OptimizationModel unit :=
  match km_vars R !! (t, v, s, d, f) with
  | Some ik =>
      let rng := dict_get (vehicle_range P) (v, s, t) 0%Q in
      iu <- lift (getitem (use_vars R) (t, v, s, d, f)) ;;
      emit [(1%Q, ik); ((- rng)%Q, iu)] "<=" 0%Q
  | None => ret tt
  end.

(** Lines 223 to 241: one (t, s, d) *)
Definition demand_cell (t : Z) (s d : string) : M OptimizationModel unit :=
  dem <- lift (getitem (demand_dict P) (t, s, d)) ;;
  emit (demand_terms t s d) "==" dem ;;
  for_ (vehicle_types P) (λ v,
    for_ (fuels P) (λ f,
      link_km_use t s d v f)).

(** 2. Demand Satisfaction (lines 220 to 241) *)
Definition demand_satisfaction : M OptimizationModel unit :=
  for_ (years P) (λ t,
    for_ (sizes P) (λ s,
      for_ (distances P) (λ d,
        demand_cell t s d))).

Definition use_terms (t : Z) (v s : string) : list term :=
  d ← distances P;
  f ← fuels P;
  match use_vars R !! (t, v, s, d, f) with
  | Some iu => [(1%Q, iu)]
  | None => []
  end.

Definition fleet_terms (t : Z) (v s : string) : list term :=
  age ← range 0 11;
  match fleet_vars R !! (t, v, s, age) with
  | Some i => [((-1)%Q, i)]
  | None => []
  end.

(** 3. Usage Limit (lines 245 to 260) *)
Definition usage_limit : M OptimizationModel unit :=
  for_ (years P) (λ t,
    for_ (vehicle_types P) (λ v,
      for_ (sizes P) (λ s,
        emit (use_terms t v s ++ fleet_terms t v s) "<=" 0%Q))).

(** The terms of the emission row of year [t] (lines 264 to 273) *)
Definition emission_terms (t : Z) : result (list term) :=
  gather (vehicle_types P) (λ v,
    gather (sizes P) (λ s,
      gather (distances P) (λ d,
        gather (fuels P) (λ f,
          match km_vars R !! (t, v, s, d, f) with
          | Some ik =>
              rbind (getitem (consumption P) (v, s, t, f)) (λ cons,
              let emis := dict_get (fuel_emissions P) (f, t) 0%Q in
              let coeff := (cons * emis)%Q in
              Ok [(coeff, ik)])
          | None => Ok []
          end)))).

(** 4. Emission Targets (lines 263 to 275) *)
Definition emission_caps : M OptimizationModel unit :=
  for_ (years P) (λ t,
    terms <- lift (emission_terms t) ;;
    cap <- lift (getitem (emission_targets P) t) ;;
    emit terms "<=" cap).

(** Lines 175 to 275 *)
Definition add_constraints : M OptimizationModel unit :=
  fleet_dynamics ;;
  demand_satisfaction ;;
  usage_limit ;;
  emission_caps.

End Constraints.

(** The registries of [b] with the model [m]. *)
Definition with_model (b : Builder) (m : OptimizationModel) : Builder :=
  {| model := m; buy_vars := buy_vars b; sell_vars := sell_vars b;
     use_vars := use_vars b; km_vars := km_vars b; fleet_vars := fleet_vars b |}.

(** Lines 86 to 275: from the tables to the model and its registries. *)
Definition build_model (data : Data) : result (Params * Builder) :=
  rbind (parameters data) (λ P,
  rbind (create_variables P new_builder) (λ '(_, b),
  rbind (add_constraints P b (model b)) (λ '(_, m),
  Ok (P, with_model b m)))).

(** ** Solver Adapter *)

(** What the decoder reads of the result of [milp]: the flag [success],
    the message and the assignment vector [x]. *)
Record SolverResult : Type := {
  success : bool;
  message : string;
  res_x : list Q          (* [res.x] *)
}.

(** ** Solution Decoder *)

(** A row of the submission. The three last cells are the empty string on
    Buy and Sell rows; for the number, the empty cell is [None]. *)
Record PlanRow : Type := {
  r_year : Z;
  r_id : string;
  r_num_vehicles : Z;
  r_type : string;
  r_fuel : string;
  r_distance_bucket : string;
  r_distance_per_vehicle : option Q
}.

(** An entry of a pool: [{'id': vid, 'count': count}] *)
Record PoolItem : Type := {
  item_id : string;
  item_count : Z
}.

(** [f"{v}_{s}_{year}"] *)
Definition vehicle_id (v s : string) (year : Z) : string :=
  v +:+ "_" +:+ s +:+ "_" +:+ pretty year.

Definition buy_row (t : Z) (vid : string) (val : Z) : PlanRow :=
  {| r_year := t; r_id := vid; r_num_vehicles := val; r_type := "Buy";
     r_fuel := ""; r_distance_bucket := ""; r_distance_per_vehicle := None |}.

Definition sell_row (t : Z) (vid : string) (val : Z) : PlanRow :=
  {| r_year := t; r_id := vid; r_num_vehicles := val; r_type := "Sell";
     r_fuel := ""; r_distance_bucket := ""; r_distance_per_vehicle := None |}.

Definition use_row (t : Z) (f d : string) (avg_km : Q) (vid : string) (take : Z)
    : PlanRow :=
  {| r_year := t; r_id := vid; r_num_vehicles := take; r_type := "Use";
     r_fuel := f; r_distance_bucket := d; r_distance_per_vehicle := Some avg_km |}.

(** Lines 377 to 386: the loop over the items of a pool. An item is
    updated in place, so the pool comes back with the new counts; the rows
    are those appended to the submission, in order; the last component is
    [remaining_needed] after the loop. *)
Fixpoint allocate (mk : string → Z → PlanRow) (pool : list PoolItem)
    (remaining_needed : Z) : list PoolItem * list PlanRow * Z :=
  match pool with
  | [] => ([], [], remaining_needed)
  | item :: pool' =>
      if (bool_decide (0 < item_count item) && bool_decide (0 < remaining_needed))%bool
      then
        let take := Z.min (item_count item) remaining_needed in
        let '(p, rs, rem) := allocate mk pool' (remaining_needed - take) in
        ({| item_id := item_id item; item_count := item_count item - take |} :: p,
         mk (item_id item) take :: rs,
         rem)
      else
        let '(p, rs, rem) := allocate mk pool' remaining_needed in
        (item :: p, rs, rem)
  end.

(** The state of the post-processing of one year: the rows so far and the
    pools, which the allocation shares between the duties of a class. *)
Record Decoder : Type := {
  final_submission : list PlanRow;
  fleet_pool : gmap (string * string) (list PoolItem)
}.

Section Decoding.
Variable P : Params.
Variable R : Builder.
(** [x = res.x] *)
Variable xs : list Q.

(** [get_val(idx)] *)
Definition get_val (idx : nat) : result Q := list_getitem xs idx.

(** [int(round(get_val(idx)))] *)
Definition get_count (idx : nat) : result Z :=
  rbind (get_val idx) (λ q, Ok (py_round q)).

Definition append_row (r : PlanRow) : M (list PlanRow) unit :=
  modify (λ rows, rows ++ [r]).

(** Lines 312 to 322 *)
Definition extract_sell (t : Z) (v s : string) (age : Z) : M (list PlanRow) unit :=
  match sell_vars R !! (t, v, s, age) with
  | Some idx =>
      val <- lift (get_count idx) ;;
      when (bool_decide (0 < val)) (
        let year_bought := t - age in
        append_row (sell_row t (vehicle_id v s year_bought) val))
  | None => ret tt
  end.

(** Lines 301 to 322 *)
Definition extract_cell (t : Z) (v s : string) : M (list PlanRow) unit :=
  idx <- lift (getitem (buy_vars R) (t, v, s)) ;;
  val <- lift (get_count idx) ;;
  when (bool_decide (0 < val)) (
    append_row (buy_row t (vehicle_id v s t) val)) ;;
  for_ (range 1 11) (extract_sell t v s).

(** Lines 298 to 322: the Buy and Sell rows *)
Definition extract_buy_sell : M (list PlanRow) unit :=
  for_ (years P) (λ t,
    for_ (vehicle_types P) (λ v,
      for_ (sizes P) (λ s,
        extract_cell t v s))).

(** Lines 341 to 349: the items carried over from the previous year *)
Definition carried_over (t : Z) (v s : string) : result (list PoolItem) :=
  if bool_decide (base_year < t) then
    gather (range 0 11) (λ age,
      match fleet_vars R !! (t - 1, v, s, age) with
      | Some idx =>
          rbind (get_count idx) (λ count,
          if bool_decide (0 < count) then
            let year_bought := (t - 1) - age in
            Ok [{| item_id := vehicle_id v s year_bought; item_count := count |}]
          else Ok [])
      | None => Ok []
      end)
  else Ok [].

(** Lines 332 to 356: the pool of one class *)
Definition build_pool (t : Z) (v s : string) : result (list PoolItem) :=
  rbind (carried_over t v s) (λ pool,
  rbind (getitem (buy_vars R) (t, v, s)) (λ idx,
  rbind (get_count idx) (λ bought,
  if bool_decide (0 < bought) then
    Ok (pool ++ [{| item_id := vehicle_id v s t; item_count := bought |}])
  else Ok pool))).

(** Lines 329 to 358 *)
Definition build_fleet_pool (t : Z) : M (gmap (string * string) (list PoolItem)) unit :=
  for_ (vehicle_types P) (λ v,
    for_ (sizes P) (λ s,
      pool <- lift (build_pool t v s) ;;
      modify (λ fp, <[(v, s) := pool]> fp))).

(** Lines 374 to 386, once [needed > 0]: the rows are appended and the
    counts of the shared pool are decreased. *)
Definition allocate_duty (t : Z) (v s d f : string) (avg_km : Q) (needed : Z)
    : M Decoder unit :=
  modify (λ st,
    match fleet_pool st !! (v, s) with
    | Some pool =>
        let '(pool', rs, _) := allocate (use_row t f d avg_km) pool needed in
        {| final_submission := final_submission st ++ rs;
           fleet_pool := <[(v, s) := pool']> (fleet_pool st) |}
    | None => st
    end).

(** Lines 365 to 386 *)
Definition assign_duty (t : Z) (v s d f : string) : M Decoder unit :=
  match use_vars R !! (t, v, s, d, f) with
  | Some idx_use =>
      idx_km <- lift (getitem (km_vars R) (t, v, s, d, f)) ;;
      needed <- lift (get_count idx_use) ;;
      total_km <- lift (get_val idx_km) ;;
      when (bool_decide (0 < needed)) (
        avg_km <- lift (py_div total_km needed) ;;
        allocate_duty t v s d f avg_km needed)
  | None => ret tt
  end.

(** Lines 361 to 386 *)
Definition assign_tasks (t : Z) : M Decoder unit :=
  for_ (vehicle_types P) (λ v,
    for_ (sizes P) (λ s,
      for_ (distances P) (λ d,
        for_ (fuels P) (λ f,
          assign_duty t v s d f)))).

(** Lines 327 to 386: one year, from the rows so far to the rows after *)
Definition decode_year (t : Z) : M (list PlanRow) unit :=
  λ rows,
    rbind (build_fleet_pool t ∅) (λ '(_, fp),
    rbind (assign_tasks t {| final_submission := rows; fleet_pool := fp |}) (λ '(_, st),
    Ok (tt, final_submission st))).

(** Lines 286 to 386: the rows of the submission *)
Definition decode : result (list PlanRow) :=
  rbind (extract_buy_sell []) (λ '(_, submission_rows),
  rbind (for_ (years P) decode_year submission_rows) (λ '(_, rows),
  Ok rows)).

End Decoding.

(** ** The pipeline *)

(** What a run leaves behind when it returns: the lines printed and, when
    it was written, the content of [submission.csv]. *)
Record Outcome : Type := {
  printed : list string;
  submission : option (list PlanRow)
}.

Definition py_bool (b : bool) : string := if b then "True" else "False".

Section Pipeline.
(** The external solver, [scipy.optimize.milp] with the fixed options. *)
Variable milp : OptimizationModel → SolverResult.

(** [OptimizationModel.solve] *)
Definition solve (m : OptimizationModel) : list string * SolverResult :=
  (["Solving with " +:+ pretty (length (var_names m)) +:+ " variables and "
      +:+ pretty (constraint_count m) +:+ " constraints..."],
   milp m).

(** [solve_optimization], given what [load_data] read *)
Definition solve_optimization (data : Data) : result Outcome :=
  rbind (build_model data) (λ '(P, b),
  let '(out, res) := solve (model b) in
  let log :=
    ["Loading data..."; "Data loaded."; "Creating variables...";
     "Adding constraints..."] ++ out ++
    ["Solver Status: " +:+ py_bool (success res) +:+ ", Message: " +:+ message res] in
  if negb (success res) then
    Ok {| printed := log ++ ["Optimization failed!"]; submission := None |}
  else
    rbind (decode P b (res_x res)) (λ rows,
    (* selecting the columns of a frame built from no row at all fails *)
    if bool_decide (rows = []) then Raise KeyError
    else
      Ok {| printed := log ++ ["Submission saved to submission.csv"];
            submission := Some rows |})).

End Pipeline.

(** ** A small instance *)

Definition demo_data : Data := {|
  carbon_emissions :=
    [ {| ce_year := 2023; ce_carbon_emission := 1000 |};
      {| ce_year := 2024; ce_carbon_emission := 900 |} ];
  demand :=
    [ {| dm_year := 2023; dm_size := "S1"; dm_distance := "D1"; dm_demand := 140 |};
      {| dm_year := 2023; dm_size := "S1"; dm_distance := "D2"; dm_demand := 60 |};
      {| dm_year := 2024; dm_size := "S1"; dm_distance := "D1"; dm_demand := 150 |};
      {| dm_year := 2024; dm_size := "S1"; dm_distance := "D2"; dm_demand := 50 |} ];
  vehicles :=
    [ {| vh_vehicle := "BEV"; vh_size := "S1"; vh_year := 2023; vh_cost := 500;
         vh_yearly_range := 100 |};
      {| vh_vehicle := "BEV"; vh_size := "S1"; vh_year := 2024; vh_cost := 450;
         vh_yearly_range := 100 |} ];
  fuels_table :=
    [ {| fu_fuel := "Electricity"; fu_year := 2023; fu_emissions := 2; fu_cost := 3 |};
      {| fu_fuel := "Electricity"; fu_year := 2024; fu_emissions := 1; fu_cost := 4 |} ];
  vehicles_fuels :=
    [ {| vf_id := "BEV_S1_2023"; vf_fuel := "Electricity"; vf_consumption := 1 # 2 |};
      {| vf_id := "BEV_S1_2024"; vf_fuel := "Electricity"; vf_consumption := 1 # 4 |} ];
  cost_profiles :=
    [ {| cp_end_of_year := 1; cp_resale_value_percent := 90;
         cp_insurance_cost_percent := 5; cp_maintenance_cost_percent := 1 |};
      {| cp_end_of_year := 2; cp_resale_value_percent := 80;
         cp_insurance_cost_percent := 6; cp_maintenance_cost_percent := 3 |} ]
|}.

(** ** Notions used in the statements *)

(** The model is well formed when the three triple lists have one length,
    no triple lies in a row that is not yet counted, and every counted row
    has its two bounds. *)
Record wf_model (m : OptimizationModel) : Prop := {
  wf_rows : Forall (λ r, (r < constraint_count m)%nat) (constraints_rows m);
  wf_cols : length (constraints_cols m) = length (constraints_rows m);
  wf_vals : length (constraints_vals m) = length (constraints_rows m);
  wf_lbs : length (constraints_lbs m) = constraint_count m;
  wf_ubs : length (constraints_ubs m) = constraint_count m
}.

Definition pick_row (i : nat) : nat * nat * Q → option term :=
  λ '(r, c, v), if decide (r = i) then Some (v, c) else None.

Definition valid_sense (sense : string) : Prop :=
  sense = "==" ∨ sense = "<=" ∨ sense = ">=".

(** The row that [add_constraint] stores for a sense and a right-hand
    side. *)
Definition row_of (terms : list term) (sense : string) (rhs : Q) : constraint :=
  {| c_terms := terms;
     c_lb := if String.eqb sense "<=" then NegInf else Fin rhs;
     c_ub := if String.eqb sense ">=" then PosInf else Fin rhs |}.

(** The keys of the five registries, together. *)
Inductive reg_key : Type :=
| KBuy (k : Z * string * string)
| KSell (k : Z * string * string * Z)
| KUse (k : Z * string * string * string * string)
| KKm (k : Z * string * string * string * string)
| KFleet (k : Z * string * string * Z).

Definition reg_lookup (b : Builder) (key : reg_key) : option nat :=
  match key with
  | KBuy k => buy_vars b !! k
  | KSell k => sell_vars b !! k
  | KUse k => use_vars b !! k
  | KKm k => km_vars b !! k
  | KFleet k => fleet_vars b !! k
  end.

(** The keys that [create_variables] is to register: a Buy variable per
    year and class; a Fleet variable per age 0 to 10 and a Sell variable
    per age 1 to 10 whose purchase year is not before the base year; a Use
    and a Km variable per distance and fuel when the consumption table has
    an entry for the class, the year and the fuel. *)
Definition declared (P : Params) (key : reg_key) : Prop :=
  match key with
  | KBuy (t, v, s) =>
      t ∈ years P ∧ v ∈ vehicle_types P ∧ s ∈ sizes P
  | KFleet (t, v, s, age) =>
      t ∈ years P ∧ v ∈ vehicle_types P ∧ s ∈ sizes P ∧
      0 ≤ age ≤ 10 ∧ base_year ≤ t - age
  | KSell (t, v, s, age) =>
      t ∈ years P ∧ v ∈ vehicle_types P ∧ s ∈ sizes P ∧
      1 ≤ age ≤ 10 ∧ base_year ≤ t - age
  | KUse (t, v, s, d, f) | KKm (t, v, s, d, f) =>
      t ∈ years P ∧ v ∈ vehicle_types P ∧ s ∈ sizes P ∧
      d ∈ distances P ∧ f ∈ fuels P ∧ is_Some (consumption P !! (v, s, t, f))
  end.

(** [registers c D]: the computation [c] returns, and the keys registered
    afterwards are those registered before and those of [D]. *)
Definition registers (c : M Builder unit) (D : reg_key → Prop) : Prop :=
  ∀ b, ∃ b', c b = Ok (tt, b') ∧
    ∀ key, is_Some (reg_lookup b' key) ↔ is_Some (reg_lookup b key) ∨ D key.

Global Instance reg_key_eq_dec : EqDecision reg_key.
Proof. solve_decision. Defined.

(** The name and the objective coefficient that the builder gives to the
    variable of a key. *)
Definition name_of (key : reg_key) : string :=
  match key with
  | KBuy (t, v, s) => buy_name t v s
  | KSell (t, v, s, age) => sell_name t v s age
  | KUse (t, v, s, d, f) => use_name t v s d f
  | KKm (t, v, s, d, f) => km_name t v s d f
  | KFleet (t, v, s, age) => fleet_name t v s age
  end.

Definition obj_of (P : Params) (key : reg_key) : Q :=
  match key with
  | KBuy (t, v, s) => dict_get (vehicle_cost P) (v, s, t) 0%Q
  | KSell (t, v, s, age) => resale_value P t v s age
  | KUse _ => 0%Q
  | KKm (t, v, s, d, f) =>
      cost_per_km P t f (dict_get (consumption P) (v, s, t, f) 0%Q)
  | KFleet (t, v, s, age) => holding_cost P t v s age
  end.

Definition set_reg (key : reg_key) (idx : nat) : M Builder unit :=
  match key with
  | KBuy k => set_buy k idx
  | KSell k => set_sell k idx
  | KUse k => set_use k idx
  | KKm k => set_km k idx
  | KFleet k => set_fleet k idx
  end.

(** What holds of the model and the registries all along the creation of
    the variables: the per-variable lists have one length; a registered
    index is the index of a variable with the name, the objective
    coefficient, the bounds and the type of its key; two keys never share
    an index. *)
Record builder_inv (P : Params) (b : Builder) : Prop := {
  inv_types : length (var_types (model b)) = length (var_names (model b));
  inv_lbs : length (lbs (model b)) = length (var_names (model b));
  inv_ubs : length (ubs (model b)) = length (var_names (model b));
  inv_objs : length (obj_coeffs (model b)) = length (var_names (model b));
  inv_var : ∀ key idx, reg_lookup b key = Some idx →
      var_names (model b) !! idx = Some (name_of key) ∧
      obj_coeffs (model b) !! idx = Some (obj_of P key) ∧
      var_types (model b) !! idx = Some 0 ∧
      lbs (model b) !! idx = Some (Fin 0) ∧
      ubs (model b) !! idx = Some PosInf;
  inv_inj : ∀ key1 key2 idx,
      reg_lookup b key1 = Some idx → reg_lookup b key2 = Some idx → key1 = key2;
  inv_rows : constraint_count (model b) = 0%nat ∧ constraints_rows (model b) = [] ∧
      constraints_cols (model b) = [] ∧ constraints_vals (model b) = [] ∧
      constraints_lbs (model b) = [] ∧ constraints_ubs (model b) = []
}.

Definition preserves {S} (inv : S → Prop) (c : M S unit) : Prop :=
  ∀ s s', inv s → c s = Ok (tt, s') → inv s'.

(** The part of the model that the constraint generator leaves alone. *)
Definition vars_of (m : OptimizationModel)
    : list string * list Z * list bound * list bound * list Q * gmap string nat :=
  (var_names m, var_types m, lbs m, ubs m, obj_coeffs m, var_map m).

(** [generates c r]: run on a well-formed model, the computation [c]
    raises [e] when [r] is [Raise e]; when [r] is [Ok tr] it returns, the
    rows [tr] are added after the rows of the model, in order, and the
    variables are untouched. *)
Definition generates (c : M OptimizationModel unit) (r : result (list constraint))
    : Prop :=
  ∀ m, wf_model m →
    match r with
    | Ok tr => ∃ m', c m = Ok (tt, m') ∧ rows m' = rows m ++ tr ∧
                     wf_model m' ∧ vars_of m' = vars_of m
    | Raise e => c m = Raise e
    end.

(** The rows of two generators run one after the other. *)
Definition seq_rows (r1 r2 : result (list constraint)) : result (list constraint) :=
  rbind r1 (λ t1, rbind r2 (λ t2, Ok (t1 ++ t2))).

Section Rows.
Variable P : Params.
Variable R : Builder.

(** The rows that [fleet_aging] adds, or the exception it raises. *)
Definition fleet_aging_rows (t : Z) (v s : string) (age : Z)
    : result (list constraint) :=
  if bool_decide (base_year ≤ t - age) then
    rbind (getitem (fleet_vars R) (t, v, s, age)) (λ fa,
    rbind (getitem (sell_vars R) (t, v, s, age)) (λ sa,
    rbind (if bool_decide (base_year < t) then
             rbind (getitem (fleet_vars R) (t - 1, v, s, age - 1)) (λ fp,
             Ok ([(1%Q, fa); (1%Q, sa)] ++ [((-1)%Q, fp)]))
           else Ok [(1%Q, fa); (1%Q, sa)]) (λ terms,
    seq_rows (Ok [eq_row terms 0%Q])
      (if bool_decide (base_year < t) then
         rbind (getitem (sell_vars R) (t, v, s, age)) (λ sa',
         rbind (getitem (fleet_vars R) (t - 1, v, s, age - 1)) (λ fp',
         Ok [le_row [(1%Q, sa'); ((-1)%Q, fp')] 0%Q]))
       else Ok []))))
  else Ok [].

Definition fleet_cell_rows (t : Z) (v s : string) : result (list constraint) :=
  rbind (getitem (fleet_vars R) (t, v, s, 0)) (λ f0,
  rbind (getitem (buy_vars R) (t, v, s)) (λ b0,
  seq_rows (Ok [eq_row [(1%Q, f0); ((-1)%Q, b0)] 0%Q])
           (gather (range 1 11) (fleet_aging_rows t v s)))).

Definition fleet_dynamics_rows : result (list constraint) :=
  gather (years P) (λ t,
    gather (vehicle_types P) (λ v,
      gather (sizes P) (λ s,
        fleet_cell_rows t v s))).

Definition link_km_use_rows (t : Z) (s d v f : string) : result (list constraint) :=
  match km_vars R !! (t, v, s, d, f) with
  | Some ik =>
      rbind (getitem (use_vars R) (t, v, s, d, f)) (λ iu,
      Ok [le_row [(1%Q, ik); ((- dict_get (vehicle_range P) (v, s, t) 0)%Q, iu)] 0%Q])
  | None => Ok []
  end.

Definition demand_cell_rows (t : Z) (s d : string) : result (list constraint) :=
  rbind (getitem (demand_dict P) (t, s, d)) (λ dem,
  seq_rows (Ok [eq_row (demand_terms P R t s d) dem])
           (gather (vehicle_types P) (λ v,
              gather (fuels P) (λ f,
                link_km_use_rows t s d v f)))).

Definition demand_satisfaction_rows : result (list constraint) :=
  gather (years P) (λ t,
    gather (sizes P) (λ s,
      gather (distances P) (λ d,
        demand_cell_rows t s d))).

Definition usage_limit_rows : result (list constraint) :=
  gather (years P) (λ t,
    gather (vehicle_types P) (λ v,
      gather (sizes P) (λ s,
        Ok [le_row (use_terms P R t v s ++ fleet_terms R t v s) 0%Q]))).

Definition emission_caps_rows : result (list constraint) :=
  gather (years P) (λ t,
    rbind (emission_terms P R t) (λ terms,
    rbind (getitem (emission_targets P) t) (λ cap,
    Ok [le_row terms cap]))).

Definition add_constraints_rows : result (list constraint) :=
  seq_rows fleet_dynamics_rows
    (seq_rows demand_satisfaction_rows
       (seq_rows usage_limit_rows emission_caps_rows)).

End Rows.

(** The registries [R] hold exactly the keys declared for [P]. *)
Definition registries_of (P : Params) (R : Builder) : Prop :=
  ∀ key, is_Some (reg_lookup R key) ↔ declared P key.

(** The horizon that the literal base year of the source supports: the
    years from 2023 on, without a gap. *)
Definition contiguous_horizon (P : Params) : Prop :=
  ∃ n, years P = seqZ base_year n.

(** The meaning of a row for the solver: [lb <= A x <= ub]. An index
    outside the vector reads as zero. *)
Definition value (xs : list Q) (i : nat) : Q := default 0%Q (xs !! i).

Definition row_sum (xs : list Q) (terms : list term) : Q :=
  foldr (λ '(q, i) acc, (q * value xs i + acc)%Q) 0%Q terms.

Definition above (lb : bound) (q : Q) : Prop :=
  match lb with
  | NegInf => True
  | Fin l => (l <= q)%Q
  | PosInf => False
  end.

Definition below (q : Q) (ub : bound) : Prop :=
  match ub with
  | NegInf => False
  | Fin u => (q <= u)%Q
  | PosInf => True
  end.

Definition satisfies (xs : list Q) (c : constraint) : Prop :=
  above (c_lb c) (row_sum xs (c_terms c)) ∧ below (row_sum xs (c_terms c)) (c_ub c).

(** An assignment is feasible for the rows of a model when it satisfies
    each of them. *)
Definition feasible (xs : list Q) (m : OptimizationModel) : Prop :=
  ∀ c, c ∈ rows m → satisfies xs c.

(** The parameter maps of the small instance. *)
Definition demo_params : Params :=
  match parameters demo_data with
  | Ok P => P
  | Raise _ =>
      {| years := []; sizes := []; distances := []; vehicle_types := []; fuels := [];
         demand_dict := ∅; emission_targets := ∅; vehicle_cost := ∅;
         vehicle_range := ∅; fuel_cost := ∅; fuel_emissions := ∅; consumption := ∅;
         resale_profile := ∅; insurance_profile := ∅; maintenance_profile := ∅ |}
  end.

(** What the parameter maps owe to the tables they are read from. *)
Record from_tables (data : Data) (P : Params) : Prop := {
  ft_years : ∀ t, t ∈ years P ↔ t ∈ ce_year <$> carbon_emissions data;
  ft_targets : ∀ t, t ∈ years P → is_Some (emission_targets P !! t);
  ft_demand : ∀ t s d dem, demand_dict P !! (t, s, d) = Some dem →
      s ∈ sizes P ∧ d ∈ distances P ∧
      ∃ r, r ∈ demand data ∧ dm_year r = t ∧ dm_size r = s ∧
           dm_distance r = d ∧ dm_demand r = dem;
  ft_nodup : NoDup (years P) ∧ NoDup (sizes P) ∧ NoDup (distances P) ∧
             NoDup (vehicle_types P) ∧ NoDup (fuels P)
}.

(** The demand table has a cell for every year of the horizon and every
    size and distance that it mentions. *)
Definition demand_complete (P : Params) : Prop :=
  ∀ t s d, t ∈ years P → s ∈ sizes P → d ∈ distances P →
    is_Some (demand_dict P !! (t, s, d)).

(** The terms of the emission row of year [t], as a comprehension: one
    term per existing Km variable of the year, vehicle types outermost,
    fuels innermost. *)
Definition emission_terms_list (P : Params) (R : Builder) (t : Z) : list term :=
  v ← vehicle_types P;
  s ← sizes P;
  d ← distances P;
  f ← fuels P;
  match km_vars R !! (t, v, s, d, f) with
  | Some ik =>
      [((dict_get (consumption P) (v, s, t, f) 0 * dict_get (fuel_emissions P) (f, t) 0)%Q,
        ik)]
  | None => []
  end.

(** What holds of the variables of a finished model: the registries hold
    the declared keys, each with the index of a variable of its name,
    coefficient, bounds and type, and no two keys share a variable. *)
Record variables_ok (P : Params) (R : Builder) : Prop := {
  vo_reg : registries_of P R;
  vo_var : ∀ key idx, reg_lookup R key = Some idx →
      var_names (model R) !! idx = Some (name_of key) ∧
      obj_coeffs (model R) !! idx = Some (obj_of P key) ∧
      var_types (model R) !! idx = Some 0 ∧
      lbs (model R) !! idx = Some (Fin 0) ∧
      ubs (model R) !! idx = Some PosInf;
  vo_inj : ∀ key1 key2 idx,
      reg_lookup R key1 = Some idx → reg_lookup R key2 = Some idx → key1 = key2
}.

(** [demand_complete], as a check that can be run. *)
Definition demand_completeb (P : Params) : bool :=
  forallb (λ t,
    forallb (λ s,
      forallb (λ d, contains (demand_dict P) (t, s, d)) (distances P))
      (sizes P))
    (years P).

(** The registries of the small instance, after the variables are
    created. *)
Definition demo_builder : Builder :=
  match create_variables demo_params new_builder with
  | Ok (_, b) => b
  | Raise _ => new_builder
  end.

(** Usage variables per purchase vintage: for every year [t], class
    [(v, s)] and purchase year [y] of an age from 0 to 10, and every
    distance [d] and fuel [f] that the consumption index allows to the
    vintage [(v, s, y)], there are a Use and a Km variable for the duty in
    year [t], the Km variable with the consumption rate of the vintage
    times the fuel cost of the year as its objective coefficient. *)
Definition usage_variables_per_vintage (P : Params) (R : Builder) : Prop :=
  ∀ t v s y d f cons,
    t ∈ years P → v ∈ vehicle_types P → s ∈ sizes P →
    base_year ≤ y → 0 ≤ t - y ≤ 10 →
    d ∈ distances P → f ∈ fuels P →
    consumption P !! (v, s, y, f) = Some cons →
    ∃ iu ik q,
      use_vars R !! (t, v, s, d, f) = Some iu ∧
      km_vars R !! (t, v, s, d, f) = Some ik ∧
      obj_coeffs (model R) !! ik = Some q ∧
      (q == cons * dict_get (fuel_cost P) (f, t) 0)%Q.

(** The vehicles that a pool holds. *)
Definition pool_total (pool : list PoolItem) : Z :=
  foldr (λ it acc, item_count it + acc) 0 pool.

(** The vehicles that a list of rows carries. *)
Definition vehicles_of (rs : list PlanRow) : Z :=
  foldr (λ r acc, r_num_vehicles r + acc) 0 rs.

Definition pool_nonneg (pool : list PoolItem) : Prop :=
  Forall (λ it, 0 ≤ item_count it) pool.

(** [safe c]: the computation never divides by zero. *)
Definition safe {S A} (c : M S A) : Prop :=
  ∀ s, c s ≠ Raise ZeroDivisionError.

Definition safe_result {A} (r : result A) : Prop := r ≠ Raise ZeroDivisionError.

(** The purchase years of the batches that the pool of year [t] can hold:
    the year itself and, after the base year, the purchase years of the
    fleet at the end of year [t - 1]. *)
Definition pool_vintage (t y : Z) : Prop :=
  y = t ∨ (base_year < t ∧ ∃ age, 0 ≤ age ≤ 10 ∧ y = t - 1 - age).

(** The pools of year [t]: every item is a batch of the class of its
    pool, of a vintage of the year, with a count that is not negative. *)
Definition pools_ok (t : Z) (fp : gmap (string * string) (list PoolItem)) : Prop :=
  ∀ v s pool, fp !! (v, s) = Some pool →
    Forall (λ it, 0 ≤ item_count it ∧
                  ∃ y, item_id it = vehicle_id v s y ∧ pool_vintage t y) pool.

(** A Use row as the decoder makes it for a duty [(t, v, s, d, f)]: the
    rounded value of the Use variable is positive, the distance per
    vehicle is the value of the Km variable divided by it, and the batch
    is one of the class. *)
Definition duty_row (P : Params) (R : Builder) (xs : list Q) (r : PlanRow) : Prop :=
  ∃ t v s d f iu ik qu qk y,
    t ∈ years P ∧ v ∈ vehicle_types P ∧ s ∈ sizes P ∧
    d ∈ distances P ∧ f ∈ fuels P ∧
    use_vars R !! (t, v, s, d, f) = Some iu ∧
    km_vars R !! (t, v, s, d, f) = Some ik ∧
    xs !! iu = Some qu ∧ xs !! ik = Some qk ∧
    0 < py_round qu ∧
    r_year r = t ∧ r_fuel r = f ∧ r_distance_bucket r = d ∧
    r_id r = vehicle_id v s y ∧ pool_vintage t y ∧
    0 < r_num_vehicles r ∧
    r_distance_per_vehicle r = Some (qk / inject_Z (py_round qu))%Q.

(** The rows so far: every row is a Buy row, a Sell row or the Use row
    of a duty. *)
Definition rows_ok (P : Params) (R : Builder) (xs : list Q) (rows : list PlanRow)
    : Prop :=
  ∀ r, r ∈ rows →
    (r_type r = "Buy" ∧ r_distance_per_vehicle r = None) ∨
    (r_type r = "Sell" ∧ r_distance_per_vehicle r = None) ∨
    (r_type r = "Use" ∧ duty_row P R xs r).

(** What holds of the state of the decoder all along a year [t]. *)
Definition decoder_inv (P : Params) (R : Builder) (xs : list Q) (t : Z)
    (st : Decoder) : Prop :=
  rows_ok P R xs (final_submission st) ∧ pools_ok t (fleet_pool st).

(** ** The batch ids, as the validator reads them *)

(** Lines 156 to 159 of [validate_submission.py]: the vehicle type, the
    size and the purchase year that the validator reads off a batch id.
    The optimiser reads the ids of the vehicles-fuels table in the same
    way (lines 109 to 111 of [optimizer.py]). *)
Definition read_batch_id (vid : string) : result (string * string * Z) :=
  rbind (list_getitem (split_on underscore vid) 0) (λ v_type,
  rbind (list_getitem (split_on underscore vid) 1) (λ size,
  rbind (rbind (list_getitem (split_on underscore vid) 2) py_int) (λ v_year,
  Ok (v_type, size, v_year)))).

(** [satisfies] and [feasible], as checks that can be run. *)
Definition aboveb (lb : bound) (q : Q) : bool :=
  match lb with
  | NegInf => true
  | Fin l => Qle_bool l q
  | PosInf => false
  end.

Definition belowb (q : Q) (ub : bound) : bool :=
  match ub with
  | NegInf => false
  | Fin u => Qle_bool q u
  | PosInf => true
  end.

Definition satisfiesb (xs : list Q) (c : constraint) : bool :=
  aboveb (c_lb c) (row_sum xs (c_terms c)) && belowb (row_sum xs (c_terms c)) (c_ub c).

Definition feasibleb (xs : list Q) (m : OptimizationModel) : bool :=
  forallb (satisfiesb xs) (rows m).

(** The model of the small instance. *)
Definition demo_model : Builder :=
  match build_model demo_data with
  | Ok (_, b) => b
  | Raise _ => new_builder
  end.

(** An assignment of the relaxed model of the small instance that meets
    every row and every bound; the Use variables of 2023 have the values
    7/5 and 3/5, those of 2024 the values 3/2 and 1/2. The variables are,
    in order: Buy, Fleet(0), Use and Km of D1, Use and Km of D2 for 2023;
    Buy, Fleet(0), Fleet(1), Sell(1), Use and Km of D1, Use and Km of D2
    for 2024. *)
Definition demo_relaxed : list Q :=
  [2; 2; 7 # 5; 140; 3 # 5; 60;
   0; 0; 2; 0; 3 # 2; 150; 1 # 2; 50]%Q.

(** An assignment with whole numbers of vehicles that meets every row
    and every bound: three vehicles are bought in 2023 and kept. *)
Definition demo_integral : list Q :=
  [3; 3; 2; 140; 1; 60;
   0; 0; 3; 0; 2; 150; 1; 50]%Q.

(** The claim on the range, with the tolerance [tol]: in every Use row
    decoded from an assignment that is feasible for the model, the distance
    per vehicle is at most the yearly range of the vintage of the batch,
    the class and the purchase year that its id names, plus the
    tolerance. *)
Definition range_respected (tol : Q) (data : Data) (xs : list Q) : Prop :=
  ∀ P R rows r v s y dpv,
    build_model data = Ok (P, R) → feasible xs (model R) →
    Forall (λ q, (0 <= q)%Q) xs →
    decode P R xs = Ok rows → r ∈ rows → r_type r = "Use" →
    read_batch_id (r_id r) = Ok (v, s, y) →
    r_distance_per_vehicle r = Some dpv →
    (dpv <= dict_get (vehicle_range P) (v, s, y) 0 + tol)%Q.

(** A computation on which the loops of the decoder are built never
    raises [e]. *)
Definition never {S A} (e : exn) (c : M S A) : Prop := ∀ s, c s ≠ Raise e.

(** [total c]: the computation returns, from every state. *)
Definition total {S} (c : M S unit) : Prop := ∀ s, ∃ s', c s = Ok (tt, s').

(** The indices of the count variables (Buy, Sell, Fleet, Use), which
    the decoder rounds, and of the Km variables, which it reads as they
    are. *)
Definition count_indices (R : Builder) : list nat :=
  (map_to_list (buy_vars R)).*2 ++ (map_to_list (sell_vars R)).*2 ++
  (map_to_list (fleet_vars R)).*2 ++ (map_to_list (use_vars R)).*2.

Definition km_indices (R : Builder) : list nat := (map_to_list (km_vars R)).*2.

(** Two assignments are the same rounded assignment when their count
    variables round to the same integers and their Km variables have the
    same values. *)
Definition same_rounded (R : Builder) (xs xs' : list Q) : Prop :=
  Forall (λ i, py_round <$> xs !! i = py_round <$> xs' !! i) (count_indices R) ∧
  Forall (λ i, xs !! i = xs' !! i) (km_indices R).

(** An assignment that rounds like [demo_relaxed]. *)
Definition demo_relaxed' : list Q :=
  [21 # 10; 9 # 5; 1; 140; 1; 60;
   1 # 4; 0; 2; 1 # 3; 2; 150; 1 # 2; 50]%Q.

(** The lines that a run prints before it decodes: the progress lines,
    the line of [solve] and the status line. *)
Definition run_log (m : OptimizationModel) (res : SolverResult) : list string :=
  ["Loading data..."; "Data loaded."; "Creating variables...";
   "Adding constraints...";
   "Solving with " +:+ pretty (length (var_names m)) +:+ " variables and "
     +:+ pretty (constraint_count m) +:+ " constraints...";
   "Solver Status: " +:+ py_bool (success res) +:+ ", Message: " +:+ message res].

(** The Use rows of a duty in a submission, and the vehicles that they
    carry. The class of a row is read off the head of its batch id. *)
Definition duty_rows (rows : list PlanRow) (t : Z) (v s d f : string)
    : list PlanRow :=
  filter (λ r, r_type r = "Use" ∧ r_year r = t ∧ r_distance_bucket r = d ∧
               r_fuel r = f ∧
               String.prefix (v +:+ "_" +:+ s +:+ "_") (r_id r) = true) rows.

Definition allocated (rows : list PlanRow) (t : Z) (v s d f : string) : Z :=
  vehicles_of (duty_rows rows t v s d f).

(** Some duty got fewer vehicles than its positive rounded Use count. *)
Definition shortfall (R : Builder) (xs : list Q) (rows : list PlanRow) : Prop :=
  ∃ t v s d f iu qu,
    use_vars R !! (t, v, s, d, f) = Some iu ∧ xs !! iu = Some qu ∧
    0 < py_round qu ∧ allocated rows t v s d f < py_round qu.

(** The claim on reconciliation warnings: a run whose submission has a
    shortfall tells the caller, by a printed line that is not one of the
    lines of every successful run. (An exception would be the other way
    to tell; the run at hand returns.) *)
Definition shortfall_reported (milp : OptimizationModel → SolverResult)
    (data : Data) : Prop :=
  ∀ P R o rows,
    build_model data = Ok (P, R) →
    solve_optimization milp data = Ok o →
    submission o = Some rows →
    shortfall R (res_x (milp (model R))) rows →
    ∃ line, line ∈ printed o ∧
            line ∉ run_log (model R) (milp (model R))
                     ++ ["Submission saved to submission.csv"].

(** The claim on infeasibility: when the solver reports a failure, the
    run ends in an error raised to the caller. *)
Definition failure_raises (milp : OptimizationModel → SolverResult)
    (data : Data) : Prop :=
  ∀ P R,
    build_model data = Ok (P, R) →
    success (milp (model R)) = false →
    ∃ e, solve_optimization milp data = Raise e.

(** A solver that finds the model infeasible. *)
Definition failing_solver (m : OptimizationModel) : SolverResult :=
  {| success := false; message := "The problem is infeasible."; res_x := [] |}.

(** An assignment of the relaxed model of the small instance that meets
    every row and every bound, with 2.1 vehicles bought in 2023 and the
    Use values 3/2 and 3/5 in 2023. *)
Definition demo_short : list Q :=
  [21 # 10; 21 # 10; 3 # 2; 140; 3 # 5; 60;
   0; 0; 21 # 10; 0; 3 # 2; 150; 1 # 2; 50]%Q.

(** A solver that returns it. *)
Definition short_solver (m : OptimizationModel) : SolverResult :=
  {| success := true; message := "Optimization terminated successfully.";
     res_x := demo_short |}.

(** ** More instances, and two claims as they are stated *)

(** The parameter maps of a data set whose ids are well formed (the empty
    maps otherwise), and the model built from it. *)
Definition params_of (data : Data) : Params :=
  match parameters data with
  | Ok P => P
  | Raise _ =>
      {| years := []; sizes := []; distances := []; vehicle_types := []; fuels := [];
         demand_dict := ∅; emission_targets := ∅; vehicle_cost := ∅;
         vehicle_range := ∅; fuel_cost := ∅; fuel_emissions := ∅; consumption := ∅;
         resale_profile := ∅; insurance_profile := ∅; maintenance_profile := ∅ |}
  end.

Definition model_of (data : Data) : Builder :=
  match build_model data with
  | Ok (_, b) => b
  | Raise _ => new_builder
  end.

(** The claim on the demand cells, as stated: for every cell of the
    demand table, the built model has the equality row of the cell. *)
Definition demand_covers_every_cell (data : Data) : Prop :=
  ∀ P R t s d dem,
    build_model data = Ok (P, R) →
    demand_dict P !! (t, s, d) = Some dem →
    eq_row (demand_terms P R t s d) dem ∈ rows (model R).

(** The small instance with a demand cell in 2025, a year for which
    there is no emission target. *)
Definition late_cell_data : Data := {|
  carbon_emissions := carbon_emissions demo_data;
  demand :=
    demand demo_data ++
    [ {| dm_year := 2025; dm_size := "S1"; dm_distance := "D1"; dm_demand := 77 |} ];
  vehicles := vehicles demo_data;
  fuels_table := fuels_table demo_data;
  vehicles_fuels := vehicles_fuels demo_data;
  cost_profiles := cost_profiles demo_data
|}.

(** Is [q] the lower bound of the row? *)
Definition has_bound (q : Q) (c : constraint) : bool :=
  match c_lb c with
  | Fin l => Qeq_bool l q
  | _ => false
  end.

(** The small instance with a yearly range of 100 for the models of 2023
    and of 200 for the models of 2024. *)
Definition growing_range_data : Data := {|
  carbon_emissions := carbon_emissions demo_data;
  demand := demand demo_data;
  vehicles :=
    [ {| vh_vehicle := "BEV"; vh_size := "S1"; vh_year := 2023; vh_cost := 500;
         vh_yearly_range := 100 |};
      {| vh_vehicle := "BEV"; vh_size := "S1"; vh_year := 2024; vh_cost := 450;
         vh_yearly_range := 200 |} ];
  fuels_table := fuels_table demo_data;
  vehicles_fuels := vehicles_fuels demo_data;
  cost_profiles := cost_profiles demo_data
|}.

(** An assignment of its model with whole numbers of vehicles, which
    meets every row and every bound: three vehicles are bought in 2023 and
    kept; in 2024 each duty has one vehicle. The variables are in the
    order of [demo_relaxed]. *)
Definition growing_range_integral : list Q :=
  [3; 3; 2; 140; 1; 60;
   0; 0; 3; 0; 1; 150; 1; 50]%Q.

(** ** Notions used in the further properties *)

(** The per-variable lists of a model are aligned when they have one
    length: position [i] of each list describes variable [i]. *)
Definition vars_aligned (m : OptimizationModel) : Prop :=
  length (var_types m) = length (var_names m) ∧
  length (lbs m) = length (var_names m) ∧
  length (ubs m) = length (var_names m) ∧
  length (obj_coeffs m) = length (var_names m).

(** What the model records of variable [i]. *)
Definition variable (m : OptimizationModel) (i : nat)
    : option (string * Z * bound * bound * Q) :=
  name ← var_names m !! i;
  ty ← var_types m !! i;
  lb ← lbs m !! i;
  ub ← ubs m !! i;
  obj ← obj_coeffs m !! i;
  Some (name, ty, lb, ub, obj).

(** Every variable of the model is continuous, with the bounds 0 and
    [np.inf]. *)
Definition relaxed (m : OptimizationModel) : Prop :=
  Forall (λ ty, ty = 0) (var_types m) ∧
  Forall (λ lb, lb = Fin 0) (lbs m) ∧
  Forall (λ ub, ub = PosInf) (ubs m).

(** The sum of the values of the variables of a list of indices. *)
Definition total_value (xs : list Q) (idxs : list nat) : Q :=
  foldr (λ i acc, (value xs i + acc)%Q) 0%Q idxs.

(** The Use variables of a class in a year, over all distances and fuels,
    and its Fleet variables, over all ages. *)
Definition use_indices (P : Params) (R : Builder) (t : Z) (v s : string) : list nat :=
  d ← distances P;
  f ← fuels P;
  option_list (use_vars R !! (t, v, s, d, f)).

Definition fleet_indices (R : Builder) (t : Z) (v s : string) : list nat :=
  age ← range 0 11;
  option_list (fleet_vars R !! (t, v, s, age)).

(** [only_raises e0 r]: when [r] is an exception, it is [e0]. *)
Definition only_raises {A} (e0 : exn) (r : result A) : Prop :=
  ∀ e, r = Raise e → e = e0.

(** The small instance with the target of 2025 in the place of that of
    2024: the horizon has a gap. *)
Definition gap_data : Data := {|
  carbon_emissions :=
    [ {| ce_year := 2023; ce_carbon_emission := 1000 |};
      {| ce_year := 2025; ce_carbon_emission := 900 |} ];
  demand := demand demo_data;
  vehicles := vehicles demo_data;
  fuels_table := fuels_table demo_data;
  vehicles_fuels := vehicles_fuels demo_data;
  cost_profiles := cost_profiles demo_data
|}.

(** The small instance without the demand of the cell (2024, S1, D2). *)
Definition sparse_data : Data := {|
  carbon_emissions := carbon_emissions demo_data;
  demand :=
    [ {| dm_year := 2023; dm_size := "S1"; dm_distance := "D1"; dm_demand := 140 |};
      {| dm_year := 2023; dm_size := "S1"; dm_distance := "D2"; dm_demand := 60 |};
      {| dm_year := 2024; dm_size := "S1"; dm_distance := "D1"; dm_demand := 150 |} ];
  vehicles := vehicles demo_data;
  fuels_table := fuels_table demo_data;
  vehicles_fuels := vehicles_fuels demo_data;
  cost_profiles := cost_profiles demo_data
|}.

(** No character of the string is [c]. *)
Fixpoint free_of (c : ascii) (s : string) : Prop :=
  match s with
  | EmptyString => True
  | String a s' => a ≠ c ∧ free_of c s'
  end.

(** Every character of the string is a decimal digit. *)
Fixpoint all_digits (s : string) : Prop :=
  match s with
  | EmptyString => True
  | String a s' => is_Some (digit_of a) ∧ all_digits s'
  end.

(** [appends c r]: the computation [c] appends the rows of [r] to the rows
    so far, or raises the exception of [r]. *)
Definition appends (c : M (list PlanRow) unit) (r : result (list PlanRow)) : Prop :=
  ∀ rows, c rows = rbind r (λ rs, Ok (tt, rows ++ rs)).

Section Trades.
Variable P : Params.
Variable R : Builder.
Variable xs : list Q.

(** The rows that [extract_sell], [extract_cell] and [extract_buy_sell]
    append. *)
Definition sell_rows (t : Z) (v s : string) (age : Z) : result (list PlanRow) :=
  match sell_vars R !! (t, v, s, age) with
  | Some idx =>
      rbind (get_count xs idx) (λ val,
      if bool_decide (0 < val) then Ok [sell_row t (vehicle_id v s (t - age)) val]
      else Ok [])
  | None => Ok []
  end.

Definition cell_rows (t : Z) (v s : string) : result (list PlanRow) :=
  rbind (getitem (buy_vars R) (t, v, s)) (λ idx,
  rbind (get_count xs idx) (λ val,
  rbind (if bool_decide (0 < val) then Ok [buy_row t (vehicle_id v s t) val] else Ok [])
    (λ bought,
  rbind (gather (range 1 11) (sell_rows t v s)) (λ sold,
  Ok (bought ++ sold))))).

Definition buy_sell_rows : result (list PlanRow) :=
  gather (years P) (λ t,
    gather (vehicle_types P) (λ v,
      gather (sizes P) (λ s,
        cell_rows t v s))).

End Trades.

(** A Buy row of the plan: the rounded value of the Buy variable of a
    year and class is positive; the batch id carries the year. *)
Definition is_buy_row (P : Params) (R : Builder) (xs : list Q) (r : PlanRow) : Prop :=
  ∃ t v s idx q,
    t ∈ years P ∧ v ∈ vehicle_types P ∧ s ∈ sizes P ∧
    buy_vars R !! (t, v, s) = Some idx ∧ xs !! idx = Some q ∧ 0 < py_round q ∧
    r = buy_row t (vehicle_id v s t) (py_round q).

(** A Sell row of the plan: the rounded value of the Sell variable of a
    year, class and age is positive; the batch id carries the purchase
    year. *)
Definition is_sell_row (P : Params) (R : Builder) (xs : list Q) (r : PlanRow) : Prop :=
  ∃ t v s age idx q,
    t ∈ years P ∧ v ∈ vehicle_types P ∧ s ∈ sizes P ∧ 1 ≤ age ≤ 10 ∧
    sell_vars R !! (t, v, s, age) = Some idx ∧ xs !! idx = Some q ∧ 0 < py_round q ∧
    r = sell_row t (vehicle_id v s (t - age)) (py_round q).

(** The rows of the purchases and sales stay in front; what the years
    append after them are Use rows. *)
Definition uses_after (rows0 rows : list PlanRow) : Prop :=
  ∃ us, rows = rows0 ++ us ∧ Forall (λ r, r_type r = "Use") us.

(** A solver that answers with the value 0 for each of [n] variables. *)
Definition idle_solver (n : nat) (m : OptimizationModel) : SolverResult :=
  {| success := true; message := "Optimization terminated successfully.";
     res_x := replicate n 0%Q |}.

(** The purchases and sales of the plan, as a list: for every year and
    class, in the order of the loops, the Buy row when the rounded value of
    the Buy variable is positive, then one Sell row for each age from 1 to
    10, in this order, whose Sell variable has a positive rounded value. *)
Definition buy_rows_of (R : Builder) (xs : list Q) (t : Z) (v s : string)
    : list PlanRow :=
  match buy_vars R !! (t, v, s) with
  | Some idx =>
      match xs !! idx with
      | Some q =>
          if bool_decide (0 < py_round q)
          then [buy_row t (vehicle_id v s t) (py_round q)] else []
      | None => []
      end
  | None => []
  end.

Definition sell_rows_of (R : Builder) (xs : list Q) (t : Z) (v s : string) (age : Z)
    : list PlanRow :=
  match sell_vars R !! (t, v, s, age) with
  | Some idx =>
      match xs !! idx with
      | Some q =>
          if bool_decide (0 < py_round q)
          then [sell_row t (vehicle_id v s (t - age)) (py_round q)] else []
      | None => []
      end
  | None => []
  end.

Definition trades (P : Params) (R : Builder) (xs : list Q) : list PlanRow :=
  t ← years P;
  v ← vehicle_types P;
  s ← sizes P;
  buy_rows_of R xs t v s ++ (age ← range 1 11; sell_rows_of R xs t v s age).

(** * Properties *)

(** ** The monad *)

Lemma rbind_ok {A B} (r : result A) (k : A → result B) (b : B) :
  rbind r k = Ok b ↔ ∃ a, r = Ok a ∧ k a = Ok b.
Proof.
  destruct r as [a|e]; simpl.
  - split; [eauto | intros (a' & [= ->] & ?); done].
  - split; [done | intros (a' & ? & ?); done].
Qed.

Lemma bind_ok {S A B} (c : M S A) (k : A → M S B) s b s'' :
  bind c k s = Ok (b, s'') ↔ ∃ a s', c s = Ok (a, s') ∧ k a s' = Ok (b, s'').
Proof.
  unfold bind. destruct (c s) as [[a s']|e].
  - split; [eauto | intros (a' & s1 & [= -> ->] & ?); done].
  - split; [done | intros (a' & s1 & ? & ?); done].
Qed.

(** Total correctness of a computation: from a state in [pre] it returns,
    in a state that [post] relates to the initial one. *)
Definition returns {S A} (pre : S → Prop) (c : M S A) (post : S → A → S → Prop)
    : Prop :=
  ∀ s, pre s → ∃ a s', c s = Ok (a, s') ∧ post s a s'.

(** The rule of [for] loops: [inv done s0 s] holds of the state [s] reached
    from [s0] once the items [done] have been processed. *)
Lemma for__returns {S A} (inv : list A → S → S → Prop) (l : list A)
    (body : A → M S unit) :
  (∀ s, inv [] s s) →
  (∀ done a rest s0 s, l = done ++ a :: rest → inv done s0 s →
     ∃ s', body a s = Ok (tt, s') ∧ inv (done ++ [a]) s0 s') →
  ∀ s0, ∃ s', for_ l body s0 = Ok (tt, s') ∧ inv l s0 s'.
Proof.
  intros Hnil Hstep s0.
  cut (∀ rest done s, l = done ++ rest → inv done s0 s →
         ∃ s', for_ rest body s = Ok (tt, s') ∧ inv l s0 s').
  { intros Hgen. apply (Hgen l [] s0); [done | apply Hnil]. }
  induction rest as [|a rest IH]; intros done s Hl Hinv.
  - rewrite app_nil_r in Hl. subst. by exists s.
  - destruct (Hstep done a rest s0 s Hl Hinv) as (s1 & Hb & Hinv1).
    destruct (IH (done ++ [a]) s1) as (s2 & Hf & Hinv2); [by rewrite <- app_assoc | done |].
    exists s2. split; [|done]. simpl. unfold bind. by rewrite Hb.
Qed.

(** Partial correctness: what holds of the final state when there is one. *)
Lemma for__preserves {S A} (inv : S → Prop) (l : list A) (body : A → M S unit) :
  (∀ a s s', a ∈ l → inv s → body a s = Ok (tt, s') → inv s') →
  ∀ s s', inv s → for_ l body s = Ok (tt, s') → inv s'.
Proof.
  induction l as [|a l IH]; intros Hstep s s' Hinv Hrun.
  - by injection Hrun as <-.
  - simpl in Hrun. apply bind_ok in Hrun as ([] & s1 & Hb & Hf).
    apply (IH (λ a' s2 s3 Ha', Hstep a' s2 s3 (list_elem_of_further _ _ _ Ha')) s1 s');
      [|done].
    eapply Hstep; [left | done | done].
Qed.

(** Two loops with bodies that agree on the items of the list agree. *)
Lemma for__ext {S A} (l : list A) (f g : A → M S unit) :
  (∀ a s, a ∈ l → f a s = g a s) → ∀ s, for_ l f s = for_ l g s.
Proof.
  induction l as [|a l IH]; intros Hfg s; [done|].
  simpl. unfold bind. rewrite Hfg by left.
  destruct (g a s) as [[[] s1]|e]; [|done].
  apply IH. intros a' s' Ha'. apply Hfg. by right.
Qed.

(** ** Gathered lists *)

Lemma gather_ok {A B} (l : list A) (f : A → result (list B)) :
  (∀ a, a ∈ l → is_ok (f a)) → is_ok (gather l f).
Proof.
  induction l as [|a l IH]; intros Hf; [done|].
  simpl. specialize (Hf a (list_elem_of_here _ _)) as Ha.
  destruct (f a) as [bs|e]; [|done]. simpl.
  specialize (IH (λ a' Ha', Hf a' (list_elem_of_further _ _ _ Ha'))).
  by destruct (gather l f).
Qed.

Lemma elem_of_gather {A B} (l : list A) (f : A → result (list B)) bs b :
  gather l f = Ok bs →
  b ∈ bs ↔ ∃ a bs', a ∈ l ∧ f a = Ok bs' ∧ b ∈ bs'.
Proof.
  revert bs. induction l as [|a l IH]; intros bs Hg.
  - injection Hg as <-. split; [by intros ?%elem_of_nil|].
    by intros (a & bs' & ?%elem_of_nil & _).
  - simpl in Hg. apply rbind_ok in Hg as (bs1 & Hfa & Hg).
    apply rbind_ok in Hg as (bs2 & Hg & [= <-]).
    rewrite elem_of_app, (IH _ Hg). split.
    + intros [Hb | (a' & bs' & Ha' & Hfa' & Hb)].
      * exists a, bs1. split_and!; [left | done | done].
      * exists a', bs'. split_and!; [by right | done | done].
    + intros (a' & bs' & Ha' & Hfa' & Hb).
      apply elem_of_cons in Ha' as [-> | Ha'].
      * left. rewrite Hfa in Hfa'. by injection Hfa' as <-.
      * right. eauto.
Qed.

Lemma gather_ok_inv {A B} (l : list A) (f : A → result (list B)) bs a :
  gather l f = Ok bs → a ∈ l → ∃ bs', f a = Ok bs'.
Proof.
  revert bs. induction l as [|a' l IH]; intros bs Hg Ha.
  - by apply elem_of_nil in Ha.
  - simpl in Hg. apply rbind_ok in Hg as (bs1 & Hfa & Hg).
    apply rbind_ok in Hg as (bs2 & Hg & _).
    apply elem_of_cons in Ha as [-> | Ha]; eauto.
Qed.

(** ** Rows of the sparse matrix *)

Lemma wf_new_model : wf_model new_model.
Proof. by split. Qed.

Lemma row_terms_eq m i :
  row_terms m i =
  omap (pick_row i)
    (zip (zip (constraints_rows m) (constraints_cols m)) (constraints_vals m)).
Proof. done. Qed.

Lemma pick_row_new (terms : list term) (n i : nat) :
  omap (pick_row i) (zip (zip (map (λ _, n) terms) (map snd terms)) (map fst terms))
  = if decide (n = i) then terms else [].
Proof.
  induction terms as [|[q c] terms IH]; [by destruct (decide _)|].
  cbn [map zip zip_with omap list_omap pick_row snd fst]. rewrite IH.
  by destruct (decide (n = i)).
Qed.

Lemma pick_row_old (rs cs : list nat) (vs : list Q) (n : nat) :
  Forall (λ r, (r < n)%nat) rs →
  omap (pick_row n) (zip (zip rs cs) vs) = [].
Proof.
  intros Hrs. revert cs vs.
  induction Hrs as [|r rs Hr _ IH]; intros cs vs; [done|].
  destruct cs as [|c cs]; [done|]. destruct vs as [|v vs]; [done|].
  cbn [zip zip_with omap list_omap pick_row]. rewrite IH.
  destruct (decide (r = n)); [lia | done].
Qed.

Lemma row_terms_add_constraint terms sense rhs m i :
  wf_model m →
  row_terms (add_constraint terms sense rhs m) i
  = row_terms m i ++ (if decide (constraint_count m = i) then terms else []).
Proof.
  intros [Hr Hc Hv _ _]. rewrite !row_terms_eq. cbn [add_constraint constraints_rows
    constraints_cols constraints_vals].
  rewrite !zip_with_app, omap_app, pick_row_new; [done | |by rewrite Hc].
  rewrite length_zip_with. lia.
Qed.

Lemma wf_add_constraint terms sense rhs m :
  valid_sense sense → wf_model m → wf_model (add_constraint terms sense rhs m).
Proof.
  intros Hs [Hr Hc Hv Hl Hu]. split; cbn [add_constraint constraints_rows
    constraints_cols constraints_vals constraints_lbs constraints_ubs constraint_count].
  - apply Forall_app. split.
    + eapply Forall_impl; [done|]. cbn. intros; lia.
    + apply Forall_forall. intros r (y & -> & _)%list_elem_of_fmap. cbn. lia.
  - by rewrite !length_app, !length_map, Hc.
  - by rewrite !length_app, !length_map, Hv.
  - rewrite length_app, Hl. destruct Hs as [-> | [-> | ->]]; cbn; lia.
  - rewrite length_app, Hu. destruct Hs as [-> | [-> | ->]]; cbn; lia.
Qed.

Lemma row_add_constraint_old terms sense rhs m i :
  wf_model m → (i < constraint_count m)%nat →
  row (add_constraint terms sense rhs m) i = row m i.
Proof.
  intros Hwf Hi. unfold row. rewrite row_terms_add_constraint by done.
  destruct (decide (constraint_count m = i)); [lia|]. rewrite app_nil_r.
  cbn [add_constraint constraints_lbs constraints_ubs].
  destruct Hwf as [_ _ _ Hl Hu].
  by rewrite !lookup_app_l by lia.
Qed.

Lemma row_add_constraint_new terms sense rhs m :
  valid_sense sense → wf_model m →
  row (add_constraint terms sense rhs m) (constraint_count m)
  = Some (row_of terms sense rhs).
Proof.
  intros Hs Hwf. unfold row. rewrite row_terms_add_constraint by done.
  rewrite decide_True by done.
  rewrite row_terms_eq, pick_row_old by apply Hwf.
  cbn [add_constraint constraints_lbs constraints_ubs].
  destruct Hwf as [_ _ _ Hl Hu].
  rewrite !lookup_app_r by lia. rewrite Hl, Hu, Nat.sub_diag.
  by destruct Hs as [-> | [-> | ->]].
Qed.

Lemma rows_add_constraint terms sense rhs m :
  valid_sense sense → wf_model m →
  rows (add_constraint terms sense rhs m) = rows m ++ [row_of terms sense rhs].
Proof.
  intros Hs Hwf. unfold rows.
  change (constraint_count (add_constraint terms sense rhs m))
    with (S (constraint_count m)).
  rewrite seq_S, omap_app. f_equal.
  - apply list_omap_ext. apply Forall2_same_length_lookup_2; [done|].
    intros i a b Ha Hb. rewrite Ha in Hb. injection Hb as <-.
    apply lookup_seq in Ha as [-> Hlt].
    by apply row_add_constraint_old.
  - cbn [omap list_omap]. by rewrite row_add_constraint_new.
Qed.

Lemma omap_seq_lookup {A} (f : nat → option A) (n k i : nat) :
  (∀ j, (k ≤ j < k + n)%nat → is_Some (f j)) →
  omap f (seq k n) !! i = if decide (i < n)%nat then f (k + i)%nat else None.
Proof.
  revert k i. induction n as [|n IH]; intros k i Hf; [done|].
  cbn [seq omap list_omap]. destruct (Hf k) as [a Ha]; [lia|]. rewrite Ha.
  destruct i as [|i]; cbn.
  - by rewrite Nat.add_0_r.
  - rewrite IH by (intros j Hj; apply Hf; lia).
    replace (k + S i)%nat with (S k + i)%nat by lia.
    destruct (decide (i < n)%nat), (decide (S i < S n)%nat); done || lia.
Qed.

Lemma row_is_Some m i :
  wf_model m → (i < constraint_count m)%nat → is_Some (row m i).
Proof.
  intros [_ _ _ Hl Hu] Hi. unfold row.
  destruct (lookup_lt_is_Some_2 (constraints_lbs m) i) as [lb ->]; [lia|].
  destruct (lookup_lt_is_Some_2 (constraints_ubs m) i) as [ub ->]; [lia|].
  by eexists.
Qed.

Lemma rows_lookup m i c :
  wf_model m → rows m !! i = Some c ↔ row m i = Some c.
Proof.
  intros Hwf. unfold rows.
  rewrite omap_seq_lookup by (intros j Hj; apply row_is_Some; [done | lia]).
  destruct (decide (i < constraint_count m)%nat) as [Hi | Hi]; [done|].
  split; [done|]. unfold row. intros Hrow.
  destruct (constraints_lbs m !! i) eqn:Hlb; [|done].
  apply lookup_lt_Some in Hlb. destruct Hwf. lia.
Qed.

(** ** The registries after [create_variables] *)

Lemma registers_ret : registers (ret tt) (λ _, False).
Proof. intros b. exists b. split; [done|]. tauto. Qed.

Lemma registers_seq c1 c2 D1 D2 :
  registers c1 D1 → registers c2 D2 →
  registers (c1 ;; c2) (λ key, D1 key ∨ D2 key).
Proof.
  intros H1 H2 b. destruct (H1 b) as (b1 & Hc1 & Hd1).
  destruct (H2 b1) as (b2 & Hc2 & Hd2). exists b2. split.
  - unfold bind. by rewrite Hc1.
  - intros key. rewrite Hd2, Hd1. tauto.
Qed.

Lemma registers_iff c D D' :
  (∀ key, D key ↔ D' key) → registers c D → registers c D'.
Proof.
  intros HD Hc b. destruct (Hc b) as (b' & ? & Hd). exists b'. split; [done|].
  intros key. by rewrite Hd, HD.
Qed.

Lemma registers_when (c : bool) body D :
  (c = true → registers body D) →
  registers (when c body) (λ key, c = true ∧ D key).
Proof.
  intros Hb. destruct c; cbn.
  - eapply registers_iff; [|by apply Hb]. tauto.
  - eapply registers_iff; [|apply registers_ret]. intros key. cbn. split; [done|].
    by intros [? _].
Qed.

Lemma registers_for {A} (l : list A) body (D : A → reg_key → Prop) :
  (∀ a, a ∈ l → registers (body a) (D a)) →
  registers (for_ l body) (λ key, ∃ a, a ∈ l ∧ D a key).
Proof.
  induction l as [|a l IH]; intros Hb.
  - eapply registers_iff; [|apply registers_ret]. intros key. split; [done|].
    by intros (a & ?%elem_of_nil & _).
  - eapply registers_iff; [|apply registers_seq; [apply Hb; left | apply IH]].
    + intros key. cbn. split.
      * intros [? | (a' & ? & ?)]; [exists a | exists a']; split; by (left || right || idtac).
      * intros (a' & [-> | ?]%elem_of_cons & ?); [by left | right; eauto].
    + intros a' Ha'. apply Hb. by right.
Qed.

Lemma registers_buy n o k :
  registers (i <- new_variable n o ;; set_buy k i) (λ key, key = KBuy k).
Proof.
  intros b. eexists. split; [reflexivity|].
  intros [k'| | | |]; cbn; try (split; [by left | by intros [? | ?]]).
  rewrite lookup_insert_is_Some. destruct (decide (k = k')) as [-> | ?]; [by intuition|].
  split; [intros [? | [_ ?]]; by (done || left) | intros [? | [= ?]]; by (right || done)].
Qed.

Lemma registers_sell n o k :
  registers (i <- new_variable n o ;; set_sell k i) (λ key, key = KSell k).
Proof.
  intros b. eexists. split; [reflexivity|].
  intros [|k'| | |]; cbn; try (split; [by left | by intros [? | ?]]).
  rewrite lookup_insert_is_Some. destruct (decide (k = k')) as [-> | ?]; [by intuition|].
  split; [intros [? | [_ ?]]; by (done || left) | intros [? | [= ?]]; by (right || done)].
Qed.

Lemma registers_fleet n o k :
  registers (i <- new_variable n o ;; set_fleet k i) (λ key, key = KFleet k).
Proof.
  intros b. eexists. split; [reflexivity|].
  intros [| | | |k']; cbn; try (split; [by left | by intros [? | ?]]).
  rewrite lookup_insert_is_Some. destruct (decide (k = k')) as [-> | ?]; [by intuition|].
  split; [intros [? | [_ ?]]; by (done || left) | intros [? | [= ?]]; by (right || done)].
Qed.

Lemma registers_use n o k :
  registers (i <- new_variable n o ;; set_use k i) (λ key, key = KUse k).
Proof.
  intros b. eexists. split; [reflexivity|].
  intros [| |k'| |]; cbn; try (split; [by left | by intros [? | ?]]).
  rewrite lookup_insert_is_Some. destruct (decide (k = k')) as [-> | ?]; [by intuition|].
  split; [intros [? | [_ ?]]; by (done || left) | intros [? | [= ?]]; by (right || done)].
Qed.

Lemma registers_km n o k :
  registers (i <- new_variable n o ;; set_km k i) (λ key, key = KKm k).
Proof.
  intros b. eexists. split; [reflexivity|].
  intros [| | |k'|]; cbn; try (split; [by left | by intros [? | ?]]).
  rewrite lookup_insert_is_Some. destruct (decide (k = k')) as [-> | ?]; [by intuition|].
  split; [intros [? | [_ ?]]; by (done || left) | intros [? | [= ?]]; by (right || done)].
Qed.

Lemma contains_true `{Countable K} {V} (d : gmap K V) (k : K) :
  contains d k = true ↔ is_Some (d !! k).
Proof. unfold contains. by rewrite bool_decide_eq_true. Qed.

Lemma bind_assoc {S A B C} (c : M S A) (k : A → M S B) (h : B → M S C) s :
  bind (bind c k) h s = bind c (λ a, bind (k a) h) s.
Proof. unfold bind. by destruct (c s) as [[a s']|e]. Qed.

Lemma registers_use_km P t v s d f :
  registers (create_use_km P t v s d f)
    (λ key, is_Some (consumption P !! (v, s, t, f)) ∧
            (key = KUse (t, v, s, d, f) ∨ key = KKm (t, v, s, d, f))).
Proof.
  unfold create_use_km.
  eapply registers_iff; cycle 1.
  - apply registers_when. intros [cons Hcons]%contains_true.
    pose proof (registers_seq _ _ _ _
      (registers_use (use_name t v s d f) 0%Q (t, v, s, d, f))
      (registers_km (km_name t v s d f) (cost_per_km P t f cons) (t, v, s, d, f))) as Hr.
    intros b. destruct (Hr b) as (b' & Hrun & Hdom). exists b'. split; [|exact Hdom].
    rewrite <- Hrun. unfold bind, lift, getitem. cbn. by rewrite Hcons.
  - intros key. cbn beta. by rewrite contains_true.
Qed.

(** The keys registered for one year and class. *)
Lemma registers_cell P t v s :
  registers (create_cell P t v s)
    (λ key, key = KBuy (t, v, s) ∨
            (∃ age, age ∈ range 0 11 ∧
               bool_decide (base_year ≤ t - age) = true ∧ key = KFleet (t, v, s, age)) ∨
            (∃ age, age ∈ range 1 11 ∧
               bool_decide (base_year ≤ t - age) = true ∧ key = KSell (t, v, s, age)) ∨
            (∃ d, d ∈ distances P ∧ ∃ f, f ∈ fuels P ∧
               is_Some (consumption P !! (v, s, t, f)) ∧
               (key = KUse (t, v, s, d, f) ∨ key = KKm (t, v, s, d, f)))).
Proof.
  pose proof (registers_seq _ _ _ _
    (registers_buy (buy_name t v s) (dict_get (vehicle_cost P) (v, s, t) 0%Q) (t, v, s))
    (registers_seq _ _ _ _
      (registers_for (range 0 11) _ _ (λ age _,
         registers_when (bool_decide (base_year ≤ t - age)) _ _ (λ _,
           registers_fleet (fleet_name t v s age) (holding_cost P t v s age) (t, v, s, age))))
      (registers_seq _ _ _ _
        (registers_for (range 1 11) _ _ (λ age _,
           registers_when (bool_decide (base_year ≤ t - age)) _ _ (λ _,
             registers_sell (sell_name t v s age) (resale_value P t v s age) (t, v, s, age))))
        (registers_for (distances P) _ _ (λ d _,
           registers_for (fuels P) _ _ (λ f _, registers_use_km P t v s d f)))))) as Hr.
  intros b. destruct (Hr b) as (b' & Hrun & Hdom). exists b'. split; [|exact Hdom].
  rewrite <- Hrun. unfold create_cell. by rewrite bind_assoc.
Qed.

Lemma reg_lookup_new key : reg_lookup new_builder key = None.
Proof. by destruct key. Qed.

Lemma elem_of_range (a b k : Z) : k ∈ range a b ↔ a ≤ k < b.
Proof. unfold range. rewrite elem_of_seqZ. lia. Qed.

(** The registries after the creation of the variables hold exactly the
    declared keys. *)
Lemma create_variables_declared P :
  ∃ b, create_variables P new_builder = Ok (tt, b) ∧
       ∀ key, is_Some (reg_lookup b key) ↔ declared P key.
Proof.
  pose proof (registers_for (years P) _ _ (λ t _,
    registers_for (vehicle_types P) _ _ (λ v _,
      registers_for (sizes P) _ _ (λ s _, registers_cell P t v s)))) as Hr.
  destruct (Hr new_builder) as (b & Hrun & Hdom). exists b. split; [done|].
  intros key. rewrite Hdom, reg_lookup_new. clear Hdom Hrun Hr. split.
  - intros [[]%is_Some_None | (t & Ht & v & Hv & s & Hs & H)].
    destruct H as [-> | [(age & Ha & Hb & ->) | [(age & Ha & Hb & ->) | H]]].
    + done.
    + apply elem_of_range in Ha. apply bool_decide_eq_true in Hb. cbn. split_and!; done || lia.
    + apply elem_of_range in Ha. apply bool_decide_eq_true in Hb. cbn. split_and!; done || lia.
    + destruct H as (d & Hd & f & Hf & Hc & [-> | ->]); done.
  - intros Hdecl. right.
    destruct key as [[[t v] s] | [[[t v] s] age] | [[[[t v] s] d] f]
                    | [[[[t v] s] d] f] | [[[t v] s] age]]; cbn in Hdecl.
    + destruct Hdecl as (? & ? & ?).
      exists t. split; [done|]. exists v. split; [done|]. exists s. split; [done|].
      by left.
    + destruct Hdecl as (? & ? & ? & ? & ?).
      exists t. split; [done|]. exists v. split; [done|]. exists s. split; [done|].
      right. right. left. exists age.
      rewrite elem_of_range, bool_decide_eq_true. split_and!; done || lia.
    + destruct Hdecl as (? & ? & ? & ? & ? & ?).
      exists t. split; [done|]. exists v. split; [done|]. exists s. split; [done|].
      right. right. right. exists d. split; [done|]. exists f. split; [done|].
      split; [done | by left].
    + destruct Hdecl as (? & ? & ? & ? & ? & ?).
      exists t. split; [done|]. exists v. split; [done|]. exists s. split; [done|].
      right. right. right. exists d. split; [done|]. exists f. split; [done|].
      split; [done | by right].
    + destruct Hdecl as (? & ? & ? & ? & ?).
      exists t. split; [done|]. exists v. split; [done|]. exists s. split; [done|].
      right. left. exists age.
      rewrite elem_of_range, bool_decide_eq_true. split_and!; done || lia.
Qed.

(** ** Invariants of the builder *)

Lemma preserves_ret {S} (inv : S → Prop) : preserves inv (ret tt).
Proof. intros s s' Hs [= <-]. done. Qed.

Lemma preserves_seq {S} (inv : S → Prop) (c1 c2 : M S unit) :
  preserves inv c1 → preserves inv c2 → preserves inv (c1 ;; c2).
Proof.
  intros H1 H2 s s' Hs ([] & s1 & Hc1 & Hc2)%bind_ok. eauto.
Qed.

Lemma preserves_when {S} (inv : S → Prop) (c : bool) (body : M S unit) :
  (c = true → preserves inv body) → preserves inv (when c body).
Proof. destruct c; cbn; [auto | intros _; apply preserves_ret]. Qed.

Lemma preserves_for {S A} (inv : S → Prop) (l : list A) (body : A → M S unit) :
  (∀ a, a ∈ l → preserves inv (body a)) → preserves inv (for_ l body).
Proof.
  intros Hb s s' Hs Hrun. eapply for__preserves; [|exact Hs|exact Hrun].
  intros a s1 s2 Ha Hs1 Hrun1. by eapply Hb.
Qed.

Lemma preserves_ext {S} (inv : S → Prop) (c c' : M S unit) :
  (∀ s, c s = c' s) → preserves inv c → preserves inv c'.
Proof. intros Heq Hc s s' Hs Hrun. rewrite <- Heq in Hrun. eauto. Qed.

Lemma reg_lookup_set_reg key idx b b' key' :
  set_reg key idx b = Ok (tt, b') →
  reg_lookup b' key' = if decide (key = key') then Some idx else reg_lookup b key'.
Proof.
  destruct key; intros [= <-]; destruct key'; cbn;
    try (rewrite decide_False by done; done);
    rewrite lookup_insert; repeat case_decide; congruence.
Qed.

Lemma model_set_reg key idx b b' :
  set_reg key idx b = Ok (tt, b') → model b' = model b.
Proof. by destruct key; intros [= <-]. Qed.

(** A variable created with the name and the coefficient of its key, then
    registered under this key. *)
Lemma preserves_new_variable P key n o :
  n = name_of key → o = obj_of P key →
  preserves (builder_inv P) (i <- new_variable n o ;; set_reg key i).
Proof.
  intros -> -> b b' [Ht Hl Hu Ho Hvar Hinj Hrows] Hrun.
  apply bind_ok in Hrun as (i & b1 & Hnew & Hset).
  unfold new_variable in Hnew. cbn in Hnew. injection Hnew as <- <-.
  pose proof (model_set_reg _ _ _ _ Hset) as Hm. cbn in Hm.
  assert (∀ key', reg_lookup b' key' =
            if decide (key = key') then Some (length (var_names (model b)))
            else reg_lookup b key') as Hlook.
  { intros key'. rewrite (reg_lookup_set_reg _ _ _ _ key' Hset). by destruct key'. }
  clear Hset.
  assert (∀ key' idx, reg_lookup b key' = Some idx →
            (idx < length (var_names (model b)))%nat) as Hbound.
  { intros key' idx Hk. apply Hvar in Hk as [Hk _]. by apply lookup_lt_Some in Hk. }
  split; rewrite ?Hm; cbn.
  - rewrite !length_app. cbn. lia.
  - rewrite !length_app. cbn. lia.
  - rewrite !length_app. cbn. lia.
  - rewrite !length_app. cbn. lia.
  - intros key' idx. rewrite Hlook. case_decide as Hk.
    + intros [= <-]. subst key'.
      split_and!; by apply list_lookup_middle.
    + intros Hidx. pose proof (Hbound _ _ Hidx) as Hlt.
      apply Hvar in Hidx as (? & ? & ? & ? & ?).
      rewrite !lookup_app_l by lia. done.
  - intros key1 key2 idx. rewrite !Hlook.
    repeat case_decide; subst.
    + done.
    + intros [= <-] ?%Hbound. cbn in *. lia.
    + intros ?%Hbound [= <-]. cbn in *. lia.
    + apply Hinj.
  - by destruct Hrows as (? & ? & ? & ? & ? & ?).
Qed.

Lemma preserves_use_km P t v s d f :
  preserves (builder_inv P) (create_use_km P t v s d f).
Proof.
  unfold create_use_km. apply preserves_when. intros [cons Hcons]%contains_true.
  eapply preserves_ext; [|apply preserves_seq;
    [apply (preserves_new_variable P (KUse (t, v, s, d, f))); reflexivity
    |apply (preserves_new_variable P (KKm (t, v, s, d, f)) (km_name t v s d f)
              (cost_per_km P t f cons)); [reflexivity|]]].
  - intros b. unfold bind, lift, getitem. cbn. by rewrite Hcons.
  - cbn. unfold dict_get. by rewrite Hcons.
Qed.

Lemma preserves_cell P t v s : preserves (builder_inv P) (create_cell P t v s).
Proof.
  unfold create_cell.
  eapply preserves_ext; [|apply preserves_seq;
    [apply (preserves_new_variable P (KBuy (t, v, s))); reflexivity|]].
  { intros b. by rewrite bind_assoc. }
  apply preserves_seq.
  { apply preserves_for. intros age _. apply preserves_when. intros _.
    apply (preserves_new_variable P (KFleet (t, v, s, age))); reflexivity. }
  apply preserves_seq.
  { apply preserves_for. intros age _. apply preserves_when. intros _.
    apply (preserves_new_variable P (KSell (t, v, s, age))); reflexivity. }
  apply preserves_for. intros d _. apply preserves_for. intros f _.
  apply preserves_use_km.
Qed.

Lemma builder_inv_new P : builder_inv P new_builder.
Proof.
  split; try done.
  - intros key idx. by rewrite reg_lookup_new.
  - intros key1 key2 idx. by rewrite reg_lookup_new.
Qed.

Lemma create_variables_inv P b :
  create_variables P new_builder = Ok (tt, b) → builder_inv P b.
Proof.
  intros Hrun. eapply (preserves_for (builder_inv P)); [|apply builder_inv_new|exact Hrun].
  intros t _. apply preserves_for. intros v _. apply preserves_for. intros s _.
  apply preserves_cell.
Qed.

(** ** The rows added by the constraint generator *)

Lemma generates_ret : generates (ret tt) (Ok []).
Proof. intros m Hm. exists m. by rewrite app_nil_r. Qed.

Lemma generates_ext c c' r :
  (∀ m, c m = c' m) → generates c r → generates c' r.
Proof.
  intros Heq Hc m Hm. specialize (Hc m Hm). rewrite <- Heq. exact Hc.
Qed.

Lemma generates_seq c1 c2 r1 r2 :
  generates c1 r1 → generates c2 r2 → generates (c1 ;; c2) (seq_rows r1 r2).
Proof.
  intros H1 H2 m Hm. specialize (H1 m Hm). unfold bind.
  destruct r1 as [t1|e1]; cbn.
  - destruct H1 as (m1 & -> & Hrows1 & Hwf1 & Hv1). specialize (H2 m1 Hwf1).
    destruct r2 as [t2|e2]; cbn.
    + destruct H2 as (m2 & -> & Hrows2 & Hwf2 & Hv2). exists m2.
      split_and!; [done | by rewrite Hrows2, Hrows1, app_assoc | done | congruence].
    + done.
  - by rewrite H1.
Qed.

Lemma generates_lift {A} (r : result A) (k : A → M OptimizationModel unit) g :
  (∀ a, r = Ok a → generates (k a) (g a)) →
  generates (a <- lift r ;; k a) (rbind r g).
Proof.
  intros Hk m Hm. unfold bind, lift. destruct r as [a|e]; cbn; [|done].
  by apply Hk.
Qed.

Lemma generates_when (c : bool) body r :
  (c = true → generates body r) →
  generates (when c body) (if c then r else Ok []).
Proof. destruct c; cbn; [auto | intros _; apply generates_ret]. Qed.

Lemma generates_for {A} (l : list A) body (f : A → result (list constraint)) :
  (∀ a, a ∈ l → generates (body a) (f a)) →
  generates (for_ l body) (gather l f).
Proof.
  induction l as [|a l IH]; intros Hb; [apply generates_ret|].
  cbn [for_ gather]. apply generates_seq; [apply Hb; left|].
  apply IH. intros a' Ha'. apply Hb. by right.
Qed.

Lemma row_of_eq terms rhs : row_of terms "==" rhs = eq_row terms rhs.
Proof. done. Qed.

Lemma row_of_le terms rhs : row_of terms "<=" rhs = le_row terms rhs.
Proof. done. Qed.

Lemma generates_emit terms sense rhs :
  valid_sense sense → generates (emit terms sense rhs) (Ok [row_of terms sense rhs]).
Proof.
  intros Hs m Hm. eexists. split; [reflexivity|].
  split_and!; [by apply rows_add_constraint | by apply wf_add_constraint | done].
Qed.

Lemma generates_emit_eq terms rhs :
  generates (emit terms "==" rhs) (Ok [eq_row terms rhs]).
Proof. apply (generates_emit terms "==" rhs). by left. Qed.

Lemma generates_emit_le terms rhs :
  generates (emit terms "<=" rhs) (Ok [le_row terms rhs]).
Proof. apply (generates_emit terms "<=" rhs). right. by left. Qed.

Lemma bind_pure_if {S A B} (c : bool) (r : result A) (f : A → B) (z : B)
    (k : B → M S unit) (m : S) :
  bind (if c then y <- lift r ;; ret (f y) else ret z) k m
  = bind (lift (if c then rbind r (λ y, Ok (f y)) else Ok z)) k m.
Proof. unfold bind, lift, ret. by destruct c, r. Qed.

Section RowsLemmas.
Variable P : Params.
Variable R : Builder.

Lemma generates_fleet_aging t v s age :
  generates (fleet_aging R t v s age) (fleet_aging_rows R t v s age).
Proof.
  unfold fleet_aging, fleet_aging_rows. apply generates_when. intros _.
  apply generates_lift. intros fa _. apply generates_lift. intros sa _.
  eapply generates_ext; [intros m; symmetry; apply bind_pure_if|].
  apply generates_lift.
  intros terms _. apply generates_seq; [apply generates_emit_eq|].
  apply generates_when. intros _.
  apply generates_lift. intros sa' _. apply generates_lift. intros fp' _.
  apply generates_emit_le.
Qed.

Lemma generates_fleet_dynamics :
  generates (fleet_dynamics P R) (fleet_dynamics_rows P R).
Proof.
  apply generates_for. intros t _. apply generates_for. intros v _.
  apply generates_for. intros s _.
  apply generates_lift. intros f0 _. apply generates_lift. intros b0 _.
  apply generates_seq; [apply generates_emit_eq|].
  apply generates_for. intros age _. apply generates_fleet_aging.
Qed.

Lemma generates_link_km_use t s d v f :
  generates (link_km_use P R t s d v f) (link_km_use_rows P R t s d v f).
Proof.
  unfold link_km_use, link_km_use_rows.
  destruct (km_vars R !! (t, v, s, d, f)) as [ik|]; [|apply generates_ret].
  apply generates_lift. intros iu _. apply generates_emit_le.
Qed.

Lemma generates_demand_satisfaction :
  generates (demand_satisfaction P R) (demand_satisfaction_rows P R).
Proof.
  apply generates_for. intros t _. apply generates_for. intros s _.
  apply generates_for. intros d _.
  apply generates_lift. intros dem _.
  apply generates_seq; [apply generates_emit_eq|].
  apply generates_for. intros v _. apply generates_for. intros f _.
  apply generates_link_km_use.
Qed.

Lemma generates_usage_limit :
  generates (usage_limit P R) (usage_limit_rows P R).
Proof.
  apply generates_for. intros t _. apply generates_for. intros v _.
  apply generates_for. intros s _. apply generates_emit_le.
Qed.

Lemma generates_emission_caps :
  generates (emission_caps P R) (emission_caps_rows P R).
Proof.
  apply generates_for. intros t _.
  apply generates_lift. intros terms _. apply generates_lift. intros cap _.
  apply generates_emit_le.
Qed.

Lemma generates_add_constraints :
  generates (add_constraints P R) (add_constraints_rows P R).
Proof.
  repeat apply generates_seq.
  - apply generates_fleet_dynamics.
  - apply generates_demand_satisfaction.
  - apply generates_usage_limit.
  - apply generates_emission_caps.
Qed.

End RowsLemmas.

(** ** The rows of the fleet dynamics *)

Lemma getitem_Some `{Countable K} {V} (d : gmap K V) (k : K) (v : V) :
  d !! k = Some v → getitem d k = Ok v.
Proof. unfold getitem. by intros ->. Qed.

Section FleetRows.
Variable P : Params.
Variable R : Builder.
Hypothesis Hreg : registries_of P R.
Hypothesis Hhorizon : contiguous_horizon P.

Lemma horizon_prev t :
  t ∈ years P → base_year < t → t - 1 ∈ years P.
Proof.
  destruct Hhorizon as [n ->]. rewrite !elem_of_seqZ. lia.
Qed.

Lemma horizon_base t : t ∈ years P → base_year ≤ t.
Proof. destruct Hhorizon as [n ->]. rewrite !elem_of_seqZ. lia. Qed.

Lemma fleet_declared t v s age :
  t ∈ years P → v ∈ vehicle_types P → s ∈ sizes P →
  0 ≤ age ≤ 10 → base_year ≤ t - age →
  ∃ i, fleet_vars R !! (t, v, s, age) = Some i.
Proof.
  intros. apply (Hreg (KFleet (t, v, s, age))). cbn. done.
Qed.

Lemma sell_declared t v s age :
  t ∈ years P → v ∈ vehicle_types P → s ∈ sizes P →
  1 ≤ age ≤ 10 → base_year ≤ t - age →
  ∃ i, sell_vars R !! (t, v, s, age) = Some i.
Proof.
  intros. apply (Hreg (KSell (t, v, s, age))). cbn. done.
Qed.

Lemma buy_declared t v s :
  t ∈ years P → v ∈ vehicle_types P → s ∈ sizes P →
  ∃ i, buy_vars R !! (t, v, s) = Some i.
Proof.
  intros. apply (Hreg (KBuy (t, v, s))). cbn. done.
Qed.

(** The two rows of an age whose purchase year is in the horizon. *)
Lemma fleet_aging_rows_in t v s age :
  t ∈ years P → v ∈ vehicle_types P → s ∈ sizes P →
  1 ≤ age ≤ 10 → base_year ≤ t - age →
  ∃ fa sa fp,
    fleet_vars R !! (t, v, s, age) = Some fa ∧
    sell_vars R !! (t, v, s, age) = Some sa ∧
    fleet_vars R !! (t - 1, v, s, age - 1) = Some fp ∧
    fleet_aging_rows R t v s age =
      Ok [eq_row [(1%Q, fa); (1%Q, sa); ((-1)%Q, fp)] 0%Q;
          le_row [(1%Q, sa); ((-1)%Q, fp)] 0%Q].
Proof.
  intros Ht Hv Hs Hage Hbase.
  destruct (fleet_declared t v s age) as [fa Hfa]; [done.. | lia | done |].
  destruct (sell_declared t v s age) as [sa Hsa]; [done..|].
  destruct (fleet_declared (t - 1) v s (age - 1)) as [fp Hfp];
    [apply horizon_prev; [done | lia] | done | done | lia | lia |].
  exists fa, sa, fp. split_and!; [done..|].
  unfold fleet_aging_rows.
  rewrite bool_decide_eq_true_2 by done.
  rewrite (bool_decide_eq_true_2 (base_year < t)) by lia.
  by rewrite (getitem_Some _ _ _ Hfa), (getitem_Some _ _ _ Hsa), (getitem_Some _ _ _ Hfp).
Qed.

Lemma fleet_aging_rows_out t v s age :
  ¬ base_year ≤ t - age → fleet_aging_rows R t v s age = Ok [].
Proof. intros. unfold fleet_aging_rows. by rewrite bool_decide_eq_false_2. Qed.

Lemma fleet_aging_rows_ok t v s age :
  t ∈ years P → v ∈ vehicle_types P → s ∈ sizes P → age ∈ range 1 11 →
  is_ok (fleet_aging_rows R t v s age).
Proof.
  intros Ht Hv Hs Hage%elem_of_range.
  destruct (decide (base_year ≤ t - age)) as [Hb | Hb].
  - destruct (fleet_aging_rows_in t v s age) as (? & ? & ? & _ & _ & _ & ->);
      done || lia.
  - by rewrite fleet_aging_rows_out.
Qed.

(** The rows of one year and class. *)
Lemma fleet_cell_rows_in t v s :
  t ∈ years P → v ∈ vehicle_types P → s ∈ sizes P →
  ∃ f0 b0 tr,
    fleet_vars R !! (t, v, s, 0) = Some f0 ∧
    buy_vars R !! (t, v, s) = Some b0 ∧
    fleet_cell_rows R t v s = Ok (eq_row [(1%Q, f0); ((-1)%Q, b0)] 0%Q :: tr) ∧
    gather (range 1 11) (fleet_aging_rows R t v s) = Ok tr.
Proof.
  intros Ht Hv Hs.
  destruct (fleet_declared t v s 0) as [f0 Hf0];
    [done.. | lia | pose proof (horizon_base t Ht); lia |].
  destruct (buy_declared t v s) as [b0 Hb0]; [done..|].
  pose proof (gather_ok (range 1 11) (fleet_aging_rows R t v s)
    (λ age Hage, fleet_aging_rows_ok t v s age Ht Hv Hs Hage)) as Hok.
  destruct (gather (range 1 11) (fleet_aging_rows R t v s)) as [tr|e] eqn:Htr; [|done].
  exists f0, b0, tr. split_and!; [done.. | | done].
  unfold fleet_cell_rows.
  rewrite (getitem_Some _ _ _ Hf0), (getitem_Some _ _ _ Hb0). cbn. by rewrite Htr.
Qed.

Lemma fleet_dynamics_rows_ok : is_ok (fleet_dynamics_rows P R).
Proof.
  apply gather_ok. intros t Ht. apply gather_ok. intros v Hv.
  apply gather_ok. intros s Hs.
  by destruct (fleet_cell_rows_in t v s) as (? & ? & ? & _ & _ & -> & _).
Qed.

Lemma fleet_cell_rows_sub t v s tr trs c :
  t ∈ years P → v ∈ vehicle_types P → s ∈ sizes P →
  fleet_dynamics_rows P R = Ok trs → fleet_cell_rows R t v s = Ok tr →
  c ∈ tr → c ∈ trs.
Proof.
  intros Ht Hv Hs Htrs Htr Hc.
  apply (elem_of_gather _ _ _ _ Htrs). exists t.
  destruct (gather_ok_inv _ _ _ t Htrs Ht) as [trt Htrt]. exists trt.
  split_and!; [done..|].
  apply (elem_of_gather _ _ _ _ Htrt). exists v.
  destruct (gather_ok_inv _ _ _ v Htrt Hv) as [trv Htrv]. exists trv.
  split_and!; [done..|].
  apply (elem_of_gather _ _ _ _ Htrv). exists s, tr. done.
Qed.

End FleetRows.

(** ** The meaning of the rows *)

Lemma satisfies_eq_2 xs a b :
  satisfies xs (eq_row [(1%Q, a); ((-1)%Q, b)] 0%Q) →
  (value xs a == value xs b)%Q.
Proof.
  unfold satisfies, above, below, row_sum. cbn. intros [H1 H2].
  apply Qle_antisym; lra.
Qed.

Lemma satisfies_eq_3 xs a b c :
  satisfies xs (eq_row [(1%Q, a); (1%Q, b); ((-1)%Q, c)] 0%Q) →
  (value xs a + value xs b == value xs c)%Q.
Proof.
  unfold satisfies, above, below, row_sum. cbn. intros [H1 H2].
  apply Qle_antisym; lra.
Qed.

Lemma satisfies_le_2 xs a b :
  satisfies xs (le_row [(1%Q, a); ((-1)%Q, b)] 0%Q) →
  (value xs a <= value xs b)%Q.
Proof.
  unfold satisfies, above, below, row_sum. cbn. intros [_ H2]. lra.
Qed.

Lemma satisfies_link xs ik iu rng :
  satisfies xs (le_row [(1%Q, ik); ((- rng)%Q, iu)] 0%Q) →
  (value xs ik <= rng * value xs iu)%Q.
Proof.
  unfold satisfies, above, below, row_sum. cbn. intros [_ H2]. lra.
Qed.

(** ** From the builder to the generator *)

Lemma builder_inv_wf P R : builder_inv P R → wf_model (model R) ∧ rows (model R) = [].
Proof.
  intros [_ _ _ _ _ _ (Hc & Hr & Hcs & Hvs & Hl & Hu)]. split.
  - split; rewrite ?Hr, ?Hcs, ?Hvs, ?Hl, ?Hu, ?Hc; done.
  - unfold rows. by rewrite Hc.
Qed.

Lemma registry_distinct P R key1 key2 i j :
  builder_inv P R → reg_lookup R key1 = Some i → reg_lookup R key2 = Some j →
  key1 ≠ key2 → i ≠ j.
Proof. intros HR H1 H2 Hne ->. apply Hne. by eapply inv_inj. Qed.

(** What a run of a generator that returns leaves in a model that had no
    row. *)
Lemma generates_run P R c r m :
  builder_inv P R → generates c r → c (model R) = Ok (tt, m) →
  r = Ok (rows m) ∧ wf_model m ∧ vars_of m = vars_of (model R).
Proof.
  intros [Hwf Hrows]%builder_inv_wf Hgen Hrun. specialize (Hgen _ Hwf).
  destruct r as [tr|e]; [|congruence].
  destruct Hgen as (m' & Hrun' & Hr & Hwf' & Hv). rewrite Hrun in Hrun'.
  injection Hrun' as <-. by rewrite Hr, Hrows.
Qed.

Lemma generates_ok P R c tr :
  builder_inv P R → generates c (Ok tr) →
  ∃ m, c (model R) = Ok (tt, m) ∧ rows m = tr ∧ wf_model m ∧
       vars_of m = vars_of (model R).
Proof.
  intros [Hwf Hrows]%builder_inv_wf Hgen.
  destruct (Hgen _ Hwf) as (m & Hrun & Hr & Hwf' & Hv).
  exists m. by rewrite Hr, Hrows.
Qed.

(** The rows of the fleet dynamics come first in the finished model. *)
Lemma fleet_rows_prefix P R m m' :
  builder_inv P R →
  fleet_dynamics P R (model R) = Ok (tt, m) →
  add_constraints P R (model R) = Ok (tt, m') →
  rows m `prefix_of` rows m'.
Proof.
  intros HR Hm Hm'.
  destruct (generates_run _ _ _ _ _ HR (generates_fleet_dynamics P R) Hm) as (H1 & _).
  destruct (generates_run _ _ _ _ _ HR (generates_add_constraints P R) Hm') as (H2 & _).
  unfold add_constraints_rows, seq_rows in H2. rewrite H1 in H2. cbn in H2.
  apply rbind_ok in H2 as (rest & _ & [= <-]). by eexists.
Qed.

(** ** The parameter maps *)

Lemma to_dict_foldl_lookup `{Countable K} {V} (l : list (K * V)) (m0 : gmap K V) k v :
  foldl (λ m kv, <[kv.1 := kv.2]> m) m0 l !! k = Some v →
  (k, v) ∈ l ∨ m0 !! k = Some v.
Proof.
  revert m0. induction l as [|[k' v'] l IH]; intros m0 Hl; [by right|].
  cbn in Hl. apply IH in Hl as [Hl | Hl]; [left; by right|].
  apply lookup_insert_Some in Hl as [[-> ->] | [_ Hl]]; [left; left | by right].
Qed.

Lemma to_dict_lookup `{Countable K} {V} (l : list (K * V)) k v :
  to_dict l !! k = Some v → (k, v) ∈ l.
Proof. intros [? | ?]%to_dict_foldl_lookup; [done | by rewrite lookup_empty in *]. Qed.

Lemma to_dict_foldl_is_Some `{Countable K} {V} (l : list (K * V)) (m0 : gmap K V) k :
  is_Some (foldl (λ m kv, <[kv.1 := kv.2]> m) m0 l !! k) ↔
  k ∈ l.*1 ∨ is_Some (m0 !! k).
Proof.
  revert m0. induction l as [|[k' v'] l IH]; intros m0; cbn.
  - split; [by right | intros [?%elem_of_nil | ?]; done].
  - rewrite IH, lookup_insert_is_Some, elem_of_cons.
    destruct (decide (k' = k)) as [-> | ?]; [tauto|]. split.
    + intros [? | [? | [_ ?]]]; auto.
    + intros [[? | ?] | ?]; auto.
Qed.

Lemma to_dict_is_Some `{Countable K} {V} (l : list (K * V)) k :
  is_Some (to_dict l !! k) ↔ k ∈ l.*1.
Proof.
  unfold to_dict. rewrite to_dict_foldl_is_Some, lookup_empty.
  split; [intros [? | []%is_Some_None]; done | by left].
Qed.

Lemma elem_of_sorted_unique_Z (l : list Z) z : z ∈ sorted_unique_Z l ↔ z ∈ l.
Proof.
  unfold sorted_unique_Z. by rewrite merge_sort_Permutation, elem_of_remove_dups.
Qed.

Lemma elem_of_sorted_unique_str (l : list string) z : z ∈ sorted_unique_str l ↔ z ∈ l.
Proof.
  unfold sorted_unique_str. by rewrite merge_sort_Permutation, elem_of_remove_dups.
Qed.

Lemma NoDup_sorted_unique_Z (l : list Z) : NoDup (sorted_unique_Z l).
Proof.
  unfold sorted_unique_Z. rewrite merge_sort_Permutation. apply NoDup_remove_dups.
Qed.

Lemma NoDup_sorted_unique_str (l : list string) : NoDup (sorted_unique_str l).
Proof.
  unfold sorted_unique_str. rewrite merge_sort_Permutation. apply NoDup_remove_dups.
Qed.

Lemma parameters_from_tables data P : parameters data = Ok P → from_tables data P.
Proof.
  unfold parameters. intros (keys & _ & [= <-])%rbind_ok. split; cbn.
  - intros t. apply elem_of_sorted_unique_Z.
  - intros t Ht. rewrite elem_of_sorted_unique_Z in Ht. apply to_dict_is_Some.
    apply list_elem_of_fmap in Ht as (r & -> & Hr).
    apply list_elem_of_fmap. exists (ce_year r, ce_carbon_emission r). split; [done|].
    apply list_elem_of_fmap. by exists r.
  - intros t s d dem Hl%to_dict_lookup.
    apply list_elem_of_fmap in Hl as (r & [= -> -> -> ->] & Hr).
    rewrite !elem_of_sorted_unique_str. split_and!.
    + by apply list_elem_of_fmap_2.
    + by apply list_elem_of_fmap_2.
    + by exists r.
  - split_and!; apply NoDup_sorted_unique_Z || apply NoDup_sorted_unique_str.
Qed.

(** ** The rows of the other three families *)

Lemma gather_sub {A B} (l : list A) (f : A → result (list B)) bs a bs' b :
  gather l f = Ok bs → a ∈ l → f a = Ok bs' → b ∈ bs' → b ∈ bs.
Proof. intros Hg Ha Hfa Hb. apply (elem_of_gather _ _ _ _ Hg). eauto. Qed.

Lemma gather_pure {A B} (l : list A) (f : A → result (list B)) (g : A → list B) :
  (∀ a, a ∈ l → f a = Ok (g a)) → gather l f = Ok (l ≫= g).
Proof.
  induction l as [|a l IH]; intros Hf; [done|].
  cbn. rewrite Hf by left. cbn. rewrite IH; [done|].
  intros a' Ha'. apply Hf. by right.
Qed.

Lemma gather_singletons {A B} (l : list A) (f : A → result (list B))
    (Q : A → B → Prop) :
  (∀ a, a ∈ l → ∃ b, f a = Ok [b] ∧ Q a b) →
  ∃ bs, gather l f = Ok bs ∧ Forall2 Q l bs.
Proof.
  induction l as [|a l IH]; intros Hf; [by exists []|].
  destruct (Hf a) as (b & Hfa & Hb); [left|].
  destruct IH as (bs & Hg & HQ); [intros a' Ha'; apply Hf; by right|].
  exists (b :: bs). split; [|by constructor].
  cbn. by rewrite Hfa, Hg.
Qed.

Section OtherRows.
Variable P : Params.
Variable R : Builder.
Hypothesis Hreg : registries_of P R.

Lemma km_has_use t v s d f ik :
  km_vars R !! (t, v, s, d, f) = Some ik →
  ∃ iu cons, use_vars R !! (t, v, s, d, f) = Some iu ∧
             consumption P !! (v, s, t, f) = Some cons.
Proof.
  intros Hk. assert (declared P (KKm (t, v, s, d, f))) as Hd.
  { apply Hreg. cbn. by rewrite Hk. }
  destruct (proj2 (Hreg (KUse (t, v, s, d, f))) Hd) as [iu Hiu].
  cbn in Hd. destruct Hd as (_ & _ & _ & _ & _ & [cons Hcons]). eauto.
Qed.

Lemma link_km_use_rows_in t s d v f ik :
  km_vars R !! (t, v, s, d, f) = Some ik →
  ∃ iu, use_vars R !! (t, v, s, d, f) = Some iu ∧
        link_km_use_rows P R t s d v f =
          Ok [le_row [(1%Q, ik); ((- dict_get (vehicle_range P) (v, s, t) 0)%Q, iu)] 0%Q].
Proof.
  intros Hk. destruct (km_has_use _ _ _ _ _ _ Hk) as (iu & _ & Hiu & _).
  exists iu. split; [done|]. unfold link_km_use_rows.
  by rewrite Hk, (getitem_Some _ _ _ Hiu).
Qed.

Lemma link_km_use_rows_ok t s d v f : is_ok (link_km_use_rows P R t s d v f).
Proof.
  destruct (km_vars R !! (t, v, s, d, f)) as [ik|] eqn:Hk.
  - by destruct (link_km_use_rows_in _ _ _ _ _ _ Hk) as (iu & _ & ->).
  - unfold link_km_use_rows. by rewrite Hk.
Qed.

(** The rows of one demand cell: the coverage row, then the links. *)
Lemma demand_cell_rows_in t s d dem :
  demand_dict P !! (t, s, d) = Some dem →
  ∃ links,
    demand_cell_rows P R t s d = Ok (eq_row (demand_terms P R t s d) dem :: links) ∧
    gather (vehicle_types P) (λ v,
      gather (fuels P) (λ f, link_km_use_rows P R t s d v f)) = Ok links.
Proof.
  intros Hdem.
  pose proof (gather_ok (vehicle_types P)
    (λ v, gather (fuels P) (λ f, link_km_use_rows P R t s d v f))
    (λ v _, gather_ok (fuels P) _ (λ f _, link_km_use_rows_ok t s d v f))) as Hok.
  destruct (gather (vehicle_types P) _) as [links|e] eqn:Hlinks; [|done].
  exists links. split; [|done]. unfold demand_cell_rows.
  rewrite (getitem_Some _ _ _ Hdem). cbn. by rewrite Hlinks.
Qed.

Lemma demand_satisfaction_rows_ok :
  demand_complete P → is_ok (demand_satisfaction_rows P R).
Proof.
  intros Hc. apply gather_ok. intros t Ht. apply gather_ok. intros s Hs.
  apply gather_ok. intros d Hd. destruct (Hc t s d Ht Hs Hd) as [dem Hdem].
  by destruct (demand_cell_rows_in t s d dem Hdem) as (links & -> & _).
Qed.

Lemma demand_cell_rows_sub t s d tr trs c :
  t ∈ years P → s ∈ sizes P → d ∈ distances P →
  demand_satisfaction_rows P R = Ok trs → demand_cell_rows P R t s d = Ok tr →
  c ∈ tr → c ∈ trs.
Proof.
  intros Ht Hs Hd Htrs Htr Hc.
  destruct (gather_ok_inv _ _ _ t Htrs Ht) as [trt Htrt].
  destruct (gather_ok_inv _ _ _ s Htrt Hs) as [trsz Htrsz].
  eapply gather_sub; [exact Htrs | exact Ht | exact Htrt |].
  eapply gather_sub; [exact Htrt | exact Hs | exact Htrsz |].
  eapply gather_sub; [exact Htrsz | exact Hd | exact Htr | exact Hc].
Qed.

(** The terms of a coverage row are the Km variables of the cell, each
    with the coefficient 1. *)
Lemma elem_of_demand_terms t s d q ik :
  (q, ik) ∈ demand_terms P R t s d ↔
  q = 1%Q ∧ ∃ v f, v ∈ vehicle_types P ∧ f ∈ fuels P ∧
                   km_vars R !! (t, v, s, d, f) = Some ik.
Proof.
  unfold demand_terms. rewrite list_elem_of_bind. split.
  - intros (v & (f & Hin & Hf)%list_elem_of_bind & Hv).
    destruct (km_vars R !! (t, v, s, d, f)) as [ik'|] eqn:Hk;
      [|by apply elem_of_nil in Hin].
    apply list_elem_of_singleton in Hin as [= -> ->]. eauto 6.
  - intros (-> & v & f & Hv & Hf & Hk). exists v. split; [|done].
    apply list_elem_of_bind. exists f. split; [|done]. rewrite Hk. left.
Qed.

Lemma usage_limit_rows_ok : is_ok (usage_limit_rows P R).
Proof.
  apply gather_ok. intros t _. apply gather_ok. intros v _.
  by apply gather_ok.
Qed.

Lemma emission_terms_eq t :
  emission_terms P R t = Ok (emission_terms_list P R t).
Proof.
  unfold emission_terms, emission_terms_list.
  apply gather_pure. intros v _. apply gather_pure. intros s _.
  apply gather_pure. intros d _. apply gather_pure. intros f _.
  destruct (km_vars R !! (t, v, s, d, f)) as [ik|] eqn:Hk; [|done].
  destruct (km_has_use _ _ _ _ _ _ Hk) as (_ & cons & _ & Hcons).
  rewrite (getitem_Some _ _ _ Hcons). cbn. unfold dict_get. by rewrite Hcons.
Qed.

(** One emission row per year, in the order of the years. *)
Lemma emission_caps_rows_in :
  (∀ t, t ∈ years P → is_Some (emission_targets P !! t)) →
  ∃ trs, emission_caps_rows P R = Ok trs ∧
    Forall2 (λ t c, ∃ cap, emission_targets P !! t = Some cap ∧
                           c = le_row (emission_terms_list P R t) cap)
            (years P) trs.
Proof.
  intros Htargets. apply gather_singletons. intros t Ht.
  destruct (Htargets t Ht) as [cap Hcap].
  exists (le_row (emission_terms_list P R t) cap). split; [|eauto].
  by rewrite emission_terms_eq, (getitem_Some _ _ _ Hcap).
Qed.

End OtherRows.

(** ** The finished model *)

Lemma reg_lookup_with_model R m key :
  reg_lookup (with_model R m) key = reg_lookup R key.
Proof. by destruct key. Qed.

Lemma variables_ok_with_model P R m :
  builder_inv P R → registries_of P R → vars_of m = vars_of (model R) →
  variables_ok P (with_model R m).
Proof.
  intros HR Hreg [= Hn Ht Hl Hu Ho _]. split.
  - intros key. rewrite reg_lookup_with_model. apply Hreg.
  - intros key idx. rewrite reg_lookup_with_model. cbn.
    rewrite Hn, Ht, Hl, Hu, Ho. apply HR.
  - intros key1 key2 idx. rewrite !reg_lookup_with_model. apply HR.
Qed.

(** On tables that the source supports, the model is built: the
    variables are those declared, and the rows are those of the four
    families, in this order. *)
Lemma build_model_ok data P :
  parameters data = Ok P → contiguous_horizon P → demand_complete P →
  ∃ R t1 t2 t3 t4,
    build_model data = Ok (P, R) ∧
    variables_ok P R ∧
    wf_model (model R) ∧
    fleet_dynamics_rows P R = Ok t1 ∧
    demand_satisfaction_rows P R = Ok t2 ∧
    usage_limit_rows P R = Ok t3 ∧
    emission_caps_rows P R = Ok t4 ∧
    rows (model R) = t1 ++ t2 ++ t3 ++ t4.
Proof.
  intros Hpar Hhorizon Hdemand.
  destruct (create_variables_declared P) as (R & Hrun & Hreg).
  pose proof (create_variables_inv P R Hrun) as HR.
  pose proof (fleet_dynamics_rows_ok P R Hreg Hhorizon) as H1.
  pose proof (demand_satisfaction_rows_ok P R Hreg Hdemand) as H2.
  pose proof (usage_limit_rows_ok P R) as H3.
  destruct (emission_caps_rows_in P R Hreg) as (t4 & H4 & _).
  { apply (ft_targets data P). by apply parameters_from_tables. }
  destruct (fleet_dynamics_rows P R) as [t1|] eqn:E1; [|done].
  destruct (demand_satisfaction_rows P R) as [t2|] eqn:E2; [|done].
  destruct (usage_limit_rows P R) as [t3|] eqn:E3; [|done].
  destruct (generates_ok P R (add_constraints P R) (t1 ++ t2 ++ t3 ++ t4) HR)
    as (m & Hm & Hrows & Hwf & Hvars).
  { pose proof (generates_add_constraints P R) as Hg.
    unfold add_constraints_rows in Hg. by rewrite E1, E2, E3, H4 in Hg. }
  exists (with_model R m), t1, t2, t3, t4. split_and!; try done.
  - unfold build_model. rewrite Hpar. cbn. rewrite Hrun. cbn. by rewrite Hm.
  - by apply variables_ok_with_model.
Qed.

(** Whenever the model is built, it is of this form. *)
Lemma build_model_inv data P R :
  build_model data = Ok (P, R) →
  ∃ t1 t2 t3 t4,
    parameters data = Ok P ∧
    variables_ok P R ∧
    wf_model (model R) ∧
    fleet_dynamics_rows P R = Ok t1 ∧
    demand_satisfaction_rows P R = Ok t2 ∧
    usage_limit_rows P R = Ok t3 ∧
    emission_caps_rows P R = Ok t4 ∧
    rows (model R) = t1 ++ t2 ++ t3 ++ t4.
Proof.
  unfold build_model. intros (P' & Hpar & Hb)%rbind_ok.
  apply rbind_ok in Hb as ([[] R0] & Hrun & Hb).
  apply rbind_ok in Hb as ([[] m] & Hm & [= <- <-]).
  destruct (create_variables_declared P') as (R1 & Hrun1 & Hreg).
  rewrite Hrun in Hrun1. injection Hrun1 as <-.
  pose proof (create_variables_inv P' R0 Hrun) as HR.
  destruct (generates_run P' R0 _ _ m HR (generates_add_constraints P' R0) Hm)
    as (Hrows & Hwf & Hvars).
  unfold add_constraints_rows, seq_rows in Hrows.
  apply rbind_ok in Hrows as (t1 & E1 & Hrows).
  apply rbind_ok in Hrows as (t234 & Hrows & [= Hall]).
  apply rbind_ok in Hrows as (t2 & E2 & Hrows).
  apply rbind_ok in Hrows as (t34 & Hrows & [= <-]).
  apply rbind_ok in Hrows as (t3 & E3 & Hrows).
  apply rbind_ok in Hrows as (t4 & E4 & [= <-]).
  exists t1, t2, t3, t4. split_and!; try done.
  by apply variables_ok_with_model.
Qed.

(** ** The terms of the coverage and emission rows *)

Lemma NoDup_bind_by {A B} (l : list A) (f : A → list B) (owner : B → A → Prop) :
  (∀ a b, a ∈ l → b ∈ f a → owner b a) →
  (∀ b a1 a2, owner b a1 → owner b a2 → a1 = a2) →
  (∀ a, a ∈ l → NoDup (f a)) → NoDup l → NoDup (l ≫= f).
Proof.
  intros Hown Hinj Hf Hl. apply NoDup_bind; [|done|done].
  intros a1 a2 b Ha1 Ha2 Hb1 Hb2. eapply Hinj; eauto.
Qed.

Lemma NoDup_option_list {A B} (o : option A) (g : A → B) :
  NoDup (match o with Some a => [g a] | None => [] end).
Proof. destruct o; [apply NoDup_singleton | apply NoDup_nil_2]. Qed.

(** Membership in a comprehension that ends in a registry lookup. *)
Ltac unbind H :=
  repeat (let x := fresh "x" in let Hx := fresh "Hx" in
          apply list_elem_of_bind in H as (x & H & Hx));
  match type of H with
  | _ ∈ match ?o with _ => _ end =>
      let E := fresh "E" in
      destruct o eqn:E; [apply list_elem_of_singleton in H | by apply elem_of_nil in H]
  end.

Section Terms.
Variable P : Params.
Variable R : Builder.
Hypothesis HR : variables_ok P R.
Hypothesis Hv : NoDup (vehicle_types P).
Hypothesis Hs : NoDup (sizes P).
Hypothesis Hd : NoDup (distances P).
Hypothesis Hf : NoDup (fuels P).

Lemma km_key_inj k1 k2 ik :
  km_vars R !! k1 = Some ik → km_vars R !! k2 = Some ik → k1 = k2.
Proof.
  intros H1 H2. pose proof (vo_inj P R HR (KKm k1) (KKm k2) ik H1 H2) as [= ?]. done.
Qed.

Lemma NoDup_demand_terms t s d : NoDup (demand_terms P R t s d).
Proof.
  unfold demand_terms.
  apply (NoDup_bind_by _ _
    (λ b v, ∃ f, km_vars R !! (t, v, s, d, f) = Some b.2)); [| | |done].
  - intros v b _ Hb. unbind Hb. subst b. eauto.
  - intros b v1 v2 [f1 H1] [f2 H2].
    pose proof (km_key_inj _ _ _ H1 H2) as [= ? ?]. done.
  - intros v _.
    apply (NoDup_bind_by _ _
      (λ b f, km_vars R !! (t, v, s, d, f) = Some b.2)); [| | |done].
    + intros f b _ Hb. unbind Hb. by subst b.
    + intros b f1 f2 H1 H2.
      pose proof (km_key_inj _ _ _ H1 H2) as [= ?]. done.
    + intros f _. apply (NoDup_option_list _ (λ ik, (1%Q, ik))).
Qed.

(** The terms of an emission row are the Km variables of the year, each
    with its consumption rate times the emission factor of its fuel. *)
Lemma elem_of_emission_terms_list t q ik :
  (q, ik) ∈ emission_terms_list P R t ↔
  ∃ v s d f cons,
    v ∈ vehicle_types P ∧ s ∈ sizes P ∧ d ∈ distances P ∧ f ∈ fuels P ∧
    km_vars R !! (t, v, s, d, f) = Some ik ∧
    consumption P !! (v, s, t, f) = Some cons ∧
    q = (cons * dict_get (fuel_emissions P) (f, t) 0)%Q.
Proof.
  unfold emission_terms_list. split.
  - intros H. unbind H. injection H as -> ->.
    destruct (km_has_use P R (vo_reg P R HR) _ _ _ _ _ _ E) as (_ & cons & _ & Hcons).
    exists x, x0, x1, x2, cons. split_and!; try done.
    unfold dict_get at 1. by rewrite Hcons.
  - intros (v & s & d & f & cons & ? & ? & ? & ? & Hk & Hcons & ->).
    apply list_elem_of_bind. exists v. split; [|done].
    apply list_elem_of_bind. exists s. split; [|done].
    apply list_elem_of_bind. exists d. split; [|done].
    apply list_elem_of_bind. exists f. split; [|done].
    rewrite Hk. unfold dict_get. rewrite Hcons. left.
Qed.

Lemma NoDup_emission_terms_list t : NoDup (emission_terms_list P R t).
Proof.
  unfold emission_terms_list.
  apply (NoDup_bind_by _ _
    (λ b v, ∃ s d f, km_vars R !! (t, v, s, d, f) = Some b.2)); [| | |done].
  { intros v b _ Hb. unbind Hb. subst b. eauto. }
  { intros b v1 v2 (? & ? & ? & H1) (? & ? & ? & H2).
    pose proof (km_key_inj _ _ _ H1 H2) as [= ? ? ? ?]. done. }
  intros v _.
  apply (NoDup_bind_by _ _
    (λ b s, ∃ d f, km_vars R !! (t, v, s, d, f) = Some b.2)); [| | |done].
  { intros s b _ Hb. unbind Hb. subst b. eauto. }
  { intros b s1 s2 (? & ? & H1) (? & ? & H2).
    pose proof (km_key_inj _ _ _ H1 H2) as [= ? ? ?]. done. }
  intros s _.
  apply (NoDup_bind_by _ _
    (λ b d, ∃ f, km_vars R !! (t, v, s, d, f) = Some b.2)); [| | |done].
  { intros d b _ Hb. unbind Hb. subst b. eauto. }
  { intros b d1 d2 (? & H1) (? & H2).
    pose proof (km_key_inj _ _ _ H1 H2) as [= ? ?]. done. }
  intros d _.
  apply (NoDup_bind_by _ _
    (λ b f, km_vars R !! (t, v, s, d, f) = Some b.2)); [| | |done].
  { intros f b _ Hb. unbind Hb. by subst b. }
  { intros b f1 f2 H1 H2.
    pose proof (km_key_inj _ _ _ H1 H2) as [= ?]. done. }
  intros f _.
  apply (NoDup_option_list _ (λ ik, (_, ik))).
Qed.

End Terms.

Lemma satisfies_eq_row xs terms rhs :
  satisfies xs (eq_row terms rhs) → (row_sum xs terms == rhs)%Q.
Proof. intros [H1 H2]. cbn in H1, H2. by apply Qle_antisym. Qed.

Lemma satisfies_le_row xs terms rhs :
  satisfies xs (le_row terms rhs) → (row_sum xs terms <= rhs)%Q.
Proof. by intros [_ H2]. Qed.

Lemma demand_completeb_true P : demand_completeb P = true → demand_complete P.
Proof.
  unfold demand_completeb. rewrite forallb_forall. intros Hc t s d Ht Hs Hd.
  apply list_elem_of_In, Hc in Ht. rewrite forallb_forall in Ht.
  apply list_elem_of_In, Ht in Hs. rewrite forallb_forall in Hs.
  apply list_elem_of_In, Hs in Hd. by apply contains_true.
Qed.

(** ** The allocation loop *)

Lemma allocate_nil mk needed : allocate mk [] needed = ([], [], needed).
Proof. done. Qed.

Lemma allocate_cons mk item pool needed :
  allocate mk (item :: pool) needed =
  if (bool_decide (0 < item_count item) && bool_decide (0 < needed))%bool then
    let take := Z.min (item_count item) needed in
    let '(p, rs, rem) := allocate mk pool (needed - take) in
    ({| item_id := item_id item; item_count := item_count item - take |} :: p,
     mk (item_id item) take :: rs, rem)
  else
    let '(p, rs, rem) := allocate mk pool needed in (item :: p, rs, rem).
Proof. done. Qed.

(** When nothing is needed any more, the loop changes nothing. *)
Lemma allocate_done mk pool needed :
  needed ≤ 0 → allocate mk pool needed = (pool, [], needed).
Proof.
  intros Hn. induction pool as [|item pool IH]; [done|].
  rewrite allocate_cons, (bool_decide_eq_false_2 (0 < needed)) by lia.
  rewrite andb_false_r. by rewrite IH.
Qed.

(** The pool after the loop, item by item: same batch, a count that has
    not grown and is not negative. *)
Lemma allocate_pool mk pool needed pool' rs rem :
  pool_nonneg pool → allocate mk pool needed = (pool', rs, rem) →
  Forall2 (λ it it', item_id it' = item_id it ∧
                     0 ≤ item_count it' ≤ item_count it) pool pool'.
Proof.
  intros Hpool. revert needed pool' rs rem.
  induction Hpool as [|item pool Hitem Hpool IH]; intros needed pool' rs rem Ha.
  - injection Ha as <- <- <-. constructor.
  - rewrite allocate_cons in Ha.
    destruct (bool_decide (0 < item_count item) && bool_decide (0 < needed))%bool eqn:Hc.
    + apply andb_true_iff in Hc as [Hc1%bool_decide_eq_true Hc2%bool_decide_eq_true].
      cbn zeta in Ha.
      destruct (allocate mk pool (needed - Z.min (item_count item) needed))
        as [[p rs1] rem1] eqn:Hrec.
      injection Ha as <- <- <-. constructor; [cbn; split; [done | lia] | by eapply IH].
    + destruct (allocate mk pool needed) as [[p rs1] rem1] eqn:Hrec.
      injection Ha as <- <- <-. constructor; [cbn; split; [done | lia] | by eapply IH].
Qed.

(** The rows of the loop are those of the items whose count went down,
    in the order of the pool, each with the number of vehicles taken. *)
Lemma allocate_rows mk pool needed pool' rs rem :
  pool_nonneg pool → allocate mk pool needed = (pool', rs, rem) →
  rs = omap (λ '(it, it'),
               if bool_decide (0 < item_count it - item_count it')
               then Some (mk (item_id it) (item_count it - item_count it'))
               else None)
            (zip pool pool').
Proof.
  intros Hpool. revert needed pool' rs rem.
  induction Hpool as [|item pool Hitem Hpool IH]; intros needed pool' rs rem Ha.
  - by injection Ha as <- <- <-.
  - rewrite allocate_cons in Ha.
    destruct (bool_decide (0 < item_count item) && bool_decide (0 < needed))%bool eqn:Hc.
    + apply andb_true_iff in Hc as [Hc1%bool_decide_eq_true Hc2%bool_decide_eq_true].
      cbn zeta in Ha.
      destruct (allocate mk pool (needed - Z.min (item_count item) needed))
        as [[p rs1] rem1] eqn:Hrec.
      injection Ha as <- <- <-. cbn.
      rewrite bool_decide_eq_true_2 by lia.
      replace (item_count item - (item_count item - Z.min (item_count item) needed))
        with (Z.min (item_count item) needed) by lia.
      f_equal. by eapply IH.
    + destruct (allocate mk pool needed) as [[p rs1] rem1] eqn:Hrec.
      injection Ha as <- <- <-. cbn.
      rewrite bool_decide_eq_false_2 by lia. by eapply IH.
Qed.

(** The account of the loop: what the rows carry is what left the pool
    and what is no longer needed; it is the smaller of the need and of the
    content of the pool. *)
Lemma allocate_account t f d avg pool needed pool' rs rem :
  pool_nonneg pool → 0 ≤ needed →
  allocate (use_row t f d avg) pool needed = (pool', rs, rem) →
  vehicles_of rs = needed - rem ∧
  vehicles_of rs = pool_total pool - pool_total pool' ∧
  vehicles_of rs = Z.min needed (pool_total pool) ∧
  0 ≤ rem ≤ needed.
Proof.
  intros Hpool. revert needed pool' rs rem.
  induction Hpool as [|item pool Hitem Hpool IH]; intros needed pool' rs rem Hn Ha.
  - injection Ha as <- <- <-. cbn. lia.
  - rewrite allocate_cons in Ha.
    assert (0 ≤ pool_total pool) as Htot.
    { clear -Hpool. unfold pool_total. induction Hpool; cbn; lia. }
    destruct (bool_decide (0 < item_count item) && bool_decide (0 < needed))%bool eqn:Hc.
    + apply andb_true_iff in Hc as [Hc1%bool_decide_eq_true Hc2%bool_decide_eq_true].
      cbn zeta in Ha.
      destruct (allocate (use_row t f d avg) pool
                  (needed - Z.min (item_count item) needed))
        as [[p rs1] rem1] eqn:Hrec.
      injection Ha as <- <- <-.
      assert (0 ≤ needed - Z.min (item_count item) needed) as Hn' by lia.
      destruct (IH _ _ _ _ Hn' Hrec) as (H1 & H2 & H3 & H4).
      unfold vehicles_of, pool_total in *. cbn. lia.
    + destruct (allocate (use_row t f d avg) pool needed) as [[p rs1] rem1] eqn:Hrec.
      injection Ha as <- <- <-.
      destruct (IH _ _ _ _ Hn Hrec) as (H1 & H2 & H3 & H4).
      unfold vehicles_of, pool_total in *. cbn.
      apply andb_false_iff in Hc as [Hc%bool_decide_eq_false | Hc%bool_decide_eq_false].
      * assert (item_count item = 0) by lia. lia.
      * assert (needed = 0) by lia. subst needed.
        rewrite allocate_done in Hrec by lia. injection Hrec as <- <- <-. cbn. lia.
Qed.

Lemma pool_nonneg_after mk pool needed pool' rs rem :
  pool_nonneg pool → allocate mk pool needed = (pool', rs, rem) → pool_nonneg pool'.
Proof.
  intros Hpool Ha. pose proof (allocate_pool _ _ _ _ _ _ Hpool Ha) as H2.
  unfold pool_nonneg. clear -H2. induction H2; constructor; [lia | done].
Qed.

(** ** The decoder *)

Lemma preserves_lift {S A} (inv : S → Prop) (r : result A) (k : A → M S unit) :
  (∀ a, r = Ok a → preserves inv (k a)) → preserves inv (a <- lift r ;; k a).
Proof.
  intros Hk s s' Hs Hrun. unfold bind, lift in Hrun.
  destruct r as [a|e]; [|done]. by eapply Hk.
Qed.

Lemma preserves_modify {S} (inv : S → Prop) (f : S → S) :
  (∀ s, inv s → inv (f s)) → preserves inv (modify f).
Proof. intros Hf s s' Hs [= <-]. by apply Hf. Qed.

Lemma get_count_ok xs idx n :
  get_count xs idx = Ok n ↔ ∃ q, xs !! idx = Some q ∧ n = py_round q.
Proof.
  unfold get_count, get_val, list_getitem. destruct (xs !! idx) as [q|]; cbn.
  - split; [intros [= <-]; eauto | intros (q' & [= <-] & ->); done].
  - split; [done | intros (q' & ? & _); done].
Qed.

Lemma get_val_ok xs idx q : get_val xs idx = Ok q ↔ xs !! idx = Some q.
Proof.
  unfold get_val, list_getitem. destruct (xs !! idx); split; congruence.
Qed.

Section DecoderRows.
Variable P : Params.
Variable R : Builder.
Variable xs : list Q.

Lemma rows_ok_app rows rs :
  rows_ok P R xs rows → rows_ok P R xs rs → rows_ok P R xs (rows ++ rs).
Proof. intros H1 H2 r [?|?]%elem_of_app; auto. Qed.

Lemma rows_ok_nil : rows_ok P R xs [].
Proof. by intros r ?%elem_of_nil. Qed.

Lemma rows_ok_singleton r :
  (r_type r = "Buy" ∧ r_distance_per_vehicle r = None) ∨
  (r_type r = "Sell" ∧ r_distance_per_vehicle r = None) ∨
  (r_type r = "Use" ∧ duty_row P R xs r) →
  rows_ok P R xs [r].
Proof. by intros Hr r' ->%list_elem_of_singleton. Qed.

Lemma preserves_extract_buy_sell :
  preserves (rows_ok P R xs) (extract_buy_sell P R xs).
Proof.
  apply preserves_for. intros t _. apply preserves_for. intros v _.
  apply preserves_for. intros s _. unfold extract_cell.
  apply preserves_lift. intros idx _. apply preserves_lift. intros val _.
  apply preserves_seq.
  - apply preserves_when. intros _. apply preserves_modify. intros rows Hrows.
    apply rows_ok_app; [done|]. apply rows_ok_singleton. by left.
  - apply preserves_for. intros age _. unfold extract_sell.
    destruct (sell_vars R !! (t, v, s, age)); [|apply preserves_ret].
    apply preserves_lift. intros val' _. apply preserves_when. intros _.
    apply preserves_modify. intros rows Hrows.
    apply rows_ok_app; [done|]. apply rows_ok_singleton. right. by left.
Qed.

(** The pool of a class, as it is built. *)
Lemma build_pool_items t v s pool :
  build_pool R xs t v s = Ok pool →
  Forall (λ it, 0 < item_count it ∧
                ∃ y, item_id it = vehicle_id v s y ∧ pool_vintage t y) pool.
Proof.
  unfold build_pool. intros (carried & Hc & Hb)%rbind_ok.
  apply rbind_ok in Hb as (idx & _ & Hb). apply rbind_ok in Hb as (bought & _ & Hb).
  assert (Forall (λ it, 0 < item_count it ∧
            ∃ y, item_id it = vehicle_id v s y ∧ pool_vintage t y) carried) as Hcarried.
  { clear Hb. unfold carried_over in Hc.
    destruct (bool_decide_reflect (base_year < t)) as [Ht|Ht]; [|by injection Hc as <-].
    apply Forall_forall. intros it Hit.
    apply (elem_of_gather _ _ _ _ Hc) in Hit as (age & its & Hage & Hits & Hit).
    apply elem_of_range in Hage. cbn beta in Hits.
    destruct (fleet_vars R !! (t - 1, v, s, age)); [|injection Hits as <-; by apply elem_of_nil in Hit].
    apply rbind_ok in Hits as (count & _ & Hits).
    destruct (bool_decide_reflect (0 < count)) as [Hcount|Hcount];
      injection Hits as <-; [|by apply elem_of_nil in Hit].
    apply list_elem_of_singleton in Hit as ->. cbn. split; [done|].
    exists (t - 1 - age). split; [done|]. right. split; [done|]. exists age. lia. }
  destruct (bool_decide_reflect (0 < bought)) as [Hbought|Hbought];
    injection Hb as <-; [|done].
  apply Forall_app. split; [done|]. constructor; [|constructor]. cbn. split; [done|].
  exists t. split; [done | by left].
Qed.

Lemma pools_ok_insert t fp v s pool :
  pools_ok t fp →
  Forall (λ it, 0 ≤ item_count it ∧
                ∃ y, item_id it = vehicle_id v s y ∧ pool_vintage t y) pool →
  pools_ok t (<[(v, s) := pool]> fp).
Proof.
  intros Hfp Hpool v' s' pool' Hl.
  apply lookup_insert_Some in Hl as [[[= <- <-] <-] | [_ Hl]]; [done|].
  by eapply Hfp.
Qed.

Lemma build_fleet_pool_ok t fp :
  build_fleet_pool P R xs t ∅ = Ok (tt, fp) → pools_ok t fp.
Proof.
  intros Hrun.
  eapply (preserves_for (pools_ok t)); [| |exact Hrun].
  - intros v _. apply preserves_for. intros s _.
    apply preserves_lift. intros pool Hpool. apply preserves_modify.
    intros fp' Hfp'. apply pools_ok_insert; [done|].
    eapply Forall_impl; [by eapply build_pool_items|].
    cbn. intros it [? ?]. split; [lia | done].
  - intros v s pool. by rewrite lookup_empty.
Qed.

End DecoderRows.

Lemma py_div_ok a b q : py_div a b = Ok q ↔ b ≠ 0 ∧ q = (a / inject_Z b)%Q.
Proof.
  unfold py_div. destruct (decide (b = 0)); split.
  - done.
  - by intros [? _].
  - by intros [= <-].
  - by intros [_ ->].
Qed.

Section DecoderDuties.
Variable P : Params.
Variable R : Builder.
Variable xs : list Q.

(** The rows of an allocation are Use rows of the duty, and the pool is
    still a pool of the year. *)
Lemma allocate_duty_rows t v s d f iu ik qu qk pool pool' rs rem :
  t ∈ years P → v ∈ vehicle_types P → s ∈ sizes P →
  d ∈ distances P → f ∈ fuels P →
  use_vars R !! (t, v, s, d, f) = Some iu →
  km_vars R !! (t, v, s, d, f) = Some ik →
  xs !! iu = Some qu → xs !! ik = Some qk → 0 < py_round qu →
  Forall (λ it, 0 ≤ item_count it ∧
                ∃ y, item_id it = vehicle_id v s y ∧ pool_vintage t y) pool →
  allocate (use_row t f d (qk / inject_Z (py_round qu))%Q) pool (py_round qu)
    = (pool', rs, rem) →
  rows_ok P R xs rs ∧
  Forall (λ it, 0 ≤ item_count it ∧
                ∃ y, item_id it = vehicle_id v s y ∧ pool_vintage t y) pool'.
Proof.
  intros Ht Hv Hs Hd Hf Hiu Hik Hqu Hqk Hpos Hpool Ha.
  assert (pool_nonneg pool) as Hnn.
  { eapply Forall_impl; [exact Hpool|]. by intros it [? _]. }
  pose proof (allocate_pool _ _ _ _ _ _ Hnn Ha) as Hitems.
  pose proof (allocate_rows _ _ _ _ _ _ Hnn Ha) as Hrows.
  split.
  - intros r Hr. rewrite Hrows in Hr.
    apply list_elem_of_omap in Hr as ([it it'] & Hin & Hsome).
    apply elem_of_zip_l in Hin as Hit. cbn in Hit.
    destruct (bool_decide_reflect (0 < item_count it - item_count it')) as [Htake|];
      [|done].
    injection Hsome as <-.
    rewrite Forall_forall in Hpool. destruct (Hpool it Hit) as (_ & y & Hid & Hy).
    right. right. split; [done|].
    exists t, v, s, d, f, iu, ik, qu, qk, y. cbn. split_and!; done.
  - apply Forall_forall. intros it' Hit'.
    apply list_elem_of_lookup in Hit' as [i Hi].
    destruct (Forall2_lookup_r _ _ _ _ _ Hitems Hi) as (it & Hit & Hid & Hcount).
    apply list_elem_of_lookup_2 in Hit. rewrite Forall_forall in Hpool.
    destruct (Hpool it Hit) as (_ & y & Hy & Hv'). split; [lia|].
    exists y. by rewrite Hid.
Qed.

Lemma preserves_assign_duty t v s d f :
  t ∈ years P → v ∈ vehicle_types P → s ∈ sizes P →
  d ∈ distances P → f ∈ fuels P →
  preserves (decoder_inv P R xs t) (assign_duty R xs t v s d f).
Proof.
  intros Ht Hv Hs Hd Hf. unfold assign_duty.
  destruct (use_vars R !! (t, v, s, d, f)) as [iu|] eqn:Hiu; [|apply preserves_ret].
  apply preserves_lift. intros ik Hik. apply preserves_lift. intros needed Hneeded.
  apply preserves_lift. intros qk Hqk. apply preserves_when.
  intros Hpos%bool_decide_eq_true. apply preserves_lift. intros avg Havg.
  apply preserves_modify. intros st [Hrows Hpools].
  destruct (fleet_pool st !! (v, s)) as [pool|] eqn:Hpool; [|done].
  destruct (allocate (use_row t f d avg) pool needed) as [[pool' rs] rem] eqn:Ha.
  apply get_count_ok in Hneeded as (qu & Hqu & ->).
  apply get_val_ok in Hqk. apply py_div_ok in Havg as [_ ->].
  unfold getitem in Hik. destruct (km_vars R !! (t, v, s, d, f)) as [ik'|] eqn:Hik';
    [|done]. injection Hik as ->.
  destruct (allocate_duty_rows t v s d f iu ik qu qk pool pool' rs rem) as [Hrs Hpool'];
    try done.
  { by eapply Hpools. }
  split; cbn.
  - by apply rows_ok_app.
  - by apply pools_ok_insert.
Qed.

Lemma preserves_decode_year t :
  t ∈ years P → preserves (rows_ok P R xs) (decode_year P R xs t).
Proof.
  intros Ht rows rows' Hrows Hrun. unfold decode_year in Hrun.
  apply rbind_ok in Hrun as ([[] fp] & Hfp & Hrun).
  apply rbind_ok in Hrun as ([[] st] & Hst & [= <-]).
  assert (decoder_inv P R xs t st) as [? _]; [|done].
  eapply (preserves_for (decoder_inv P R xs t)); [| |exact Hst].
  - intros v Hv. apply preserves_for. intros s Hs. apply preserves_for. intros d Hd.
    apply preserves_for. intros f Hf. by apply preserves_assign_duty.
  - split; [done|]. by eapply build_fleet_pool_ok.
Qed.

(** Every row of the submission is a Buy row, a Sell row or the Use row
    of a duty. *)
Lemma decode_rows_ok rows : decode P R xs = Ok rows → rows_ok P R xs rows.
Proof.
  unfold decode. intros ([[] rows0] & H0 & Hrun)%rbind_ok.
  apply rbind_ok in Hrun as ([[] rows1] & H1 & [= <-]).
  eapply (preserves_for (rows_ok P R xs)); [| |exact H1].
  - intros t Ht. by apply preserves_decode_year.
  - eapply preserves_extract_buy_sell; [|exact H0]. apply rows_ok_nil.
Qed.

End DecoderDuties.

(** ** Checks that can be run *)

Lemma satisfiesb_true xs c : satisfiesb xs c = true → satisfies xs c.
Proof.
  unfold satisfiesb, satisfies. intros [H1 H2]%andb_true_iff. split.
  - destruct (c_lb c); cbn in *; [done | by apply Qle_bool_iff | done].
  - destruct (c_ub c); cbn in *; [done | by apply Qle_bool_iff | done].
Qed.

Lemma feasibleb_true xs m : feasibleb xs m = true → feasible xs m.
Proof.
  unfold feasibleb. rewrite forallb_forall. intros H c Hc%list_elem_of_In.
  by apply satisfiesb_true, H.
Qed.
Lemma value_lookup xs i q : xs !! i = Some q → value xs i = q.
Proof. unfold value. by intros ->. Qed.

(** The share of a vehicle when the count is not rounded down. *)
Lemma share_within_range (km use rng : Q) (n : Z) :
  0 < n → (0 <= rng)%Q → (km <= rng * use)%Q → (use <= inject_Z n)%Q →
  (km / inject_Z n <= rng)%Q.
Proof.
  intros Hn Hrng Hkm Huse.
  assert (0 < inject_Z n)%Q as Hpos.
  { change 0%Q with (inject_Z 0). rewrite <- Zlt_Qlt. lia. }
  apply Qle_shift_div_r; [done|].
  apply (Qle_trans _ (rng * use)); [done|].
  rewrite !(Qmult_comm rng). by apply Qmult_le_compat_r.
Qed.

(** ** No division by zero *)

Lemma never_ret {S A} e (a : A) : never (S := S) e (ret a).
Proof. by intros s. Qed.

Lemma never_modify {S} e (f : S → S) : never e (modify f).
Proof. by intros s. Qed.

Lemma never_bind {S A B} e (c : M S A) (k : A → M S B) :
  never e c → (∀ a, never e (k a)) → never e (bind c k).
Proof.
  intros Hc Hk s. unfold bind. specialize (Hc s).
  destruct (c s) as [[a s']|e']; [apply Hk | intros [= ->]; by apply Hc].
Qed.

Lemma never_lift {S A B} e (r : result A) (k : A → M S B) :
  r ≠ Raise e → (∀ a, r = Ok a → never e (k a)) → never e (a <- lift r ;; k a).
Proof.
  intros Hr Hk s. unfold bind, lift. destruct r as [a|e']; [by apply Hk | congruence].
Qed.

Lemma never_when {S} e (c : bool) (body : M S unit) :
  (c = true → never e body) → never e (when c body).
Proof. destruct c; cbn; [auto | intros _; apply never_ret]. Qed.

Lemma never_for {S A} e (l : list A) (body : A → M S unit) :
  (∀ a, a ∈ l → never e (body a)) → never e (for_ l body).
Proof.
  induction l as [|a l IH]; intros Hb; [apply never_ret|].
  cbn. apply never_bind; [apply Hb; left|]. intros _. apply IH.
  intros a' Ha'. apply Hb. by right.
Qed.

Lemma gather_never {A B} e (l : list A) (f : A → result (list B)) :
  (∀ a, a ∈ l → f a ≠ Raise e) → gather l f ≠ Raise e.
Proof.
  induction l as [|a l IH]; intros Hf; [done|].
  cbn. specialize (Hf a (list_elem_of_here _ _)) as Ha.
  destruct (f a) as [bs|e']; [|done]. cbn.
  specialize (IH (λ a' Ha', Hf a' (list_elem_of_further _ _ _ Ha'))).
  by destruct (gather l f).
Qed.

Lemma rbind_never {A B} e (r : result A) (k : A → result B) :
  r ≠ Raise e → (∀ a, r = Ok a → k a ≠ Raise e) → rbind r k ≠ Raise e.
Proof. intros Hr Hk. destruct r as [a|e']; cbn; [by apply Hk | congruence]. Qed.

Lemma getitem_no_zde `{Countable K} {V} (d : gmap K V) k :
  getitem d k ≠ Raise ZeroDivisionError.
Proof. unfold getitem. by destruct (d !! k). Qed.

Lemma get_val_no_zde xs idx : get_val xs idx ≠ Raise ZeroDivisionError.
Proof. unfold get_val, list_getitem. by destruct (xs !! idx). Qed.

Lemma get_count_no_zde xs idx : get_count xs idx ≠ Raise ZeroDivisionError.
Proof. unfold get_count, get_val, list_getitem. by destruct (xs !! idx). Qed.

Lemma py_div_no_zde a b : b ≠ 0 → py_div a b ≠ Raise ZeroDivisionError.
Proof. intros Hb. unfold py_div. by rewrite decide_False. Qed.

Section Safety.
Variable P : Params.
Variable R : Builder.
Variable xs : list Q.

Lemma assign_duty_no_zde t v s d f :
  never ZeroDivisionError (assign_duty R xs t v s d f).
Proof.
  unfold assign_duty. destruct (use_vars R !! (t, v, s, d, f)); [|apply never_ret].
  apply never_lift; [apply getitem_no_zde|]. intros ik _.
  apply never_lift; [apply get_count_no_zde|]. intros needed _.
  apply never_lift; [apply get_val_no_zde|]. intros total_km _.
  apply never_when. intros Hpos%bool_decide_eq_true.
  apply never_lift; [apply py_div_no_zde; lia|]. intros avg _.
  apply never_modify.
Qed.

Lemma extract_buy_sell_no_zde :
  never ZeroDivisionError (extract_buy_sell P R xs).
Proof.
  apply never_for. intros t _. apply never_for. intros v _.
  apply never_for. intros s _. unfold extract_cell.
  apply never_lift; [apply getitem_no_zde|]. intros idx _.
  apply never_lift; [apply get_count_no_zde|]. intros val _.
  apply never_bind.
  - apply never_when. intros _. apply never_modify.
  - intros _. apply never_for. intros age _. unfold extract_sell.
    destruct (sell_vars R !! (t, v, s, age)); [|apply never_ret].
    apply never_lift; [apply get_count_no_zde|]. intros val' _.
    apply never_when. intros _. apply never_modify.
Qed.

Lemma build_pool_no_zde t v s :
  build_pool R xs t v s ≠ Raise ZeroDivisionError.
Proof.
  unfold build_pool. apply rbind_never.
  - unfold carried_over. destruct (bool_decide (base_year < t)); [|done].
    apply gather_never. intros age _.
    destruct (fleet_vars R !! (t - 1, v, s, age)); [|done].
    apply rbind_never; [apply get_count_no_zde|]. intros count _.
    by destruct (bool_decide (0 < count)).
  - intros pool _. apply rbind_never; [apply getitem_no_zde|]. intros idx _.
    apply rbind_never; [apply get_count_no_zde|]. intros bought _.
    by destruct (bool_decide (0 < bought)).
Qed.

Lemma decode_year_no_zde t : never ZeroDivisionError (decode_year P R xs t).
Proof.
  intros rows. unfold decode_year. apply rbind_never.
  - apply never_for. intros v _. apply never_for. intros s _.
    apply never_lift; [apply build_pool_no_zde|]. intros pool _. apply never_modify.
  - intros [[] fp] _. apply rbind_never; [|by intros [[] st] _].
    apply never_for. intros v _. apply never_for. intros s _.
    apply never_for. intros d _. apply never_for. intros f _.
    apply assign_duty_no_zde.
Qed.

Lemma decode_no_zde : decode P R xs ≠ Raise ZeroDivisionError.
Proof.
  unfold decode. apply rbind_never; [apply extract_buy_sell_no_zde|].
  intros [[] rows0] _. apply rbind_never; [|by intros [[] rows1] _].
  apply never_for. intros t _. apply decode_year_no_zde.
Qed.

(** A duty whose Use value does not round to a positive count leaves
    the rows and the pools as they are. *)
Lemma assign_duty_skip t v s d f iu ik qu qk st :
  use_vars R !! (t, v, s, d, f) = Some iu →
  km_vars R !! (t, v, s, d, f) = Some ik →
  xs !! iu = Some qu → xs !! ik = Some qk → py_round qu ≤ 0 →
  assign_duty R xs t v s d f st = Ok (tt, st).
Proof.
  intros Hiu Hik Hqu Hqk Hround. unfold assign_duty. rewrite Hiu.
  unfold bind, lift. rewrite (getitem_Some _ _ _ Hik).
  unfold get_count, get_val, list_getitem. rewrite Hqu, Hqk. cbn.
  by rewrite bool_decide_eq_false_2 by lia.
Qed.

End Safety.

(** ** The decoder returns *)

Lemma total_ret {S} : total (S := S) (ret tt).
Proof. intros s. by exists s. Qed.

Lemma total_modify {S} (f : S → S) : total (modify f).
Proof. intros s. by eexists. Qed.

Lemma total_seq {S} (c1 c2 : M S unit) : total c1 → total c2 → total (c1 ;; c2).
Proof.
  intros H1 H2 s. destruct (H1 s) as [s1 Hs1]. destruct (H2 s1) as [s2 Hs2].
  exists s2. unfold bind. by rewrite Hs1.
Qed.

Lemma total_lift {S A} (r : result A) (k : A → M S unit) a :
  r = Ok a → total (k a) → total (x <- lift r ;; k x).
Proof. intros -> Hk s. apply Hk. Qed.

Lemma total_when {S} (c : bool) (body : M S unit) :
  (c = true → total body) → total (when c body).
Proof. destruct c; cbn; [auto | intros _; apply total_ret]. Qed.

Lemma total_for {S A} (l : list A) (body : A → M S unit) :
  (∀ a, a ∈ l → total (body a)) → total (for_ l body).
Proof.
  induction l as [|a l IH]; intros Hb; [apply total_ret|].
  cbn. apply total_seq; [apply Hb; left|]. apply IH.
  intros a' Ha'. apply Hb. by right.
Qed.

Section Totality.
Variable P : Params.
Variable R : Builder.
Variable xs : list Q.
Hypothesis HR : variables_ok P R.
Hypothesis Hlen : length xs = length (var_names (model R)).

Lemma registered_value key idx :
  reg_lookup R key = Some idx → ∃ q, xs !! idx = Some q.
Proof.
  intros Hk. apply (vo_var P R HR) in Hk as [Hn _].
  apply lookup_lt_Some in Hn. apply lookup_lt_is_Some_2. lia.
Qed.

Lemma registered_count key idx :
  reg_lookup R key = Some idx → ∃ q, get_count xs idx = Ok (py_round q) ∧
                                     get_val xs idx = Ok q.
Proof.
  intros [q Hq]%registered_value. exists q.
  unfold get_count, get_val, list_getitem. by rewrite Hq.
Qed.

Lemma extract_buy_sell_total : total (extract_buy_sell P R xs).
Proof.
  apply total_for. intros t Ht. apply total_for. intros v Hv.
  apply total_for. intros s Hs. unfold extract_cell.
  destruct (proj2 (vo_reg P R HR (KBuy (t, v, s)))) as [idx Hidx]; [done|].
  destruct (registered_count _ _ Hidx) as (q & Hq & _).
  eapply total_lift; [by apply getitem_Some|].
  eapply total_lift; [exact Hq|].
  apply total_seq; [apply total_when; intros _; apply total_modify|].
  apply total_for. intros age _. unfold extract_sell.
  destruct (sell_vars R !! (t, v, s, age)) as [i|] eqn:Hi; [|apply total_ret].
  destruct (registered_count (KSell (t, v, s, age)) i Hi) as (q' & Hq' & _).
  eapply total_lift; [exact Hq'|]. apply total_when. intros _. apply total_modify.
Qed.

Lemma build_pool_total t v s :
  t ∈ years P → v ∈ vehicle_types P → s ∈ sizes P →
  is_ok (build_pool R xs t v s).
Proof.
  intros Ht Hv Hs. unfold build_pool.
  assert (is_ok (carried_over R xs t v s)) as Hc.
  { unfold carried_over. destruct (bool_decide (base_year < t)); [|done].
    apply gather_ok. intros age _.
    destruct (fleet_vars R !! (t - 1, v, s, age)) as [i|] eqn:Hi; [|done].
    destruct (registered_count (KFleet (t - 1, v, s, age)) i Hi) as (q & -> & _).
    cbn. by destruct (bool_decide (0 < py_round q)). }
  destruct (carried_over R xs t v s) as [pool|]; [|done]. cbn.
  destruct (proj2 (vo_reg P R HR (KBuy (t, v, s)))) as [idx Hidx]; [done|].
  destruct (registered_count _ _ Hidx) as (q & Hq & _).
  cbn in Hidx. rewrite (getitem_Some _ _ _ Hidx). cbn. rewrite Hq. cbn.
  by destruct (bool_decide (0 < py_round q)).
Qed.

Lemma assign_duty_total t v s d f : total (assign_duty R xs t v s d f).
Proof.
  unfold assign_duty.
  destruct (use_vars R !! (t, v, s, d, f)) as [iu|] eqn:Hiu; [|apply total_ret].
  destruct (proj2 (vo_reg P R HR (KKm (t, v, s, d, f)))) as [ik Hik].
  { apply (vo_reg P R HR (KUse (t, v, s, d, f))). cbn. by rewrite Hiu. }
  destruct (registered_count (KUse (t, v, s, d, f)) iu Hiu) as (qu & Hqu & _).
  destruct (registered_count (KKm (t, v, s, d, f)) ik Hik) as (qk & _ & Hqk).
  eapply total_lift; [by apply getitem_Some|].
  eapply total_lift; [exact Hqu|]. eapply total_lift; [exact Hqk|].
  apply total_when. intros Hpos%bool_decide_eq_true.
  eapply total_lift; [|apply total_modify].
  unfold py_div. rewrite decide_False by lia. reflexivity.
Qed.

Lemma decode_year_total t : t ∈ years P → total (decode_year P R xs t).
Proof.
  intros Ht rows. unfold decode_year.
  assert (total (build_fleet_pool P R xs t)) as Hfp.
  { apply total_for. intros v Hv. apply total_for. intros s Hs.
    pose proof (build_pool_total t v s Ht Hv Hs) as Hok.
    destruct (build_pool R xs t v s) as [pool|] eqn:Hpool; [|done].
    eapply total_lift; [reflexivity|]. apply total_modify. }
  destruct (Hfp ∅) as [fp ->]. cbn.
  assert (total (assign_tasks P R xs t)) as Hat.
  { apply total_for. intros v _. apply total_for. intros s _.
    apply total_for. intros d _. apply total_for. intros f _.
    apply assign_duty_total. }
  destruct (Hat {| final_submission := rows; fleet_pool := fp |}) as [st ->].
  by eexists.
Qed.

(** On a built model and a vector with one value per variable, the
    decoder returns the rows of a submission. *)
Lemma decode_total : ∃ rows, decode P R xs = Ok rows.
Proof.
  unfold decode. destruct (extract_buy_sell_total []) as [rows0 ->]. cbn.
  destruct (total_for (years P) (decode_year P R xs) decode_year_total rows0)
    as [rows1 ->].
  by eexists.
Qed.

End Totality.

(** ** The decoder reads the rounded assignment only *)

Lemma gather_ext {A B} (l : list A) (f g : A → result (list B)) :
  (∀ a, a ∈ l → f a = g a) → gather l f = gather l g.
Proof.
  induction l as [|a l IH]; intros Hfg; [done|].
  cbn. rewrite Hfg by left. rewrite IH; [done|].
  intros a' Ha'. apply Hfg. by right.
Qed.

Section SameRounded.
Variable P : Params.
Variable R : Builder.
Variables xs xs' : list Q.
Hypothesis Hsame : same_rounded R xs xs'.

Lemma same_count `{Countable K} (reg : gmap K nat) k idx :
  reg !! k = Some idx → (map_to_list reg).*2 ⊆ count_indices R →
  get_count xs idx = get_count xs' idx.
Proof.
  intros Hk Hsub. destruct Hsame as [Hc _]. rewrite Forall_forall in Hc.
  assert (py_round <$> xs !! idx = py_round <$> xs' !! idx) as Hidx.
  { apply Hc, Hsub. apply list_elem_of_fmap. exists (k, idx).
    split; [done|]. by apply elem_of_map_to_list. }
  unfold get_count, get_val, list_getitem.
  destruct (xs !! idx), (xs' !! idx); cbn in *; congruence.
Qed.

Lemma same_buy k idx :
  buy_vars R !! k = Some idx → get_count xs idx = get_count xs' idx.
Proof. intros Hk. eapply same_count; [done|]. unfold count_indices. set_solver. Qed.

Lemma same_sell k idx :
  sell_vars R !! k = Some idx → get_count xs idx = get_count xs' idx.
Proof. intros Hk. eapply same_count; [done|]. unfold count_indices. set_solver. Qed.

Lemma same_fleet k idx :
  fleet_vars R !! k = Some idx → get_count xs idx = get_count xs' idx.
Proof. intros Hk. eapply same_count; [done|]. unfold count_indices. set_solver. Qed.

Lemma same_use k idx :
  use_vars R !! k = Some idx → get_count xs idx = get_count xs' idx.
Proof. intros Hk. eapply same_count; [done|]. unfold count_indices. set_solver. Qed.

Lemma same_km k idx :
  km_vars R !! k = Some idx → get_val xs idx = get_val xs' idx.
Proof.
  intros Hk. destruct Hsame as [_ Hkm]. rewrite Forall_forall in Hkm.
  unfold get_val, list_getitem. rewrite (Hkm idx); [done|].
  apply list_elem_of_fmap. exists (k, idx). split; [done|].
  by apply elem_of_map_to_list.
Qed.

Lemma extract_buy_sell_same rows :
  extract_buy_sell P R xs rows = extract_buy_sell P R xs' rows.
Proof.
  apply for__ext. intros t s0 _. apply for__ext. intros v s1 _.
  apply for__ext. intros s s2 _. unfold extract_cell, bind, lift, getitem.
  destruct (buy_vars R !! (t, v, s)) as [idx|] eqn:Hidx; [|done].
  rewrite (same_buy _ _ Hidx).
  destruct (get_count xs' idx) as [val|]; [|done].
  destruct (when (bool_decide (0 < val)) _ s2) as [[[] s3]|]; [|done].
  apply for__ext. intros age s4 _. unfold extract_sell.
  destruct (sell_vars R !! (t, v, s, age)) as [i|] eqn:Hi; [|done].
  unfold bind, lift. by rewrite (same_sell _ _ Hi).
Qed.

Lemma build_pool_same t v s : build_pool R xs t v s = build_pool R xs' t v s.
Proof.
  unfold build_pool.
  assert (carried_over R xs t v s = carried_over R xs' t v s) as ->.
  { unfold carried_over. destruct (bool_decide (base_year < t)); [|done].
    apply gather_ext. intros age _.
    destruct (fleet_vars R !! (t - 1, v, s, age)) as [i|] eqn:Hi; [|done].
    by rewrite (same_fleet _ _ Hi). }
  destruct (carried_over R xs' t v s) as [pool|]; [|done]. cbn.
  unfold getitem. destruct (buy_vars R !! (t, v, s)) as [idx|] eqn:Hidx; [|done].
  cbn. by rewrite (same_buy _ _ Hidx).
Qed.

Lemma assign_duty_same t v s d f st :
  assign_duty R xs t v s d f st = assign_duty R xs' t v s d f st.
Proof.
  unfold assign_duty.
  destruct (use_vars R !! (t, v, s, d, f)) as [iu|] eqn:Hiu; [|done].
  unfold bind, lift, getitem.
  destruct (km_vars R !! (t, v, s, d, f)) as [ik|] eqn:Hik; [|done].
  by rewrite (same_use _ _ Hiu), (same_km _ _ Hik).
Qed.

Lemma decode_year_same t rows :
  decode_year P R xs t rows = decode_year P R xs' t rows.
Proof.
  unfold decode_year.
  assert (build_fleet_pool P R xs t ∅ = build_fleet_pool P R xs' t ∅) as ->.
  { apply for__ext. intros v s0 _. apply for__ext. intros s s1 _.
    unfold bind, lift. by rewrite build_pool_same. }
  destruct (build_fleet_pool P R xs' t ∅) as [[[] fp]|]; [|done]. cbn.
  assert (∀ st, assign_tasks P R xs t st = assign_tasks P R xs' t st) as ->; [|done].
  intros st. apply for__ext. intros v s0 _. apply for__ext. intros s s1 _.
  apply for__ext. intros d s2 _. apply for__ext. intros f s3 _.
  apply assign_duty_same.
Qed.

Lemma decode_same : decode P R xs = decode P R xs'.
Proof.
  unfold decode. rewrite extract_buy_sell_same.
  destruct (extract_buy_sell P R xs' []) as [[[] rows0]|]; [|done]. cbn.
  rewrite (for__ext (years P) (decode_year P R xs) (decode_year P R xs')
             (λ t rows _, decode_year_same t rows)).
  done.
Qed.

End SameRounded.

(** ** The pipeline *)

Lemma solve_optimization_built milp data P R :
  build_model data = Ok (P, R) →
  solve_optimization milp data =
    if negb (success (milp (model R))) then
      Ok {| printed := run_log (model R) (milp (model R)) ++ ["Optimization failed!"];
            submission := None |}
    else
      rbind (decode P R (res_x (milp (model R)))) (λ rows,
      if bool_decide (rows = []) then Raise KeyError
      else Ok {| printed := run_log (model R) (milp (model R))
                              ++ ["Submission saved to submission.csv"];
                 submission := Some rows |}).
Proof.
  intros Hb. unfold solve_optimization. rewrite Hb. cbn.
  destruct (success (milp (model R))); cbn; [|done].
  destruct (decode P R (res_x (milp (model R)))) as [rows|]; [|done]. cbn.
  by destruct (bool_decide (rows = [])).
Qed.

Lemma pool_total_nonneg pool : pool_nonneg pool → 0 ≤ pool_total pool.
Proof. unfold pool_total. induction 1; cbn; lia. Qed.

Lemma pool_total_zero pool :
  pool_nonneg pool → pool_total pool = 0 → Forall (λ it, item_count it = 0) pool.
Proof.
  unfold pool_total. induction 1 as [|it pool Hit Hpool IH]; cbn; [done|].
  intros Hsum. pose proof (pool_total_nonneg pool Hpool) as Hnn.
  unfold pool_total in Hnn. constructor; [lia|]. apply IH. lia.
Qed.

(** ** The small instance *)

Lemma demo_parameters : parameters demo_data = Ok demo_params.
Proof.
  assert (is_ok (parameters demo_data)) as Hok by (vm_compute; exact I).
  unfold demo_params. by destruct (parameters demo_data).
Qed.

Lemma demo_horizon : contiguous_horizon demo_params.
Proof. exists 2. vm_compute. reflexivity. Qed.

Lemma demo_demand_complete : demand_complete demo_params.
Proof. apply demand_completeb_true. vm_compute. reflexivity. Qed.

Lemma demo_built : build_model demo_data = Ok (demo_params, demo_model).
Proof.
  destruct (build_model_ok demo_data demo_params demo_parameters demo_horizon
              demo_demand_complete) as (R & _ & _ & _ & _ & Hb & _).
  unfold demo_model. by rewrite Hb.
Qed.

Lemma demo_created :
  create_variables demo_params new_builder = Ok (tt, demo_builder).
Proof.
  destruct (create_variables_declared demo_params) as (R & Hrun & _).
  unfold demo_builder. by rewrite Hrun.
Qed.

(** ** Every variable of the model *)

(** An invariant of each creation of a variable is an invariant of the
    whole creation of the variables. *)
Lemma create_variables_preserves P (inv : Builder → Prop) :
  (∀ key n o, preserves inv (i <- new_variable n o ;; set_reg key i)) →
  preserves inv (create_variables P).
Proof.
  intros Hnew. unfold create_variables.
  apply preserves_for. intros t _. apply preserves_for. intros v _.
  apply preserves_for. intros s _. unfold create_cell.
  eapply preserves_ext; [|apply preserves_seq; [apply (Hnew (KBuy (t, v, s)))|]].
  { intros b. by rewrite bind_assoc. }
  apply preserves_seq.
  { apply preserves_for. intros age _. apply preserves_when. intros _.
    apply (Hnew (KFleet (t, v, s, age))). }
  apply preserves_seq.
  { apply preserves_for. intros age _. apply preserves_when. intros _.
    apply (Hnew (KSell (t, v, s, age))). }
  apply preserves_for. intros d _. apply preserves_for. intros f _.
  unfold create_use_km. apply preserves_when. intros [cons Hcons]%contains_true.
  eapply preserves_ext; [|apply preserves_seq;
    [apply (Hnew (KUse (t, v, s, d, f)))
    |apply (Hnew (KKm (t, v, s, d, f)) (km_name t v s d f) (cost_per_km P t f cons))]].
  intros b. unfold bind, lift, getitem. cbn. by rewrite Hcons.
Qed.

Lemma relaxed_new_variable key n o :
  preserves (λ b, relaxed (model b) ∧ vars_aligned (model b))
    (i <- new_variable n o ;; set_reg key i).
Proof.
  intros b b' [(Ht & Hl & Hu) (At & Al & Au & Ao)] Hrun.
  apply bind_ok in Hrun as (i & b1 & Hnew & Hset).
  unfold new_variable in Hnew. cbn in Hnew. injection Hnew as <- <-.
  rewrite (model_set_reg _ _ _ _ Hset). cbn. split.
  - unfold relaxed. cbn. rewrite !Forall_app, !Forall_singleton. done.
  - unfold vars_aligned. cbn. rewrite !length_app. cbn. lia.
Qed.

Lemma create_variables_relaxed P b :
  create_variables P new_builder = Ok (tt, b) →
  relaxed (model b) ∧ vars_aligned (model b).
Proof.
  intros Hrun.
  eapply (create_variables_preserves P (λ b, relaxed (model b) ∧ vars_aligned (model b)));
    [apply relaxed_new_variable| |exact Hrun].
  split; [by repeat split | by repeat split].
Qed.

Lemma variable_Some m i name ty lb ub obj :
  var_names m !! i = Some name → var_types m !! i = Some ty →
  lbs m !! i = Some lb → ubs m !! i = Some ub → obj_coeffs m !! i = Some obj →
  variable m i = Some (name, ty, lb, ub, obj).
Proof. unfold variable. by intros -> -> -> -> ->. Qed.

Lemma variable_vars_of m m' i : vars_of m' = vars_of m → variable m' i = variable m i.
Proof.
  unfold vars_of, variable. intros [= H1 H2 H3 H4 H5 _]. by rewrite H1, H2, H3, H4, H5.
Qed.

Lemma relaxed_vars_of m m' : vars_of m' = vars_of m → relaxed m → relaxed m'.
Proof.
  unfold vars_of, relaxed. intros [= _ H2 H3 H4 _ _]. by rewrite H2, H3, H4.
Qed.

Lemma vars_aligned_vars_of m m' :
  vars_of m' = vars_of m → vars_aligned m → vars_aligned m'.
Proof.
  unfold vars_of, vars_aligned. intros [= H1 H2 H3 H4 H5 _].
  by rewrite H1, H2, H3, H4, H5.
Qed.

(** What [build_model] is made of. *)
Lemma build_model_steps data P R :
  build_model data = Ok (P, R) →
  ∃ b m, parameters data = Ok P ∧
         create_variables P new_builder = Ok (tt, b) ∧
         add_constraints P b (model b) = Ok (tt, m) ∧
         R = with_model b m.
Proof.
  unfold build_model. intros (P' & HP & H)%rbind_ok.
  apply rbind_ok in H as ([[] b] & Hb & H).
  apply rbind_ok in H as ([[] m] & Hm & [= <- <-]).
  by exists b, m.
Qed.

(** ** The capacity links and the usage limit *)

Lemma fmap_bind_comm {A B C} (g : B → C) (l : list A) (h : A → list B) :
  g <$> (l ≫= h) = l ≫= (λ a, g <$> h a).
Proof. induction l as [|a l IH]; [done|]. cbn. by rewrite fmap_app, IH. Qed.

Lemma use_terms_indices P R t v s :
  use_terms P R t v s = (λ i, (1%Q, i)) <$> use_indices P R t v s.
Proof.
  unfold use_terms, use_indices. rewrite fmap_bind_comm.
  apply list_bind_ext; [|done]. intros d. rewrite fmap_bind_comm.
  apply list_bind_ext; [|done]. intros f.
  by destruct (use_vars R !! (t, v, s, d, f)).
Qed.

Lemma fleet_terms_indices R t v s :
  fleet_terms R t v s = (λ i, ((-1)%Q, i)) <$> fleet_indices R t v s.
Proof.
  unfold fleet_terms, fleet_indices. rewrite fmap_bind_comm.
  apply list_bind_ext; [|done]. intros age.
  by destruct (fleet_vars R !! (t, v, s, age)).
Qed.

Lemma row_sum_app xs t1 t2 :
  (row_sum xs (t1 ++ t2) == row_sum xs t1 + row_sum xs t2)%Q.
Proof.
  unfold row_sum. induction t1 as [|[q i] t1 IH]; cbn.
  - lra.
  - rewrite IH. lra.
Qed.

Lemma row_sum_plus xs l :
  (row_sum xs ((λ i, (1%Q, i)) <$> l) == total_value xs l)%Q.
Proof.
  unfold row_sum, total_value. induction l as [|i l IH]; cbn; [lra|].
  rewrite IH. lra.
Qed.

Lemma row_sum_minus xs l :
  (row_sum xs ((λ i, ((-1)%Q, i)) <$> l) == - total_value xs l)%Q.
Proof.
  unfold row_sum, total_value. induction l as [|i l IH]; cbn; [lra|].
  rewrite IH. lra.
Qed.

Lemma elem_of_use_indices P R t v s i :
  i ∈ use_indices P R t v s ↔
  ∃ d f, d ∈ distances P ∧ f ∈ fuels P ∧ use_vars R !! (t, v, s, d, f) = Some i.
Proof.
  unfold use_indices. rewrite list_elem_of_bind. split.
  - intros (d & (f & Hi & Hf)%list_elem_of_bind & Hd).
    exists d, f. split_and!; [done | done |].
    destruct (use_vars R !! (t, v, s, d, f)); cbn in Hi.
    + by apply list_elem_of_singleton in Hi as ->.
    + by apply elem_of_nil in Hi.
  - intros (d & f & Hd & Hf & Hi). exists d. split; [|done].
    apply list_elem_of_bind. exists f. split; [|done]. rewrite Hi. by left.
Qed.

Lemma elem_of_fleet_indices R t v s i :
  i ∈ fleet_indices R t v s ↔
  ∃ age, 0 ≤ age ≤ 10 ∧ fleet_vars R !! (t, v, s, age) = Some i.
Proof.
  unfold fleet_indices. rewrite list_elem_of_bind. split.
  - intros (age & Hi & Hage%elem_of_range). exists age. split; [lia|].
    destruct (fleet_vars R !! (t, v, s, age)); cbn in Hi.
    + by apply list_elem_of_singleton in Hi as ->.
    + by apply elem_of_nil in Hi.
  - intros (age & Hage & Hi). exists age. split.
    + rewrite Hi. by left.
    + apply elem_of_range. lia.
Qed.

(** The capacity link of a Km variable, in the built model: a feasible
    assignment has [Km <= range * Use], with the range of the class in the
    year of the duty. *)
Lemma capacity_link_row data P R xs t v s d f iu ik :
  build_model data = Ok (P, R) → feasible xs (model R) →
  use_vars R !! (t, v, s, d, f) = Some iu →
  km_vars R !! (t, v, s, d, f) = Some ik →
  (value xs ik <= dict_get (vehicle_range P) (v, s, t) 0 * value xs iu)%Q.
Proof.
  intros Hbuild Hxs Hiu Hik.
  destruct (build_model_inv data P R Hbuild)
    as (t1 & t2 & t3 & t4 & Hpar & HR & _ & _ & H2 & _ & _ & Hrows).
  pose proof (vo_reg P R HR) as Hreg.
  assert (declared P (KKm (t, v, s, d, f))) as (Ht & Hv & Hs & Hd & Hf & _).
  { apply Hreg. cbn. by rewrite Hik. }
  destruct (link_km_use_rows_in P R Hreg t s d v f ik Hik) as (iu' & Hiu' & Hlink).
  assert (iu' = iu) as -> by congruence.
  apply satisfies_link, Hxs.
  rewrite Hrows, !elem_of_app. right. left.
  destruct (gather_ok_inv _ _ _ t H2 Ht) as (tr1 & Htr1).
  destruct (gather_ok_inv _ _ _ s Htr1 Hs) as (tr2 & Htr2).
  destruct (gather_ok_inv _ _ _ d Htr2 Hd) as (tr & Hcell).
  eapply demand_cell_rows_sub; [exact Ht | exact Hs | exact Hd | exact H2
                               | exact Hcell |].
  pose proof Hcell as Hcell'. unfold demand_cell_rows in Hcell'.
  apply rbind_ok in Hcell' as (dem & Hdem & _).
  unfold getitem in Hdem. destruct (demand_dict P !! (t, s, d)) as [dem'|] eqn:E;
    [|done]. injection Hdem as ->.
  destruct (demand_cell_rows_in P R Hreg t s d dem E) as (links & Hcell2 & Hlinks).
  rewrite Hcell in Hcell2. injection Hcell2 as ->. right.
  destruct (gather_ok_inv _ _ _ v Hlinks Hv) as (l1 & Hl1).
  eapply gather_sub; [exact Hlinks | exact Hv | exact Hl1 |].
  eapply gather_sub; [exact Hl1 | exact Hf | exact Hlink | by left].
Qed.

(** ** The exceptions of the constraint generator *)

Lemma only_raises_ok {A} e0 (a : A) : only_raises e0 (Ok a).
Proof. by intros e. Qed.

Lemma only_raises_rbind {A B} e0 (r : result A) (k : A → result B) :
  only_raises e0 r → (∀ a, r = Ok a → only_raises e0 (k a)) →
  only_raises e0 (rbind r k).
Proof.
  intros Hr Hk e. destruct r as [a|e']; cbn.
  - by apply Hk.
  - intros [= ->]. by apply Hr.
Qed.

Lemma only_raises_gather {A B} e0 (l : list A) (f : A → result (list B)) :
  (∀ a, a ∈ l → only_raises e0 (f a)) → only_raises e0 (gather l f).
Proof.
  induction l as [|a l IH]; intros Hf; cbn; [apply only_raises_ok|].
  apply only_raises_rbind; [apply Hf; by left|]. intros bs _.
  apply only_raises_rbind; [apply IH; intros; apply Hf; by right|].
  intros; apply only_raises_ok.
Qed.

Lemma only_raises_getitem `{Countable K} {V} (d : gmap K V) (k : K) :
  only_raises KeyError (getitem d k).
Proof. unfold getitem. intros e. destruct (d !! k); congruence. Qed.

Lemma only_raises_seq_rows e0 (r1 r2 : result (list constraint)) :
  only_raises e0 r1 → only_raises e0 r2 → only_raises e0 (seq_rows r1 r2).
Proof.
  intros H1 H2. unfold seq_rows. apply only_raises_rbind; [done|]. intros t1 _.
  apply only_raises_rbind; [done|]. intros; apply only_raises_ok.
Qed.

Lemma only_raises_if {A} e0 (c : bool) (r1 r2 : result A) :
  only_raises e0 r1 → only_raises e0 r2 → only_raises e0 (if c then r1 else r2).
Proof. by destruct c. Qed.

Lemma fleet_dynamics_rows_key_error P R :
  only_raises KeyError (fleet_dynamics_rows P R).
Proof.
  unfold fleet_dynamics_rows.
  apply only_raises_gather; intros t _. apply only_raises_gather; intros v _.
  apply only_raises_gather; intros s _. unfold fleet_cell_rows.
  apply only_raises_rbind; [apply only_raises_getitem|]. intros f0 _.
  apply only_raises_rbind; [apply only_raises_getitem|]. intros b0 _.
  apply only_raises_seq_rows; [apply only_raises_ok|].
  apply only_raises_gather; intros age _. unfold fleet_aging_rows.
  apply only_raises_if; [|apply only_raises_ok].
  apply only_raises_rbind; [apply only_raises_getitem|]. intros fa _.
  apply only_raises_rbind; [apply only_raises_getitem|]. intros sa _.
  apply only_raises_rbind.
  { apply only_raises_if; [|apply only_raises_ok].
    apply only_raises_rbind; [apply only_raises_getitem|]. intros; apply only_raises_ok. }
  intros terms _. apply only_raises_seq_rows; [apply only_raises_ok|].
  apply only_raises_if; [|apply only_raises_ok].
  apply only_raises_rbind; [apply only_raises_getitem|]. intros sa' _.
  apply only_raises_rbind; [apply only_raises_getitem|]. intros; apply only_raises_ok.
Qed.

Lemma demand_satisfaction_rows_key_error P R :
  only_raises KeyError (demand_satisfaction_rows P R).
Proof.
  unfold demand_satisfaction_rows.
  apply only_raises_gather; intros t _. apply only_raises_gather; intros s _.
  apply only_raises_gather; intros d _. unfold demand_cell_rows.
  apply only_raises_rbind; [apply only_raises_getitem|]. intros dem _.
  apply only_raises_seq_rows; [apply only_raises_ok|].
  apply only_raises_gather; intros v _. apply only_raises_gather; intros f _.
  unfold link_km_use_rows. destruct (km_vars R !! (t, v, s, d, f)); [|apply only_raises_ok].
  apply only_raises_rbind; [apply only_raises_getitem|]. intros; apply only_raises_ok.
Qed.

Lemma usage_limit_rows_key_error P R : only_raises KeyError (usage_limit_rows P R).
Proof.
  unfold usage_limit_rows.
  apply only_raises_gather; intros t _. apply only_raises_gather; intros v _.
  apply only_raises_gather; intros s _. apply only_raises_ok.
Qed.

Lemma emission_caps_rows_key_error P R : only_raises KeyError (emission_caps_rows P R).
Proof.
  unfold emission_caps_rows. apply only_raises_gather; intros t _.
  apply only_raises_rbind.
  { unfold emission_terms.
    apply only_raises_gather; intros v _. apply only_raises_gather; intros s _.
    apply only_raises_gather; intros d _. apply only_raises_gather; intros f _.
    destruct (km_vars R !! (t, v, s, d, f)); [|apply only_raises_ok].
    apply only_raises_rbind; [apply only_raises_getitem|]. intros; apply only_raises_ok. }
  intros terms _.
  apply only_raises_rbind; [apply only_raises_getitem|]. intros; apply only_raises_ok.
Qed.

Lemma add_constraints_rows_key_error P R :
  only_raises KeyError (add_constraints_rows P R).
Proof.
  unfold add_constraints_rows.
  apply only_raises_seq_rows; [apply fleet_dynamics_rows_key_error|].
  apply only_raises_seq_rows; [apply demand_satisfaction_rows_key_error|].
  apply only_raises_seq_rows;
    [apply usage_limit_rows_key_error | apply emission_caps_rows_key_error].
Qed.

(** The run of [build_model] after the parameters are read: it ends as
    the rows of the generator do. *)
Lemma build_model_rows data P :
  parameters data = Ok P →
  ∃ b, create_variables P new_builder = Ok (tt, b) ∧ registries_of P b ∧
    match add_constraints_rows P b with
    | Ok tr => ∃ m, build_model data = Ok (P, with_model b m) ∧ rows m = tr
    | Raise e => build_model data = Raise e
    end.
Proof.
  intros HP. destruct (create_variables_declared P) as (b & Hb & Hreg).
  exists b. split; [done|]. split; [done|].
  pose proof (create_variables_inv P b Hb) as Hinv.
  pose proof (generates_add_constraints P b (model b) (proj1 (builder_inv_wf P b Hinv)))
    as Hgen.
  unfold build_model. rewrite HP. cbn. rewrite Hb. cbn.
  destruct (add_constraints_rows P b) as [tr|e].
  - destruct Hgen as (m & Hm & Hrows & _). rewrite Hm. cbn. exists m. split; [done|].
    rewrite Hrows. by rewrite (proj2 (builder_inv_wf P b Hinv)).
  - by rewrite Hgen.
Qed.

Lemma getitem_ok `{Countable K} {V} (d : gmap K V) (k : K) (v : V) :
  getitem d k = Ok v → d !! k = Some v.
Proof. unfold getitem. destruct (d !! k); congruence. Qed.

Lemma params_of_ok data : is_ok (parameters data) → parameters data = Ok (params_of data).
Proof. unfold params_of. by destruct (parameters data). Qed.

(** ** Batch ids, written and read back *)

Lemma digit_of_char a d :
  digit_of a = Some d →
  is_space a = false ∧ a ≠ "-"%char ∧ a ≠ "+"%char ∧ a ≠ underscore.
Proof.
  destruct a as [[] [] [] [] [] [] [] []]; intros H; try (by compute in H);
    by repeat split.
Qed.

Lemma digit_of_pretty_N_char x :
  (x < 10)%N → digit_of (pretty_N_char x) = Some (Z.of_N x).
Proof.
  intros Hx.
  assert (x = 0 ∨ x = 1 ∨ x = 2 ∨ x = 3 ∨ x = 4 ∨ x = 5 ∨ x = 6 ∨ x = 7 ∨ x = 8 ∨ x = 9)%N
    as Hc by lia.
  repeat (destruct Hc as [-> | Hc]; [reflexivity|]). by subst.
Qed.

Lemma all_digits_pretty_N_go x s : all_digits s → all_digits (pretty_N_go x s).
Proof.
  revert s. induction (N.lt_wf_0 x) as [x _ IH]; intros s Hs.
  assert (x = 0 ∨ 0 < x)%N as [-> | Hx] by lia; [by rewrite pretty_N_go_0|].
  rewrite pretty_N_go_step by done. apply IH; [by apply N.div_lt|].
  split; [|done]. rewrite digit_of_pretty_N_char; [done|].
  by apply N.mod_lt.
Qed.

Lemma digits_pretty_N_go x s b :
  digits (pretty_N_go x s) 0 b
  = digits s (Z.of_N x) (b || bool_decide (0 < x)%N).
Proof.
  revert s b. induction (N.lt_wf_0 x) as [x _ IH]; intros s b.
  assert (x = 0 ∨ 0 < x)%N as [-> | Hx] by lia.
  { rewrite pretty_N_go_0. cbn. by rewrite orb_false_r. }
  rewrite pretty_N_go_step by done. rewrite IH by (by apply N.div_lt).
  cbn [digits]. rewrite digit_of_pretty_N_char by (by apply N.mod_lt).
  rewrite (bool_decide_eq_true_2 (0 < x)%N) by done. rewrite orb_true_r.
  f_equal. rewrite (N.div_mod x 10) at 3 by done. lia.
Qed.

Lemma lstrip_no_space a s : is_space a = false → lstrip (String a s) = String a s.
Proof. cbn. by intros ->. Qed.

Lemma rev_app_rev_app s1 s2 s3 :
  String.rev_app (String.rev_app s1 s2) s3 = String.rev_app s2 (s1 +:+ s3).
Proof.
  revert s2. induction s1 as [|a s1 IH]; intros s2; cbn; [done|]. by rewrite IH.
Qed.

Lemma string_app_nil_r (s : string) : s +:+ "" = s.
Proof.
  induction s as [|a s IH]; [done|].
  change (String a (s +:+ "") = String a s). by rewrite IH.
Qed.

Lemma rev_rev s : String.rev (String.rev s) = s.
Proof. unfold String.rev. by rewrite rev_app_rev_app, string_app_nil_r. Qed.

(** The last character of a string that is not empty comes first in
    the reversed string. *)
Lemma rev_app_head s1 a s2 (Q : ascii → Prop) :
  Q a → (∀ b, b ∈ String.list_ascii_of_string s1 → Q b) →
  ∃ b s', String.rev_app s1 (String a s2) = String b s' ∧ Q b.
Proof.
  revert a s2. induction s1 as [|c s1 IH]; intros a s2 Ha Hall; cbn.
  - by exists a, s2.
  - apply IH; [apply Hall; cbn; left | intros b Hb; apply Hall; cbn; by right].
Qed.

Lemma all_digits_chars s b :
  all_digits s → b ∈ String.list_ascii_of_string s → is_Some (digit_of b).
Proof.
  induction s as [|a s IH]; cbn; [by intros _ ?%elem_of_nil|].
  intros [Ha Hs] [-> | Hb]%elem_of_cons; [done | by apply IH].
Qed.

(** A string whose first and last characters are no white space is not
    touched by [strip]. *)
Lemma strip_digits a s :
  is_space a = false → all_digits s → strip (String a s) = String a s.
Proof.
  intros Ha Hs. unfold strip. rewrite lstrip_no_space by done.
  destruct (rev_app_head s a "" (λ b, is_space b = false)) as (b & s' & Hrev & Hb).
  { done. }
  { intros b Hb. destruct (all_digits_chars s b Hs Hb) as [d Hd].
    by apply digit_of_char in Hd as [? _]. }
  assert (String.rev (String a s) = String b s') as Hr.
  { unfold String.rev. cbn. exact Hrev. }
  rewrite Hr, lstrip_no_space by done. rewrite <- Hr. apply rev_rev.
Qed.

Lemma pretty_positive_digits (p : positive) :
  ∃ a s, pretty p = String a s ∧ is_Some (digit_of a) ∧ all_digits s ∧
         digits (String a s) 0 false = Some (Z.pos p).
Proof.
  unfold pretty, pretty_positive, pretty, pretty_N.
  rewrite decide_False by done.
  pose proof (all_digits_pretty_N_go (N.pos p) "" I) as Hall.
  pose proof (digits_pretty_N_go (N.pos p) "" false) as Hval.
  destruct (pretty_N_go (N.pos p) "") as [|a s]; [done|].
  destruct Hall as [Ha Hs]. exists a, s. by split_and!.
Qed.

Lemma py_int_unsigned a s :
  is_Some (digit_of a) → all_digits s →
  py_int (String a s) =
    match digits (String a s) 0 false with Some z => Ok z | None => Raise ValueError end.
Proof.
  intros [d Hd] Hs. apply digit_of_char in Hd as (Hsp & Hm & Hp & _).
  unfold py_int. rewrite strip_digits by done.
  destruct a as [[] [] [] [] [] [] [] []]; done.
Qed.

Lemma py_int_pretty (y : Z) : py_int (pretty y) = Ok y.
Proof.
  destruct y as [|p|p].
  - reflexivity.
  - change (pretty (Z.pos p)) with (pretty p).
    destruct (pretty_positive_digits p) as (a & s & -> & Ha & Hs & Hval).
    rewrite py_int_unsigned by done. by rewrite Hval.
  - change (pretty (Z.neg p)) with ("-" +:+ pretty p).
    destruct (pretty_positive_digits p) as (a & s & -> & Ha & Hs & Hval).
    unfold py_int.
    change ("-" +:+ String a s) with (String "-" (String a s)).
    assert (strip (String "-" (String a s)) = String "-" (String a s)) as ->.
    { unfold strip. rewrite lstrip_no_space by done.
      destruct (rev_app_head (String a s) "-"%char "" (λ b, is_space b = false))
        as (b & s' & Hrev & Hb).
      { done. }
      { intros b Hb. destruct (all_digits_chars (String a s) b (conj Ha Hs) Hb) as [d Hd].
        by apply digit_of_char in Hd as [? _]. }
      assert (String.rev (String "-" (String a s)) = String b s') as Hr.
      { unfold String.rev. cbn. exact Hrev. }
      rewrite Hr, lstrip_no_space by done. rewrite <- Hr. apply rev_rev. }
    rewrite Hval. done.
Qed.

Lemma free_of_all_digits s : all_digits s → free_of underscore s.
Proof.
  induction s as [|a s IH]; cbn; [done|]. intros [[d Hd] Hs].
  split; [by apply digit_of_char in Hd as (_ & _ & _ & ?) | by apply IH].
Qed.

Lemma free_of_pretty (y : Z) : free_of underscore (pretty y).
Proof.
  destruct y as [|p|p].
  - by split.
  - change (pretty (Z.pos p)) with (pretty p).
    destruct (pretty_positive_digits p) as (a & s & -> & Ha & Hs & _).
    by apply (free_of_all_digits (String a s)).
  - change (pretty (Z.neg p)) with ("-" +:+ pretty p).
    destruct (pretty_positive_digits p) as (a & s & -> & Ha & Hs & _).
    split; [done|]. by apply (free_of_all_digits (String a s)).
Qed.

Lemma split_on_free c s : free_of c s → split_on c s = [s].
Proof.
  induction s as [|a s IH]; cbn; [done|]. intros [Ha Hs].
  rewrite (proj2 (Ascii.eqb_neq a c)) by done. by rewrite IH.
Qed.

Lemma split_on_app c s1 s2 :
  free_of c s1 → split_on c (s1 +:+ String c s2) = s1 :: split_on c s2.
Proof.
  induction s1 as [|a s1 IH].
  - intros _. change (split_on c (String c s2) = "" :: split_on c s2).
    cbn. by rewrite Ascii.eqb_refl.
  - intros [Ha Hs].
    change (split_on c (String a (s1 +:+ String c s2)) = String a s1 :: split_on c s2).
    cbn. rewrite (proj2 (Ascii.eqb_neq a c)) by done. by rewrite IH.
Qed.

Lemma split_vehicle_id v s y :
  free_of underscore v → free_of underscore s →
  split_on underscore (vehicle_id v s y) = [v; s; pretty y].
Proof.
  intros Hv Hs. unfold vehicle_id.
  change ("_" +:+ ?x) with (String underscore x).
  rewrite split_on_app by done.
  change ("_" +:+ pretty y) with (String underscore (pretty y)).
  rewrite split_on_app by done.
  by rewrite split_on_free by apply free_of_pretty.
Qed.

(** ** The rows of the purchases and sales *)

Lemma appends_ret : appends (ret tt) (Ok []).
Proof. intros rows. cbn. by rewrite app_nil_r. Qed.

Lemma appends_seq c1 c2 r1 r2 :
  appends c1 r1 → appends c2 r2 →
  appends (c1 ;; c2) (rbind r1 (λ a, rbind r2 (λ b, Ok (a ++ b)))).
Proof.
  intros H1 H2 rows. unfold bind. rewrite H1.
  destruct r1 as [a|e]; cbn; [|done]. rewrite H2.
  destruct r2 as [b|e]; cbn; [|done]. by rewrite app_assoc.
Qed.

Lemma appends_lift {A} (r : result A) (k : A → M (list PlanRow) unit) g :
  (∀ a, r = Ok a → appends (k a) (g a)) → appends (a <- lift r ;; k a) (rbind r g).
Proof.
  intros Hk rows. unfold bind, lift. destruct r as [a|e]; cbn; [|done]. by apply Hk.
Qed.

Lemma appends_when (c : bool) body r :
  (c = true → appends body r) → appends (when c body) (if c then r else Ok []).
Proof. destruct c; cbn; [auto | intros _; apply appends_ret]. Qed.

Lemma appends_for {A} (l : list A) body (f : A → result (list PlanRow)) :
  (∀ a, a ∈ l → appends (body a) (f a)) → appends (for_ l body) (gather l f).
Proof.
  induction l as [|a l IH]; intros Hb; cbn; [apply appends_ret|].
  apply appends_seq; [apply Hb; by left | apply IH; intros; apply Hb; by right].
Qed.

Lemma appends_row r : appends (append_row r) (Ok [r]).
Proof. by intros rows. Qed.

Section TradesLemmas.
Variable P : Params.
Variable R : Builder.
Variable xs : list Q.

Lemma appends_extract_sell t v s age :
  appends (extract_sell R xs t v s age) (sell_rows R xs t v s age).
Proof.
  unfold extract_sell, sell_rows.
  destruct (sell_vars R !! (t, v, s, age)) as [idx|]; [|apply appends_ret].
  cbn beta iota. apply (appends_lift (get_count xs idx)). intros val _.
  destruct (bool_decide (0 < val)) eqn:E.
  - apply (appends_when true). intros _. apply appends_row.
  - by apply (appends_when false _ (Ok [])).
Qed.

Lemma appends_extract_buy_sell :
  appends (extract_buy_sell P R xs) (buy_sell_rows P R xs).
Proof.
  unfold extract_buy_sell, buy_sell_rows.
  apply appends_for. intros t _. apply appends_for. intros v _.
  apply appends_for. intros s _. unfold extract_cell, cell_rows.
  apply (appends_lift (getitem (buy_vars R) (t, v, s))). intros idx _.
  apply (appends_lift (get_count xs idx)). intros val _.
  apply appends_seq.
  - destruct (bool_decide (0 < val)) eqn:E.
    + apply (appends_when true). intros _. apply appends_row.
    + by apply (appends_when false _ (Ok [])).
  - apply appends_for. intros age _. apply appends_extract_sell.
Qed.

Lemma elem_of_sell_rows t v s age rs r :
  sell_rows R xs t v s age = Ok rs →
  r ∈ rs ↔ ∃ idx q, sell_vars R !! (t, v, s, age) = Some idx ∧ xs !! idx = Some q ∧
                    0 < py_round q ∧
                    r = sell_row t (vehicle_id v s (t - age)) (py_round q).
Proof.
  unfold sell_rows. destruct (sell_vars R !! (t, v, s, age)) as [idx|].
  - intros (val & (q & Hq & ->)%get_count_ok & Hrs)%rbind_ok.
    destruct (bool_decide_reflect (0 < py_round q)) as [Hpos|Hpos]; injection Hrs as <-.
    + rewrite list_elem_of_singleton. split.
      * intros ->. by exists idx, q.
      * intros (idx' & q' & [= <-] & Hq' & _ & ->). congruence.
    + split; [by intros ?%elem_of_nil|].
      intros (idx' & q' & [= <-] & Hq' & Hpos' & _). congruence.
  - intros [= <-]. split; [by intros ?%elem_of_nil|]. by intros (idx & q & ? & _).
Qed.

Lemma elem_of_cell_rows t v s rs r :
  cell_rows R xs t v s = Ok rs →
  r ∈ rs ↔
  (∃ idx q, buy_vars R !! (t, v, s) = Some idx ∧ xs !! idx = Some q ∧
            0 < py_round q ∧ r = buy_row t (vehicle_id v s t) (py_round q)) ∨
  (∃ age idx q, 1 ≤ age ≤ 10 ∧ sell_vars R !! (t, v, s, age) = Some idx ∧
                xs !! idx = Some q ∧ 0 < py_round q ∧
                r = sell_row t (vehicle_id v s (t - age)) (py_round q)).
Proof.
  unfold cell_rows. intros (idx & Hidx%getitem_ok & H)%rbind_ok.
  apply rbind_ok in H as (val & (q & Hq & ->)%get_count_ok & H).
  apply rbind_ok in H as (bought & Hbought & H).
  apply rbind_ok in H as (sold & Hsold & [= <-]).
  assert (r ∈ bought ↔
          ∃ idx q, buy_vars R !! (t, v, s) = Some idx ∧ xs !! idx = Some q ∧
                   0 < py_round q ∧ r = buy_row t (vehicle_id v s t) (py_round q)) as H1.
  { destruct (bool_decide_reflect (0 < py_round q)) as [Hpos|Hpos];
      injection Hbought as <-.
    + rewrite list_elem_of_singleton. split.
      * intros ->. by exists idx, q.
      * intros (idx' & q' & Hidx' & Hq' & _ & ->). congruence.
    + split; [by intros ?%elem_of_nil|].
      intros (idx' & q' & Hidx' & Hq' & Hpos' & _). congruence. }
  assert (r ∈ sold ↔
          ∃ age idx q, 1 ≤ age ≤ 10 ∧ sell_vars R !! (t, v, s, age) = Some idx ∧
                       xs !! idx = Some q ∧ 0 < py_round q ∧
                       r = sell_row t (vehicle_id v s (t - age)) (py_round q)) as H2.
  { rewrite (elem_of_gather _ _ _ _ Hsold). split.
    + intros (age & rs & Hage%elem_of_range & Hrs & Hr).
      apply (elem_of_sell_rows _ _ _ _ _ _ Hrs) in Hr as (idx' & q' & ? & ? & ? & ?).
      exists age, idx', q'. split_and!; try done; lia.
    + intros (age & idx' & q' & Hage & Hs & Hq' & Hpos & ->).
      assert (age ∈ range 1 11) as Hin by (apply elem_of_range; lia).
      destruct (gather_ok_inv _ _ _ age Hsold Hin) as (rs & Hrs).
      exists age, rs. split_and!; [done | done |].
      apply (elem_of_sell_rows _ _ _ _ _ _ Hrs). by exists idx', q'. }
  by rewrite elem_of_app, H1, H2.
Qed.

Lemma elem_of_buy_sell_rows bs r :
  buy_sell_rows P R xs = Ok bs →
  r ∈ bs ↔ is_buy_row P R xs r ∨ is_sell_row P R xs r.
Proof.
  intros Hbs. unfold buy_sell_rows in Hbs. split.
  - intros Hr.
    apply (elem_of_gather _ _ _ _ Hbs) in Hr as (t & l1 & Ht & Hl1 & Hr).
    apply (elem_of_gather _ _ _ _ Hl1) in Hr as (v & l2 & Hv & Hl2 & Hr).
    apply (elem_of_gather _ _ _ _ Hl2) in Hr as (s & l3 & Hs & Hl3 & Hr).
    apply (elem_of_cell_rows _ _ _ _ _ Hl3) in Hr
      as [(idx & q & ? & ? & ? & ?) | (age & idx & q & ? & ? & ? & ? & ?)].
    + left. by exists t, v, s, idx, q.
    + right. by exists t, v, s, age, idx, q.
  - intros Hr.
    assert (∀ t v s, t ∈ years P → v ∈ vehicle_types P → s ∈ sizes P →
              ∀ l3, cell_rows R xs t v s = Ok l3 → r ∈ l3 → r ∈ bs) as Hsub.
    { intros t v s Ht Hv Hs l3 Hl3 Hin.
      destruct (gather_ok_inv _ _ _ t Hbs Ht) as (l1 & Hl1).
      destruct (gather_ok_inv _ _ _ v Hl1 Hv) as (l2 & Hl2).
      eapply gather_sub; [exact Hbs | exact Ht | exact Hl1 |].
      eapply gather_sub; [exact Hl1 | exact Hv | exact Hl2 |].
      eapply gather_sub; [exact Hl2 | exact Hs | exact Hl3 | exact Hin]. }
    assert (∀ t v s, t ∈ years P → v ∈ vehicle_types P → s ∈ sizes P →
              ∃ l3, cell_rows R xs t v s = Ok l3) as Hcell.
    { intros t v s Ht Hv Hs.
      destruct (gather_ok_inv _ _ _ t Hbs Ht) as (l1 & Hl1).
      destruct (gather_ok_inv _ _ _ v Hl1 Hv) as (l2 & Hl2).
      by destruct (gather_ok_inv _ _ _ s Hl2 Hs) as (l3 & Hl3); exists l3. }
    destruct Hr as [(t & v & s & idx & q & Ht & Hv & Hs & Hidx & Hq & Hpos & ->)
                   |(t & v & s & age & idx & q & Ht & Hv & Hs & Hage & Hidx & Hq & Hpos & ->)].
    + destruct (Hcell t v s Ht Hv Hs) as (l3 & Hl3).
      apply (Hsub t v s Ht Hv Hs l3 Hl3).
      apply (elem_of_cell_rows _ _ _ _ _ Hl3). left. by exists idx, q.
    + destruct (Hcell t v s Ht Hv Hs) as (l3 & Hl3).
      apply (Hsub t v s Ht Hv Hs l3 Hl3).
      apply (elem_of_cell_rows _ _ _ _ _ Hl3). right. by exists age, idx, q.
Qed.

Lemma gather_bind {A B} (l : list A) (f : A → result (list B)) (g : A → list B) bs :
  gather l f = Ok bs →
  (∀ a bs', a ∈ l → f a = Ok bs' → bs' = g a) →
  bs = l ≫= g.
Proof.
  revert bs. induction l as [|a l IH]; intros bs; cbn.
  - by intros [= <-].
  - intros (b1 & Hb1 & (b2 & Hb2 & [= <-])%rbind_ok)%rbind_ok Hg. f_equal.
    + apply Hg; [by left | done].
    + apply IH; [done|]. intros a' bs' Ha'. apply Hg. by right.
Qed.

Lemma sell_rows_eq t v s age rs :
  sell_rows R xs t v s age = Ok rs → rs = sell_rows_of R xs t v s age.
Proof.
  unfold sell_rows, sell_rows_of.
  destruct (sell_vars R !! (t, v, s, age)) as [idx|]; [|by intros [= <-]].
  intros (val & (q & Hq & ->)%get_count_ok & Hrs)%rbind_ok. rewrite Hq.
  by destruct (bool_decide (0 < py_round q)); injection Hrs as <-.
Qed.

Lemma cell_rows_eq t v s rs :
  cell_rows R xs t v s = Ok rs →
  rs = buy_rows_of R xs t v s ++ (range 1 11 ≫= sell_rows_of R xs t v s).
Proof.
  unfold cell_rows. intros (idx & Hidx%getitem_ok & H)%rbind_ok.
  apply rbind_ok in H as (val & (q & Hq & ->)%get_count_ok & H).
  apply rbind_ok in H as (bought & Hbought & H).
  apply rbind_ok in H as (sold & Hsold & [= <-]).
  f_equal.
  - unfold buy_rows_of. rewrite Hidx, Hq.
    by destruct (bool_decide (0 < py_round q)); injection Hbought as <-.
  - apply (gather_bind _ _ _ _ Hsold). intros age rs _. apply sell_rows_eq.
Qed.

Lemma buy_sell_rows_eq bs : buy_sell_rows P R xs = Ok bs → bs = trades P R xs.
Proof.
  unfold buy_sell_rows, trades. intros Hbs.
  apply (gather_bind _ _ _ _ Hbs). intros t l1 _ Hl1.
  apply (gather_bind _ _ _ _ Hl1). intros v l2 _ Hl2.
  apply (gather_bind _ _ _ _ Hl2). intros s l3 _ Hl3.
  by apply cell_rows_eq.
Qed.

(** The rows that the allocation makes are made by [mk]. *)
Lemma allocate_made mk pool needed pool' rs rem :
  allocate mk pool needed = (pool', rs, rem) →
  Forall (λ r, ∃ vid take, r = mk vid take) rs.
Proof.
  revert needed pool' rs rem. induction pool as [|item pool IH];
    intros needed pool' rs rem.
  - rewrite allocate_nil. intros [= <- <- <-]. constructor.
  - rewrite allocate_cons.
    destruct (bool_decide (0 < item_count item) && bool_decide (0 < needed))%bool.
    + cbn zeta.
      destruct (allocate mk pool (needed - Z.min (item_count item) needed))
        as [[p rs'] rem'] eqn:E.
      intros [= <- <- <-]. constructor; [by eexists _, _ | by eapply IH].
    + destruct (allocate mk pool needed) as [[p rs'] rem'] eqn:E.
      intros [= <- <- <-]. by eapply IH.
Qed.

Lemma preserves_decode_year_uses rows0 t :
  preserves (uses_after rows0) (decode_year P R xs t).
Proof.
  intros rows rows' Hinv Hrun. unfold decode_year in Hrun.
  apply rbind_ok in Hrun as ([[] fp] & _ & Hrun).
  apply rbind_ok in Hrun as ([[] st] & Hrun & [= <-]).
  pose (inv := λ st : Decoder, uses_after rows0 (final_submission st)).
  apply (preserves_for inv) in Hrun; [done| |done].
  intros v _. apply preserves_for. intros s _. apply preserves_for. intros d _.
  apply preserves_for. intros f _. unfold assign_duty.
  destruct (use_vars R !! (t, v, s, d, f)); [|apply preserves_ret].
  apply preserves_lift. intros idx_km _. apply preserves_lift. intros needed _.
  apply preserves_lift. intros total_km _. apply preserves_when. intros _.
  apply preserves_lift. intros avg_km _. apply preserves_modify.
  intros st' (us & Hus & Huse).
  destruct (fleet_pool st' !! (v, s)) as [pool|]; [|by exists us].
  destruct (allocate _ pool needed) as [[pool' rs] rem] eqn:E.
  exists (us ++ rs). cbn. split; [by rewrite Hus, app_assoc|].
  apply Forall_app. split; [done|].
  eapply Forall_impl; [by eapply allocate_made|].
  cbn. by intros r (vid & take & ->).
Qed.

Lemma decode_shape rows :
  decode P R xs = Ok rows →
  ∃ bs us, buy_sell_rows P R xs = Ok bs ∧ rows = bs ++ us ∧
           Forall (λ r, r_type r = "Use") us.
Proof.
  unfold decode. intros ([[] rows0] & Hbs & Hrun)%rbind_ok.
  apply rbind_ok in Hrun as ([[] rows'] & Hrun & [= <-]).
  rewrite appends_extract_buy_sell in Hbs.
  apply rbind_ok in Hbs as (bs & Hbs & [= <-]).
  apply (preserves_for (uses_after bs)) in Hrun as (us & -> & Hus).
  - by exists bs, us.
  - intros t _. apply preserves_decode_year_uses.
  - exists []. by rewrite app_nil_r.
Qed.

End TradesLemmas.

(** * The claims *)

(** C1. For every year [t] and vehicle class [(v, s)] of a horizon that
    starts at the base year without a gap, the fleet dynamics return and
    add: the row [Fleet[t,0] - Buy[t] == 0]; for every age from 1 to 10
    whose purchase year [t - age] is not before the base year, the rows
    [Fleet[t,age] + Sell[t,age] - Fleet[t-1,age-1] == 0] and
    [Sell[t,age] - Fleet[t-1,age-1] <= 0], over variables that are
    pairwise distinct; so every assignment that is feasible for these rows
    has [Fleet[t,0] = Buy[t]], [Fleet[t,age] + Sell[t,age] =
    Fleet[t-1,age-1]] and [Sell[t,age] <= Fleet[t-1,age-1]]. These rows
    are the first rows of the finished model. In the first year there is
    no Fleet and no Sell variable of an age above zero, and the decoder
    carries no vehicle over into that year: the fleet before the horizon
    is empty. *)
Theorem aging_recurrence_emitted (P : Params) :
  contiguous_horizon P →
  ∃ R m,
    create_variables P new_builder = Ok (tt, R) ∧
    fleet_dynamics P R (model R) = Ok (tt, m) ∧
    (∀ m', add_constraints P R (model R) = Ok (tt, m') →
           rows m `prefix_of` rows m') ∧
    (∀ t v s, t ∈ years P → v ∈ vehicle_types P → s ∈ sizes P →
       ∃ f0 b0,
         fleet_vars R !! (t, v, s, 0) = Some f0 ∧
         buy_vars R !! (t, v, s) = Some b0 ∧
         f0 ≠ b0 ∧
         eq_row [(1%Q, f0); ((-1)%Q, b0)] 0%Q ∈ rows m ∧
         (∀ xs, feasible xs m → (value xs f0 == value xs b0)%Q) ∧
         ∀ age, 1 ≤ age ≤ 10 → base_year ≤ t - age →
           ∃ fa sa fp,
             fleet_vars R !! (t, v, s, age) = Some fa ∧
             sell_vars R !! (t, v, s, age) = Some sa ∧
             fleet_vars R !! (t - 1, v, s, age - 1) = Some fp ∧
             NoDup [fa; sa; fp] ∧
             eq_row [(1%Q, fa); (1%Q, sa); ((-1)%Q, fp)] 0%Q ∈ rows m ∧
             le_row [(1%Q, sa); ((-1)%Q, fp)] 0%Q ∈ rows m ∧
             (∀ xs, feasible xs m →
                (value xs fa + value xs sa == value xs fp)%Q ∧
                (value xs sa <= value xs fp)%Q)) ∧
    (∀ v s age, 0 < age →
       fleet_vars R !! (base_year, v, s, age) = None ∧
       sell_vars R !! (base_year, v, s, age) = None ∧
       ∀ xs, carried_over R xs base_year v s = Ok []).
Proof.
  intros Hhorizon.
  destruct (create_variables_declared P) as (R & Hrun & Hreg).
  pose proof (create_variables_inv P R Hrun) as HR.
  pose proof (fleet_dynamics_rows_ok P R Hreg Hhorizon) as Hok.
  destruct (fleet_dynamics_rows P R) as [trs|e] eqn:Htrs; [|done].
  destruct (generates_ok P R (fleet_dynamics P R) trs HR) as (m & Hm & Hrows & _).
  { rewrite <- Htrs. apply generates_fleet_dynamics. }
  exists R, m. split_and!; [done | done | | |].
  - intros m' Hm'. by eapply fleet_rows_prefix.
  - intros t v s Ht Hv Hs.
    destruct (fleet_cell_rows_in P R Hreg Hhorizon t v s Ht Hv Hs)
      as (f0 & b0 & tr & Hf0 & Hb0 & Hcell & Hages).
    assert (∀ c, c ∈ eq_row [(1%Q, f0); ((-1)%Q, b0)] 0%Q :: tr → c ∈ rows m) as Hsub.
    { intros c Hc. rewrite Hrows. by eapply fleet_cell_rows_sub. }
    exists f0, b0. split_and!; [done | done | | | |].
    + eapply (registry_distinct P R (KFleet _) (KBuy _)); done.
    + apply Hsub. left.
    + intros xs Hxs. apply satisfies_eq_2, Hxs, Hsub. left.
    + intros age Hage Hbase.
      destruct (fleet_aging_rows_in P R Hreg Hhorizon t v s age Ht Hv Hs Hage Hbase)
        as (fa & sa & fp & Hfa & Hsa & Hfp & Hrowsa).
      assert (∀ c, c ∈ [eq_row [(1%Q, fa); (1%Q, sa); ((-1)%Q, fp)] 0%Q;
                        le_row [(1%Q, sa); ((-1)%Q, fp)] 0%Q] → c ∈ rows m) as Hsuba.
      { intros c Hc. apply Hsub. right. apply (elem_of_gather _ _ _ _ Hages).
        exists age. eexists. split_and!; [apply elem_of_range; lia | done | done]. }
      exists fa, sa, fp. split_and!; [done | done | done | | | |].
      * assert (fa ≠ sa) by (eapply (registry_distinct P R (KFleet _) (KSell _)); done).
        assert (sa ≠ fp) by (eapply (registry_distinct P R (KSell _) (KFleet _)); done).
        assert (fa ≠ fp).
        { eapply (registry_distinct P R (KFleet _) (KFleet _)); [done..|].
          intros [= ?]. lia. }
        repeat constructor; set_solver.
      * apply Hsuba. left.
      * apply Hsuba. right. left.
      * intros xs Hxs. split.
        -- apply satisfies_eq_3, Hxs, Hsuba. left.
        -- apply satisfies_le_2, Hxs, Hsuba. right. left.
  - intros v s age Hage. split_and!.
    + apply eq_None_not_Some. intros Hsome.
      apply (Hreg (KFleet (base_year, v, s, age))) in Hsome. cbn in Hsome. lia.
    + apply eq_None_not_Some. intros Hsome.
      apply (Hreg (KSell (base_year, v, s, age))) in Hsome. cbn in Hsome. lia.
    + intros xs. unfold carried_over. by rewrite bool_decide_eq_false_2 by lia.
Qed.

Lemma aging_recurrence_emitted_witness :
  ∃ R m,
    create_variables demo_params new_builder = Ok (tt, R) ∧
    fleet_dynamics demo_params R (model R) = Ok (tt, m) ∧
    (∀ m', add_constraints demo_params R (model R) = Ok (tt, m') →
           rows m `prefix_of` rows m') ∧
    (∀ t v s, t ∈ years demo_params → v ∈ vehicle_types demo_params →
       s ∈ sizes demo_params →
       ∃ f0 b0,
         fleet_vars R !! (t, v, s, 0) = Some f0 ∧
         buy_vars R !! (t, v, s) = Some b0 ∧
         f0 ≠ b0 ∧
         eq_row [(1%Q, f0); ((-1)%Q, b0)] 0%Q ∈ rows m ∧
         (∀ xs, feasible xs m → (value xs f0 == value xs b0)%Q) ∧
         ∀ age, 1 ≤ age ≤ 10 → base_year ≤ t - age →
           ∃ fa sa fp,
             fleet_vars R !! (t, v, s, age) = Some fa ∧
             sell_vars R !! (t, v, s, age) = Some sa ∧
             fleet_vars R !! (t - 1, v, s, age - 1) = Some fp ∧
             NoDup [fa; sa; fp] ∧
             eq_row [(1%Q, fa); (1%Q, sa); ((-1)%Q, fp)] 0%Q ∈ rows m ∧
             le_row [(1%Q, sa); ((-1)%Q, fp)] 0%Q ∈ rows m ∧
             (∀ xs, feasible xs m →
                (value xs fa + value xs sa == value xs fp)%Q ∧
                (value xs sa <= value xs fp)%Q)) ∧
    (∀ v s age, 0 < age →
       fleet_vars R !! (base_year, v, s, age) = None ∧
       sell_vars R !! (base_year, v, s, age) = None ∧
       ∀ xs, carried_over R xs base_year v s = Ok []).
Proof.
  apply (aging_recurrence_emitted demo_params). exists 2. vm_compute. reflexivity.
Defined.

(** C2, as stated, fails. The generator walks the years of the emission
    targets, not the cells of the demand table. On the small instance with
    one more demand cell, (2025, S1, D1) with the demand 77, the model is
    built, and none of its rows has the bound 77: the cell of 2025 gets no
    row at all, since the targets name the years 2023 and 2024 only. *)
Lemma demand_covers_every_cell_fails :
  is_ok (build_model late_cell_data) ∧
  existsb (has_bound 77) (rows (model (model_of late_cell_data))) = false ∧
  ¬ demand_covers_every_cell late_cell_data.
Proof.
  assert (parameters late_cell_data = Ok (params_of late_cell_data)) as HP.
  { apply params_of_ok. vm_compute. exact I. }
  assert (contiguous_horizon (params_of late_cell_data)) as Hh.
  { exists 2. vm_compute. reflexivity. }
  assert (demand_complete (params_of late_cell_data)) as Hd.
  { apply demand_completeb_true. vm_compute. reflexivity. }
  destruct (build_model_ok _ _ HP Hh Hd) as (R & t1 & t2 & t3 & t4 & Hb & _).
  assert (existsb (has_bound 77) (rows (model (model_of late_cell_data))) = false) as Hno.
  { vm_compute. reflexivity. }
  split; [by rewrite Hb|]. split; [exact Hno|].
  intros H. specialize (H _ R 2025 "S1" "D1" 77%Q Hb).
  assert (R = model_of late_cell_data) as -> by (unfold model_of; by rewrite Hb).
  assert (demand_dict (params_of late_cell_data) !! (2025, "S1", "D1") = Some 77%Q)
    as Hcell by (vm_compute; reflexivity).
  apply H in Hcell.
  assert (existsb (has_bound 77) (rows (model (model_of late_cell_data))) = true) as Hyes.
  { apply existsb_exists.
    exists (eq_row (demand_terms (params_of late_cell_data) (model_of late_cell_data)
                      2025 "S1" "D1") 77%Q).
    split; [exact (proj1 (list_elem_of_In _ _) Hcell)|].
    unfold has_bound, eq_row. cbn [c_lb]. reflexivity. }
  congruence.
Qed.

(** C2, amended. When the model is built, every cell [(t, s, d)] of the
    demand table whose year is in the horizon has an equality row (lower
    and upper bound both equal to the demand of the cell, sense [==]); the
    terms of the row are the Km variables [(t, v, s, d, f)] that exist,
    over all vehicle types and fuels, each once and with the coefficient
    1; so a feasible assignment delivers the demand exactly. The horizon
    is the list of the years of the emission targets. *)
Theorem demand_coverage_emitted (data : Data) (P : Params) :
  parameters data = Ok P → contiguous_horizon P → demand_complete P →
  ∃ R, build_model data = Ok (P, R) ∧
    ∀ t s d dem, demand_dict P !! (t, s, d) = Some dem → t ∈ years P →
      eq_row (demand_terms P R t s d) dem ∈ rows (model R) ∧
      c_lb (eq_row (demand_terms P R t s d) dem) = Fin dem ∧
      c_ub (eq_row (demand_terms P R t s d) dem) = Fin dem ∧
      NoDup (demand_terms P R t s d) ∧
      (∀ q ik, (q, ik) ∈ demand_terms P R t s d ↔
               q = 1%Q ∧ ∃ v f, v ∈ vehicle_types P ∧ f ∈ fuels P ∧
                                km_vars R !! (t, v, s, d, f) = Some ik) ∧
      (∀ xs, feasible xs (model R) →
             (row_sum xs (demand_terms P R t s d) == dem)%Q).
Proof.
  intros Hpar Hhorizon Hdemand.
  destruct (build_model_ok data P Hpar Hhorizon Hdemand)
    as (R & t1 & t2 & t3 & t4 & Hbuild & HR & _ & _ & H2 & _ & _ & Hrows).
  pose proof (parameters_from_tables data P Hpar) as Hft.
  exists R. split; [done|]. intros t s d dem Hdem Ht.
  destruct (ft_demand data P Hft t s d dem Hdem) as (Hs & Hd & _).
  destruct (demand_cell_rows_in P R (vo_reg P R HR) t s d dem Hdem) as (links & Hcell & _).
  assert (eq_row (demand_terms P R t s d) dem ∈ rows (model R)) as Hin.
  { rewrite Hrows, !elem_of_app. right. left.
    eapply demand_cell_rows_sub; [exact Ht | exact Hs | exact Hd | exact H2
                                 | exact Hcell | left]. }
  destruct (ft_nodup data P Hft) as (_ & _ & _ & Hnv & Hnf).
  split_and!; [done | done | done | | |].
  - by apply NoDup_demand_terms.
  - intros q ik. apply elem_of_demand_terms.
  - intros xs Hxs. by apply satisfies_eq_row, Hxs.
Qed.

Lemma demand_coverage_emitted_witness :
  ∃ R, build_model demo_data = Ok (demo_params, R) ∧
    ∀ t s d dem, demand_dict demo_params !! (t, s, d) = Some dem →
      t ∈ years demo_params →
      eq_row (demand_terms demo_params R t s d) dem ∈ rows (model R) ∧
      c_lb (eq_row (demand_terms demo_params R t s d) dem) = Fin dem ∧
      c_ub (eq_row (demand_terms demo_params R t s d) dem) = Fin dem ∧
      NoDup (demand_terms demo_params R t s d) ∧
      (∀ q ik, (q, ik) ∈ demand_terms demo_params R t s d ↔
               q = 1%Q ∧ ∃ v f, v ∈ vehicle_types demo_params ∧
                                f ∈ fuels demo_params ∧
                                km_vars R !! (t, v, s, d, f) = Some ik) ∧
      (∀ xs, feasible xs (model R) →
             (row_sum xs (demand_terms demo_params R t s d) == dem)%Q).
Proof.
  apply (demand_coverage_emitted demo_data demo_params).
  - exact demo_parameters.
  - exists 2. vm_compute. reflexivity.
  - apply demand_completeb_true. vm_compute. reflexivity.
Defined.

(** C3. When the model is built, its rows are those of the fleet
    dynamics, of the demand, of the usage limit and then one upper-bound
    row per year, in the order of the years (which has no duplicate): the
    row of year [t] bounds by the cap of [t] the sum, over the Km
    variables [(t, v, s, d, f)] that exist, each once, of the variable
    times the consumption of [(v, s, t, f)] times the emission factor of
    [(f, t)] (0 when the fuel table has none). *)
Theorem emission_cap_emitted (data : Data) (P : Params) :
  parameters data = Ok P → contiguous_horizon P → demand_complete P →
  ∃ R t1 t2 t3 t4,
    build_model data = Ok (P, R) ∧
    fleet_dynamics_rows P R = Ok t1 ∧
    demand_satisfaction_rows P R = Ok t2 ∧
    usage_limit_rows P R = Ok t3 ∧
    rows (model R) = t1 ++ t2 ++ t3 ++ t4 ∧
    NoDup (years P) ∧
    Forall2 (λ t c, ∃ cap, emission_targets P !! t = Some cap ∧
                           c = le_row (emission_terms_list P R t) cap)
            (years P) t4 ∧
    (∀ t, NoDup (emission_terms_list P R t) ∧
          ∀ q ik, (q, ik) ∈ emission_terms_list P R t ↔
            ∃ v s d f cons,
              v ∈ vehicle_types P ∧ s ∈ sizes P ∧ d ∈ distances P ∧ f ∈ fuels P ∧
              km_vars R !! (t, v, s, d, f) = Some ik ∧
              consumption P !! (v, s, t, f) = Some cons ∧
              q = (cons * dict_get (fuel_emissions P) (f, t) 0)%Q) ∧
    (∀ xs t cap, feasible xs (model R) → t ∈ years P →
       emission_targets P !! t = Some cap →
       (row_sum xs (emission_terms_list P R t) <= cap)%Q).
Proof.
  intros Hpar Hhorizon Hdemand.
  destruct (build_model_ok data P Hpar Hhorizon Hdemand)
    as (R & t1 & t2 & t3 & t4 & Hbuild & HR & _ & H1 & H2 & H3 & H4 & Hrows).
  pose proof (parameters_from_tables data P Hpar) as Hft.
  destruct (ft_nodup data P Hft) as (Hny & Hns & Hnd & Hnv & Hnf).
  destruct (emission_caps_rows_in P R (vo_reg P R HR) (ft_targets data P Hft))
    as (t4' & H4' & Hcaps).
  rewrite H4 in H4'. injection H4' as <-.
  exists R, t1, t2, t3, t4. split_and!; try done.
  - intros t. split; [by apply NoDup_emission_terms_list|].
    intros q ik. by apply elem_of_emission_terms_list.
  - intros xs t cap Hxs Ht Hcap.
    apply list_elem_of_lookup in Ht as [i Hi].
    destruct (Forall2_lookup_l _ _ _ _ _ Hcaps Hi) as (c & Hc & cap' & Hcap' & ->).
    rewrite Hcap in Hcap'. injection Hcap' as <-.
    apply satisfies_le_row, Hxs. rewrite Hrows, !elem_of_app. do 3 right.
    by eapply list_elem_of_lookup_2.
Qed.

Lemma emission_cap_emitted_witness :
  ∃ R t1 t2 t3 t4,
    build_model demo_data = Ok (demo_params, R) ∧
    fleet_dynamics_rows demo_params R = Ok t1 ∧
    demand_satisfaction_rows demo_params R = Ok t2 ∧
    usage_limit_rows demo_params R = Ok t3 ∧
    rows (model R) = t1 ++ t2 ++ t3 ++ t4 ∧
    NoDup (years demo_params) ∧
    Forall2 (λ t c, ∃ cap, emission_targets demo_params !! t = Some cap ∧
                           c = le_row (emission_terms_list demo_params R t) cap)
            (years demo_params) t4 ∧
    (∀ t, NoDup (emission_terms_list demo_params R t) ∧
          ∀ q ik, (q, ik) ∈ emission_terms_list demo_params R t ↔
            ∃ v s d f cons,
              v ∈ vehicle_types demo_params ∧ s ∈ sizes demo_params ∧
              d ∈ distances demo_params ∧ f ∈ fuels demo_params ∧
              km_vars R !! (t, v, s, d, f) = Some ik ∧
              consumption demo_params !! (v, s, t, f) = Some cons ∧
              q = (cons * dict_get (fuel_emissions demo_params) (f, t) 0)%Q) ∧
    (∀ xs t cap, feasible xs (model R) → t ∈ years demo_params →
       emission_targets demo_params !! t = Some cap →
       (row_sum xs (emission_terms_list demo_params R t) <= cap)%Q).
Proof.
  apply (emission_cap_emitted demo_data demo_params).
  - exact demo_parameters.
  - exists 2. vm_compute. reflexivity.
  - apply demand_completeb_true. vm_compute. reflexivity.
Defined.

(** C4, as stated, fails on the small instance: the vintage 2023 of the
    class (BEV, S1) runs on electricity with the consumption 1/2, but the
    only Km variable of the class for a duty of 2024 carries the
    consumption 1/4 of the 2024 entry (coefficient 1/4 * 4, not
    1/2 * 4). *)
Lemma usage_variables_per_vintage_fails :
  create_variables demo_params new_builder = Ok (tt, demo_builder) ∧
  ¬ usage_variables_per_vintage demo_params demo_builder.
Proof.
  split; [exact demo_created|].
  intros H.
  destruct (H 2024 "BEV" "S1" 2023 "D1" "Electricity" (1 # 2)%Q)
    as (iu & ik & q & _ & Hik & Hq & Heq).
  - vm_compute. by right; left.
  - vm_compute. left.
  - vm_compute. left.
  - unfold base_year. lia.
  - lia.
  - vm_compute. left.
  - vm_compute. left.
  - vm_compute. reflexivity.
  - assert (km_vars demo_builder !! (2024, "BEV", "S1", "D1", "Electricity")
            = Some 11%nat) as Hk by (vm_compute; reflexivity).
    rewrite Hk in Hik. injection Hik as <-.
    assert (obj_coeffs (model demo_builder) !! 11%nat = Some (4 # 4)%Q) as Ho
      by (vm_compute; reflexivity).
    rewrite Ho in Hq. injection Hq as <-.
    assert (dict_get (fuel_cost demo_params) ("Electricity", 2024) 0%Q = 4%Q) as Hc
      by (vm_compute; reflexivity).
    rewrite Hc in Heq. vm_compute in Heq. discriminate Heq.
Qed.

(** C4, amended. The Use and Km variables are per year and class, not per
    vintage. For every year [t], class [(v, s)], distance [d] and fuel
    [f] such that the consumption index has an entry for [(v, s, t, f)],
    the builder creates one Use variable, with the coefficient 0, and one
    Km variable, whose coefficient is the consumption of that entry times
    the fuel cost of [(f, t)] (0 when the fuel table has none). No Use or
    Km variable exists for a [(t, v, s, d, f)] whose [(v, s, t, f)] is not
    in the index. *)
Theorem usage_variables_created (P : Params) :
  ∃ R, create_variables P new_builder = Ok (tt, R) ∧
    (∀ t v s d f cons,
       t ∈ years P → v ∈ vehicle_types P → s ∈ sizes P →
       d ∈ distances P → f ∈ fuels P →
       consumption P !! (v, s, t, f) = Some cons →
       ∃ iu ik,
         use_vars R !! (t, v, s, d, f) = Some iu ∧
         km_vars R !! (t, v, s, d, f) = Some ik ∧
         iu ≠ ik ∧
         var_names (model R) !! iu = Some (use_name t v s d f) ∧
         var_names (model R) !! ik = Some (km_name t v s d f) ∧
         obj_coeffs (model R) !! iu = Some 0%Q ∧
         obj_coeffs (model R) !! ik =
           Some (cons * dict_get (fuel_cost P) (f, t) 0)%Q) ∧
    (∀ t v s d f,
       consumption P !! (v, s, t, f) = None →
       use_vars R !! (t, v, s, d, f) = None ∧
       km_vars R !! (t, v, s, d, f) = None).
Proof.
  destruct (create_variables_declared P) as (R & Hrun & Hreg).
  pose proof (create_variables_inv P R Hrun) as HR.
  exists R. split_and!; [done | |].
  - intros t v s d f cons Ht Hv Hs Hd Hf Hcons.
    destruct (proj2 (Hreg (KUse (t, v, s, d, f)))) as [iu Hiu]; [cbn; eauto 10|].
    destruct (proj2 (Hreg (KKm (t, v, s, d, f)))) as [ik Hik]; [cbn; eauto 10|].
    destruct (inv_var P R HR (KUse (t, v, s, d, f)) iu Hiu) as (Hnu & Hou & _).
    destruct (inv_var P R HR (KKm (t, v, s, d, f)) ik Hik) as (Hnk & Hok & _).
    exists iu, ik. split_and!; try done.
    + eapply (registry_distinct P R (KUse _) (KKm _)); done.
    + rewrite Hok. cbn. unfold cost_per_km, dict_get at 1. by rewrite Hcons.
  - intros t v s d f Hnone. split; apply eq_None_not_Some; intros Hsome.
    + apply (Hreg (KUse (t, v, s, d, f))) in Hsome. cbn in Hsome.
      destruct Hsome as (_ & _ & _ & _ & _ & [? ?]). congruence.
    + apply (Hreg (KKm (t, v, s, d, f))) in Hsome. cbn in Hsome.
      destruct Hsome as (_ & _ & _ & _ & _ & [? ?]). congruence.
Qed.

Lemma usage_variables_created_witness :
  ∃ R, create_variables demo_params new_builder = Ok (tt, R) ∧
    (∀ t v s d f cons,
       t ∈ years demo_params → v ∈ vehicle_types demo_params →
       s ∈ sizes demo_params → d ∈ distances demo_params → f ∈ fuels demo_params →
       consumption demo_params !! (v, s, t, f) = Some cons →
       ∃ iu ik,
         use_vars R !! (t, v, s, d, f) = Some iu ∧
         km_vars R !! (t, v, s, d, f) = Some ik ∧
         iu ≠ ik ∧
         var_names (model R) !! iu = Some (use_name t v s d f) ∧
         var_names (model R) !! ik = Some (km_name t v s d f) ∧
         obj_coeffs (model R) !! iu = Some 0%Q ∧
         obj_coeffs (model R) !! ik =
           Some (cons * dict_get (fuel_cost demo_params) (f, t) 0)%Q) ∧
    (∀ t v s d f,
       consumption demo_params !! (v, s, t, f) = None →
       use_vars R !! (t, v, s, d, f) = None ∧
       km_vars R !! (t, v, s, d, f) = None).
Proof. apply (usage_variables_created demo_params). Defined.

(** C9. The allocation of a duty with a positive rounded Use count, from
    a pool without negative count. The first item with a positive count
    gives the smaller of its count and of the need, and the loop goes on
    with the rest of the need. After the loop no count is negative; every
    row comes from one item of the pool, carries its batch id and a number
    of vehicles that is positive and at most the count the item had, and
    the count of the item has gone down by this number; the rows carry at
    most the rounded Use count. *)
Theorem pool_allocation_invariant
    (t : Z) (f d : string) (avg : Q) (pool : list PoolItem) (needed : Z) :
  pool_nonneg pool → 0 < needed →
  (∀ item rest, pool = item :: rest → 0 < item_count item →
     allocate (use_row t f d avg) pool needed =
       let take := Z.min (item_count item) needed in
       let '(p, rs, rem) := allocate (use_row t f d avg) rest (needed - take) in
       ({| item_id := item_id item; item_count := item_count item - take |} :: p,
        use_row t f d avg (item_id item) take :: rs, rem)) ∧
  ∃ pool' rs rem,
    allocate (use_row t f d avg) pool needed = (pool', rs, rem) ∧
    pool_nonneg pool' ∧
    length pool' = length pool ∧
    (∀ r, r ∈ rs →
       ∃ i it it',
         pool !! i = Some it ∧ pool' !! i = Some it' ∧
         r = use_row t f d avg (item_id it) (r_num_vehicles r) ∧
         0 < r_num_vehicles r ≤ item_count it ∧
         item_id it' = item_id it ∧
         item_count it' = item_count it - r_num_vehicles r) ∧
    vehicles_of rs ≤ needed ∧
    vehicles_of rs = needed - rem ∧
    0 ≤ rem.
Proof.
  intros Hpool Hneeded. split.
  { intros item rest -> Hitem. rewrite allocate_cons.
    by rewrite !bool_decide_eq_true_2 by done. }
  destruct (allocate (use_row t f d avg) pool needed) as [[pool' rs] rem] eqn:Ha.
  exists pool', rs, rem.
  pose proof (allocate_pool _ _ _ _ _ _ Hpool Ha) as Hitems.
  pose proof (allocate_rows _ _ _ _ _ _ Hpool Ha) as Hrows.
  assert (0 ≤ needed) as Hn by lia.
  destruct (allocate_account _ _ _ _ _ _ _ _ _ Hpool Hn Ha) as (H1 & _ & _ & H4).
  split_and!; [done | by eapply pool_nonneg_after | | | lia | done | lia].
  - symmetry. by eapply Forall2_length.
  - intros r Hr. rewrite Hrows in Hr.
    apply list_elem_of_omap in Hr as ([it it'] & Hin & Hsome).
    apply list_elem_of_lookup in Hin as [i Hi].
    apply lookup_zip_with_Some in Hi as (a & b & [= <- <-] & Ha1 & Ha2).
    destruct (Forall2_lookup_lr _ _ _ _ _ _ Hitems Ha1 Ha2) as [Hid Hcount].
    case_bool_decide as Hpos; [|done]. injection Hsome as <-.
    exists i, it, it'. cbn. split_and!; done || lia.
Qed.

Lemma pool_allocation_invariant_witness :
  let pool := [ {| item_id := "BEV_S1_2023"; item_count := 2 |};
                {| item_id := "BEV_S1_2024"; item_count := 3 |} ] in
  (∀ item rest, pool = item :: rest → 0 < item_count item →
     allocate (use_row 2024 "Electricity" "D1" 75) pool 4 =
       let take := Z.min (item_count item) 4 in
       let '(p, rs, rem) :=
         allocate (use_row 2024 "Electricity" "D1" 75) rest (4 - take) in
       ({| item_id := item_id item; item_count := item_count item - take |} :: p,
        use_row 2024 "Electricity" "D1" 75 (item_id item) take :: rs, rem)) ∧
  ∃ pool' rs rem,
    allocate (use_row 2024 "Electricity" "D1" 75) pool 4 = (pool', rs, rem) ∧
    pool_nonneg pool' ∧
    length pool' = length pool ∧
    (∀ r, r ∈ rs →
       ∃ i it it',
         pool !! i = Some it ∧ pool' !! i = Some it' ∧
         r = use_row 2024 "Electricity" "D1" 75 (item_id it) (r_num_vehicles r) ∧
         0 < r_num_vehicles r ≤ item_count it ∧
         item_id it' = item_id it ∧
         item_count it' = item_count it - r_num_vehicles r) ∧
    vehicles_of rs ≤ 4 ∧
    vehicles_of rs = 4 - rem ∧
    0 ≤ rem.
Proof.
  apply (pool_allocation_invariant 2024 "Electricity" "D1" 75).
  - repeat constructor; cbn; lia.
  - lia.
Defined.

(** C7, as stated, fails, for two reasons, whatever the tolerance is
    (below 40 distance units). First, rounding: [demo_relaxed] is feasible
    for the relaxed model of the small instance, its Km value of
    (2023, D1) is 140 = 100 * 7/5, range times Use; the decoder rounds the
    Use value 7/5 to 1 and gives the one vehicle the distance 140, above
    the range 100 of its vintage. Second, the range of the capacity link is
    that of the year of use, not that of the vintage: with the ranges 100
    for the models of 2023 and 200 for those of 2024, the assignment
    [growing_range_integral] is feasible and has whole numbers of
    vehicles only; in 2024 the duty D1 has one vehicle and 150 distance
    units, within the range 200 of 2024, and the decoder gives it a
    vehicle bought in 2023, whose range is 100. *)
Lemma range_respected_fails :
  (∀ tol, (tol < 40)%Q → ¬ range_respected tol demo_data demo_relaxed) ∧
  Forall (λ q, q = inject_Z (py_round q)) growing_range_integral ∧
  (∀ tol, (tol < 40)%Q →
     ¬ range_respected tol growing_range_data growing_range_integral).
Proof.
  split_and!.
  - intros tol Htol H.
    specialize (H demo_params demo_model
      (match decode demo_params demo_model demo_relaxed with
       | Ok rows => rows | Raise _ => [] end)
      (use_row 2023 "Electricity" "D1" (140 # 1) "BEV_S1_2023" 1)
      "BEV" "S1" 2023 (140 # 1)).
    assert (dict_get (vehicle_range demo_params) ("BEV", "S1", 2023) 0%Q = 100%Q) as E.
    { vm_compute. reflexivity. }
    rewrite E in H.
    assert (140 # 1 <= 100 + tol)%Q as Habs; [|lra].
    apply H.
    + exact demo_built.
    + apply feasibleb_true. vm_compute. reflexivity.
    + repeat constructor; vm_compute; discriminate.
    + vm_compute. reflexivity.
    + vm_compute. right. left.
    + reflexivity.
    + vm_compute. reflexivity.
    + reflexivity.
  - repeat constructor.
  - intros tol Htol H.
    assert (parameters growing_range_data = Ok (params_of growing_range_data)) as HP.
    { apply params_of_ok. vm_compute. exact I. }
    assert (contiguous_horizon (params_of growing_range_data)) as Hh.
    { exists 2. vm_compute. reflexivity. }
    assert (demand_complete (params_of growing_range_data)) as Hd.
    { apply demand_completeb_true. vm_compute. reflexivity. }
    destruct (build_model_ok _ _ HP Hh Hd) as (R & t1 & t2 & t3 & t4 & Hb & _).
    assert (R = model_of growing_range_data) as -> by (unfold model_of; by rewrite Hb).
    specialize (H (params_of growing_range_data) (model_of growing_range_data)
      (match decode (params_of growing_range_data) (model_of growing_range_data)
               growing_range_integral with
       | Ok rows => rows | Raise _ => [] end)
      (use_row 2024 "Electricity" "D1" (150 # 1) "BEV_S1_2023" 1)
      "BEV" "S1" 2023 (150 # 1)).
    assert (dict_get (vehicle_range (params_of growing_range_data)) ("BEV", "S1", 2023) 0%Q
            = 100%Q) as E.
    { vm_compute. reflexivity. }
    rewrite E in H.
    assert (150 # 1 <= 100 + tol)%Q as Habs; [|lra].
    apply H.
    + exact Hb.
    + apply feasibleb_true. vm_compute. reflexivity.
    + repeat constructor; vm_compute; discriminate.
    + vm_compute. reflexivity.
    + vm_compute. do 3 right. left.
    + reflexivity.
    + vm_compute. reflexivity.
    + reflexivity.
Qed.

(** C7, amended. Every Use row decoded from an assignment that is feasible
    for the built model is the row of a duty [(t, v, s, d, f)] whose
    rounded Use value is positive: it names a batch of the class, of a
    vintage [y] in the pool of the year, and its distance per vehicle is
    the value of the Km variable divided by the rounded Use value. The Km
    value is at most the Use value times the range of the class in the
    year of use [t], the range of the capacity link. When this range is
    not negative and the Use value is not rounded down, the distance per
    vehicle is at most the range of the year of use; it is at most the
    range of the vintage when, in addition, the range of the year of use
    is at most the range of the vintage, as it is for a batch used in the
    year of its purchase. *)
Theorem distance_per_vehicle_within_range
    (data : Data) (P : Params) (R : Builder) (xs : list Q)
    (rows : list PlanRow) (r : PlanRow) :
  build_model data = Ok (P, R) → feasible xs (model R) →
  decode P R xs = Ok rows → r ∈ rows → r_type r = "Use" →
  ∃ v s y iu ik dpv,
    r_id r = vehicle_id v s y ∧ pool_vintage (r_year r) y ∧
    use_vars R !! (r_year r, v, s, r_distance_bucket r, r_fuel r) = Some iu ∧
    km_vars R !! (r_year r, v, s, r_distance_bucket r, r_fuel r) = Some ik ∧
    0 < py_round (value xs iu) ∧
    r_distance_per_vehicle r = Some dpv ∧
    dpv = (value xs ik / inject_Z (py_round (value xs iu)))%Q ∧
    (value xs ik <= dict_get (vehicle_range P) (v, s, r_year r) 0 * value xs iu)%Q ∧
    ((0 <= dict_get (vehicle_range P) (v, s, r_year r) 0)%Q →
     (value xs iu <= inject_Z (py_round (value xs iu)))%Q →
     (dpv <= dict_get (vehicle_range P) (v, s, r_year r) 0)%Q ∧
     ((dict_get (vehicle_range P) (v, s, r_year r) 0
       <= dict_get (vehicle_range P) (v, s, y) 0)%Q →
      (dpv <= dict_get (vehicle_range P) (v, s, y) 0)%Q) ∧
     (y = r_year r → (dpv <= dict_get (vehicle_range P) (v, s, y) 0)%Q)).
Proof.
  intros Hbuild Hfeas Hdec Hr Htype.
  destruct (decode_rows_ok P R xs rows Hdec r Hr) as [[Hb _] | [[Hs _] | [_ Hduty]]];
    [congruence | congruence |].
  destruct Hduty as (t & v & s & d & f & iu & ik & qu & qk & y & _ & _ & _ & _ & _ &
    Hiu & Hik & Hqu & Hqk & Hpos & <- & <- & <- & Hid & Hy & _ & Hdpv).
  exists v, s, y, iu, ik, (qk / inject_Z (py_round qu))%Q.
  pose proof (capacity_link_row data P R xs _ _ _ _ _ iu ik Hbuild Hfeas Hiu Hik) as Hlink.
  rewrite (value_lookup _ _ _ Hqu), (value_lookup _ _ _ Hqk) in *.
  split_and!; try done.
  intros Hrng Huse.
  assert (qk / inject_Z (py_round qu)
          <= dict_get (vehicle_range P) (v, s, r_year r) 0)%Q as Hle.
  { by eapply share_within_range. }
  split_and!; [done | intros Hyr; lra | intros ->; done].
Qed.

Lemma distance_per_vehicle_within_range_witness :
  let r := use_row 2023 "Electricity" "D1" (140 # 2) "BEV_S1_2023" 2 in
  ∃ v s y iu ik dpv,
    r_id r = vehicle_id v s y ∧ pool_vintage (r_year r) y ∧
    use_vars demo_model !! (r_year r, v, s, r_distance_bucket r, r_fuel r) = Some iu ∧
    km_vars demo_model !! (r_year r, v, s, r_distance_bucket r, r_fuel r) = Some ik ∧
    0 < py_round (value demo_integral iu) ∧
    r_distance_per_vehicle r = Some dpv ∧
    dpv = (value demo_integral ik / inject_Z (py_round (value demo_integral iu)))%Q ∧
    (value demo_integral ik <=
       dict_get (vehicle_range demo_params) (v, s, r_year r) 0 * value demo_integral iu)%Q ∧
    ((0 <= dict_get (vehicle_range demo_params) (v, s, r_year r) 0)%Q →
     (value demo_integral iu <= inject_Z (py_round (value demo_integral iu)))%Q →
     (dpv <= dict_get (vehicle_range demo_params) (v, s, r_year r) 0)%Q ∧
     ((dict_get (vehicle_range demo_params) (v, s, r_year r) 0
       <= dict_get (vehicle_range demo_params) (v, s, y) 0)%Q →
      (dpv <= dict_get (vehicle_range demo_params) (v, s, y) 0)%Q) ∧
     (y = r_year r → (dpv <= dict_get (vehicle_range demo_params) (v, s, y) 0)%Q)).
Proof.
  apply (distance_per_vehicle_within_range demo_data demo_params demo_model demo_integral
    (match decode demo_params demo_model demo_integral with
     | Ok rows => rows | Raise _ => [] end)).
  - exact demo_built.
  - apply feasibleb_true. vm_compute. reflexivity.
  - vm_compute. reflexivity.
  - vm_compute. right. left.
  - reflexivity.
Defined.

(** C10. The decoder divides the Km value by the rounded Use count only
    when this count is positive. Division by zero is an error of the
    embedding ([py_div a 0] raises it), and no assignment makes the
    decoder raise it, in any duty. A duty whose Use value rounds to zero
    or below returns at once and leaves the rows and the pools as they
    are; every Use row of a submission belongs to a duty whose rounded
    Use count is positive. On a built model and a vector with one value
    per variable the decoder raises nothing at all. *)
Theorem division_by_zero_guarded (P : Params) (R : Builder) (xs : list Q) :
  (∀ a, py_div a 0 = Raise ZeroDivisionError) ∧
  decode P R xs ≠ Raise ZeroDivisionError ∧
  (∀ t v s d f st,
     assign_duty R xs t v s d f st ≠ Raise ZeroDivisionError) ∧
  (∀ t v s d f iu ik qu qk st,
     use_vars R !! (t, v, s, d, f) = Some iu →
     km_vars R !! (t, v, s, d, f) = Some ik →
     xs !! iu = Some qu → xs !! ik = Some qk → py_round qu ≤ 0 →
     assign_duty R xs t v s d f st = Ok (tt, st)) ∧
  (∀ rows r, decode P R xs = Ok rows → r ∈ rows → r_type r = "Use" →
     ∃ v s iu qu,
       use_vars R !! (r_year r, v, s, r_distance_bucket r, r_fuel r) = Some iu ∧
       xs !! iu = Some qu ∧ 0 < py_round qu) ∧
  (variables_ok P R → length xs = length (var_names (model R)) →
   ∃ rows, decode P R xs = Ok rows).
Proof.
  split_and!.
  - done.
  - apply decode_no_zde.
  - intros t v s d f st. apply assign_duty_no_zde.
  - intros t v s d f iu ik qu qk st. apply assign_duty_skip.
  - intros rows r Hdec Hr Htype.
    destruct (decode_rows_ok P R xs rows Hdec r Hr) as [[Hb _] | [[Hs _] | [_ Hduty]]];
      [congruence | congruence |].
    destruct Hduty as (t & v & s & d & f & iu & ik & qu & qk & y & _ & _ & _ & _ & _ &
      Hiu & _ & Hqu & _ & Hpos & <- & <- & <- & _).
    by exists v, s, iu, qu.
  - intros HR Hlen. by eapply decode_total.
Qed.

(** C6. The decoder is a function of the rounded assignment: on two
    assignments whose count variables round to the same integers and
    whose Km variables have the same values, with the same parameter maps
    and registries, it returns the same rows in the same order, or raises
    the same exception. *)
Theorem decoder_deterministic (P : Params) (R : Builder) (xs xs' : list Q) :
  same_rounded R xs xs' → decode P R xs = decode P R xs'.
Proof. apply decode_same. Qed.

Lemma decoder_deterministic_witness :
  decode demo_params demo_model demo_relaxed
  = decode demo_params demo_model demo_relaxed'.
Proof.
  apply (decoder_deterministic demo_params demo_model demo_relaxed demo_relaxed').
  split; vm_compute; repeat constructor.
Defined.

(** C8, as stated, fails: with a solver that reports a failure, the run
    on the small instance raises nothing; it returns to its caller. *)
Lemma failure_raises_fails : ¬ failure_raises failing_solver demo_data.
Proof.
  intros H. destruct (H demo_params demo_model) as [e He].
  - exact demo_built.
  - reflexivity.
  - rewrite (solve_optimization_built failing_solver demo_data demo_params demo_model
               demo_built) in He.
    discriminate He.
Qed.

(** C8, amended. When the model is built and the solver reports a
    failure, the run raises no error: it prints the lines of the run,
    then [Optimization failed!], and returns to its caller without a
    submission. The solver is consulted on the built model only: a solver
    that answers the same on this model gives the same run, so nothing is
    solved a second time and no row is relaxed. *)
Theorem solver_failure_returns
    (milp : OptimizationModel → SolverResult) (data : Data)
    (P : Params) (R : Builder) :
  build_model data = Ok (P, R) →
  success (milp (model R)) = false →
  solve_optimization milp data =
    Ok {| printed := run_log (model R) (milp (model R)) ++ ["Optimization failed!"];
          submission := None |} ∧
  (∀ milp', milp' (model R) = milp (model R) →
            solve_optimization milp' data = solve_optimization milp data).
Proof.
  intros Hb Hfail. split.
  - rewrite (solve_optimization_built milp data P R Hb). by rewrite Hfail.
  - intros milp' Heq.
    rewrite (solve_optimization_built milp data P R Hb),
            (solve_optimization_built milp' data P R Hb). by rewrite Heq.
Qed.

Lemma solver_failure_returns_witness :
  solve_optimization failing_solver demo_data =
    Ok {| printed := run_log (model demo_model) (failing_solver (model demo_model))
                       ++ ["Optimization failed!"];
          submission := None |} ∧
  (∀ milp', milp' (model demo_model) = failing_solver (model demo_model) →
            solve_optimization milp' demo_data
            = solve_optimization failing_solver demo_data).
Proof.
  apply (solver_failure_returns failing_solver demo_data demo_params demo_model).
  - exact demo_built.
  - reflexivity.
Defined.

(** C5, as stated, fails on the small instance. The assignment
    [demo_short] is feasible for the relaxed model. In 2023 the pool holds
    the 2 vehicles bought (2.1, rounded); the duty D1 takes both (Use 3/2,
    rounded to 2), and the duty D2, whose Use value 3/5 rounds to 1, gets
    none. The run prints the lines of every successful run and nothing
    else. *)
Lemma shortfall_reported_fails :
  feasible demo_short (model demo_model) ∧
  ¬ shortfall_reported short_solver demo_data.
Proof.
  split; [apply feasibleb_true; vm_compute; reflexivity|].
  intros H.
  destruct (decode demo_params demo_model demo_short) as [rows|] eqn:Hdec;
    [|exfalso; revert Hdec; vm_compute; discriminate].
  assert (allocated rows 2023 "BEV" "S1" "D2" "Electricity" < py_round (3 # 5))
    as Hshort.
  { replace rows with (match decode demo_params demo_model demo_short with
                       | Ok rows => rows | Raise _ => [] end) by (by rewrite Hdec).
    vm_compute. reflexivity. }
  assert (rows ≠ []) as Hrows.
  { replace rows with (match decode demo_params demo_model demo_short with
                       | Ok rows => rows | Raise _ => [] end) by (by rewrite Hdec).
    vm_compute. discriminate. }
  pose proof (solve_optimization_built short_solver demo_data demo_params demo_model
                demo_built) as Hrun.
  change (success (short_solver (model demo_model))) with true in Hrun.
  change (res_x (short_solver (model demo_model))) with demo_short in Hrun.
  cbn [negb] in Hrun. rewrite Hdec in Hrun. cbn [rbind] in Hrun.
  rewrite bool_decide_eq_false_2 in Hrun by done.
  destruct (H demo_params demo_model _ rows demo_built Hrun eq_refl)
    as (line & Hin & Hout).
  - exists 2023, "BEV", "S1", "D2", "Electricity", 4%nat, (3 # 5)%Q.
    split_and!; [vm_compute; reflexivity | reflexivity | vm_compute; reflexivity
                | exact Hshort].
  - exact (Hout Hin).
Qed.

(** C5, amended. When the pool of the class holds fewer vehicles than
    the positive rounded Use count of a duty, the allocation gives the
    duty what the pool holds, which is less than the count, leaves every
    count of the pool at zero and goes on with the rest of the need open;
    no warning is made of it: a run that decodes a submission prints the
    lines of the run and [Submission saved to submission.csv], whatever
    the allocation was, and raises nothing. *)
Theorem pool_shortfall_silent
    (t : Z) (f d : string) (avg : Q) (pool : list PoolItem) (needed : Z) :
  pool_nonneg pool → 0 < needed → pool_total pool < needed →
  (∃ pool' rs rem,
     allocate (use_row t f d avg) pool needed = (pool', rs, rem) ∧
     vehicles_of rs = pool_total pool ∧
     vehicles_of rs < needed ∧
     rem = needed - pool_total pool ∧
     Forall (λ it, item_count it = 0) pool') ∧
  (∀ milp data P R o,
     build_model data = Ok (P, R) →
     solve_optimization milp data = Ok o →
     success (milp (model R)) = true →
     printed o = run_log (model R) (milp (model R))
                   ++ ["Submission saved to submission.csv"] ∧
     ∃ rows, submission o = Some rows ∧
             decode P R (res_x (milp (model R))) = Ok rows).
Proof.
  intros Hpool Hneeded Hshort. split.
  - destruct (allocate (use_row t f d avg) pool needed) as [[pool' rs] rem] eqn:Ha.
    assert (0 ≤ needed) as Hn by lia.
    destruct (allocate_account _ _ _ _ _ _ _ _ _ Hpool Hn Ha) as (H1 & H2 & H3 & H4).
    exists pool', rs, rem. split_and!; [done | lia | lia | lia |].
    apply pool_total_zero; [by eapply pool_nonneg_after | lia].
  - intros milp data P R o Hb Hrun Hok.
    rewrite (solve_optimization_built milp data P R Hb), Hok in Hrun. cbn in Hrun.
    apply rbind_ok in Hrun as (rows & Hdec & Hrun).
    destruct (bool_decide (rows = [])); [done|]. injection Hrun as <-.
    split; [done|]. by exists rows.
Qed.

Lemma pool_shortfall_silent_witness :
  let pool := [ {| item_id := "BEV_S1_2023"; item_count := 0 |} ] in
  (∃ pool' rs rem,
     allocate (use_row 2023 "Electricity" "D2" 60) pool 1 = (pool', rs, rem) ∧
     vehicles_of rs = pool_total pool ∧
     vehicles_of rs < 1 ∧
     rem = 1 - pool_total pool ∧
     Forall (λ it, item_count it = 0) pool') ∧
  (∀ milp data P R o,
     build_model data = Ok (P, R) →
     solve_optimization milp data = Ok o →
     success (milp (model R)) = true →
     printed o = run_log (model R) (milp (model R))
                   ++ ["Submission saved to submission.csv"] ∧
     ∃ rows, submission o = Some rows ∧
             decode P R (res_x (milp (model R))) = Ok rows).
Proof.
  apply (pool_shortfall_silent 2023 "Electricity" "D2" 60).
  - repeat constructor; cbn; lia.
  - lia.
  - vm_compute. reflexivity.
Defined.

(** * Further properties *)

(** ** The model under construction *)

(** X1. Round trip of a constraint through the sparse storage: on a
    well-formed model and for one of the three senses, [add_constraint]
    keeps the model well formed and leaves every earlier row as it was;
    the new row, read back from the (row, column, value) triples, has
    exactly the terms given, in order, and the bounds of the sense:
    [rhs, rhs] for [==], [-inf, rhs] for [<=], [rhs, +inf] for [>=]. *)
Theorem add_constraint_round_trip
    (terms : list term) (sense : string) (rhs : Q) (m : OptimizationModel) :
  wf_model m → valid_sense sense →
  wf_model (add_constraint terms sense rhs m) ∧
  rows (add_constraint terms sense rhs m) = rows m ++ [row_of terms sense rhs] ∧
  (∀ i, (i < constraint_count m)%nat →
        row (add_constraint terms sense rhs m) i = row m i) ∧
  row (add_constraint terms sense rhs m) (constraint_count m)
    = Some {| c_terms := terms;
              c_lb := if String.eqb sense "<=" then NegInf else Fin rhs;
              c_ub := if String.eqb sense ">=" then PosInf else Fin rhs |} ∧
  vars_of (add_constraint terms sense rhs m) = vars_of m.
Proof.
  intros Hwf Hs. split_and!.
  - by apply wf_add_constraint.
  - by apply rows_add_constraint.
  - intros i Hi. by apply row_add_constraint_old.
  - by apply row_add_constraint_new.
  - done.
Qed.

Lemma add_constraint_round_trip_witness :
  let m := add_constraint [(1%Q, 0%nat); ((-1)%Q, 1%nat)] "==" 0%Q new_model in
  let terms := [(1%Q, 1%nat); ((-7 # 2)%Q, 2%nat)] in
  wf_model (add_constraint terms ">=" 5%Q m) ∧
  rows (add_constraint terms ">=" 5%Q m) = rows m ++ [row_of terms ">=" 5%Q] ∧
  (∀ i, (i < constraint_count m)%nat →
        row (add_constraint terms ">=" 5%Q m) i = row m i) ∧
  row (add_constraint terms ">=" 5%Q m) (constraint_count m)
    = Some {| c_terms := terms;
              c_lb := if String.eqb ">=" "<=" then NegInf else Fin 5%Q;
              c_ub := if String.eqb ">=" ">=" then PosInf else Fin 5%Q |} ∧
  vars_of (add_constraint terms ">=" 5%Q m) = vars_of m.
Proof.
  apply (add_constraint_round_trip [(1%Q, 1%nat); ((-7 # 2)%Q, 2%nat)] ">=" 5%Q).
  - apply wf_add_constraint; [by left | apply wf_new_model].
  - right. by right.
Defined.

(** X2. A sense that is none of [==], [<=] and [>=] is not refused: the
    row is counted and its triples are stored, but no bound is stored for
    it, so the lists of bounds fall one short of the count of rows and the
    model is no longer well formed; the row cannot be read back. *)
Theorem add_constraint_unknown_sense
    (terms : list term) (sense : string) (rhs : Q) (m : OptimizationModel) :
  wf_model m → ¬ valid_sense sense →
  constraint_count (add_constraint terms sense rhs m) = S (constraint_count m) ∧
  constraints_vals (add_constraint terms sense rhs m)
    = constraints_vals m ++ terms.*1 ∧
  constraints_lbs (add_constraint terms sense rhs m) = constraints_lbs m ∧
  constraints_ubs (add_constraint terms sense rhs m) = constraints_ubs m ∧
  row (add_constraint terms sense rhs m) (constraint_count m) = None ∧
  ¬ wf_model (add_constraint terms sense rhs m).
Proof.
  intros Hwf Hs.
  assert (String.eqb sense "==" = false ∧ String.eqb sense "<=" = false ∧
          String.eqb sense ">=" = false) as (E1 & E2 & E3).
  { split_and!; apply String.eqb_neq; intros ->; apply Hs;
      [by left | right; by left | right; by right]. }
  assert (constraints_lbs (add_constraint terms sense rhs m) = constraints_lbs m) as Hl.
  { cbn. rewrite E1, E2, E3. apply app_nil_r. }
  assert (constraints_ubs (add_constraint terms sense rhs m) = constraints_ubs m) as Hu.
  { cbn. rewrite E1, E2, E3. apply app_nil_r. }
  split_and!; [done | done | done | done | |].
  - unfold row. rewrite Hl. destruct Hwf as [_ _ _ Hlen _].
    by rewrite (lookup_ge_None_2 (constraints_lbs m)) by (rewrite Hlen; lia).
  - intros [_ _ _ Hlen _]. rewrite Hl in Hlen. cbn in Hlen. destruct Hwf. lia.
Qed.

Lemma add_constraint_unknown_sense_witness :
  let terms := [(1%Q, 0%nat)] in
  constraint_count (add_constraint terms "<" 3%Q new_model)
    = S (constraint_count new_model) ∧
  constraints_vals (add_constraint terms "<" 3%Q new_model)
    = constraints_vals new_model ++ terms.*1 ∧
  constraints_lbs (add_constraint terms "<" 3%Q new_model)
    = constraints_lbs new_model ∧
  constraints_ubs (add_constraint terms "<" 3%Q new_model)
    = constraints_ubs new_model ∧
  row (add_constraint terms "<" 3%Q new_model) (constraint_count new_model) = None ∧
  ¬ wf_model (add_constraint terms "<" 3%Q new_model).
Proof.
  apply (add_constraint_unknown_sense [(1%Q, 0%nat)] "<" 3%Q new_model).
  - apply wf_new_model.
  - intros [H | [H | H]]; discriminate H.
Defined.

(** X3. What a constraint does to the feasible set: on a well-formed
    model, an assignment is feasible after [add_constraint] exactly when it
    was feasible before and the weighted sum of the terms compares with the
    right-hand side as the sense says. *)
Theorem add_constraint_feasible
    (xs : list Q) (terms : list term) (sense : string) (rhs : Q)
    (m : OptimizationModel) :
  wf_model m → valid_sense sense →
  (feasible xs (add_constraint terms sense rhs m) ↔
   feasible xs m ∧
   if String.eqb sense "==" then (row_sum xs terms == rhs)%Q
   else if String.eqb sense "<=" then (row_sum xs terms <= rhs)%Q
   else (rhs <= row_sum xs terms)%Q).
Proof.
  intros Hwf Hs. unfold feasible. rewrite rows_add_constraint by done.
  setoid_rewrite elem_of_app. setoid_rewrite list_elem_of_singleton.
  assert (satisfies xs (row_of terms sense rhs) ↔
          if String.eqb sense "==" then (row_sum xs terms == rhs)%Q
          else if String.eqb sense "<=" then (row_sum xs terms <= rhs)%Q
          else (rhs <= row_sum xs terms)%Q) as Hsat.
  { unfold satisfies, row_of. cbn [c_lb c_ub c_terms].
    destruct Hs as [-> | [-> | ->]]; cbn; split.
    - intros [H1 H2]. lra.
    - intros H. split; lra.
    - by intros [_ H].
    - done.
    - by intros [H _].
    - done. }
  rewrite <- Hsat. split.
  - intros H. split; [intros c Hc; apply H; by left | apply H; by right].
  - intros [H1 H2] c [Hc | ->]; [by apply H1 | done].
Qed.

Lemma add_constraint_feasible_witness :
  feasible [3; 4]%Q (add_constraint [(2%Q, 0%nat); ((-1)%Q, 1%nat)] "<=" 5%Q new_model) ↔
  feasible [3; 4]%Q new_model ∧
  if String.eqb "<=" "==" then (row_sum [3; 4]%Q [(2%Q, 0%nat); ((-1)%Q, 1%nat)] == 5)%Q
  else if String.eqb "<=" "<=" then
    (row_sum [3; 4]%Q [(2%Q, 0%nat); ((-1)%Q, 1%nat)] <= 5)%Q
  else (5 <= row_sum [3; 4]%Q [(2%Q, 0%nat); ((-1)%Q, 1%nat)])%Q.
Proof.
  apply (add_constraint_feasible [3; 4]%Q [(2%Q, 0%nat); ((-1)%Q, 1%nat)] "<=" 5%Q).
  - apply wf_new_model.
  - right. by left.
Defined.

(** X4. Round trip of a variable: on aligned lists, [add_variable] returns
    the number of variables there were as the index of the new one, records
    its name, type, bounds and objective coefficient at that index (type 1
    only for the string [integer], 0 for any other string), leaves every
    earlier variable and every constraint row as it was, and keeps the
    lists aligned. The name map then sends the name to the new index, also
    when an earlier variable had the same name, and is unchanged on every
    other name. *)
Theorem add_variable_round_trip
    (name var_type : string) (lb ub : bound) (obj : Q) (m : OptimizationModel) :
  vars_aligned m →
  let idx := (add_variable name var_type lb ub obj m).1 in
  let m' := (add_variable name var_type lb ub obj m).2 in
  idx = length (var_names m) ∧
  vars_aligned m' ∧
  variable m' idx
    = Some (name, if String.eqb var_type "integer" then 1 else 0, lb, ub, obj) ∧
  (∀ j, (j < idx)%nat → variable m' j = variable m j) ∧
  var_map m' !! name = Some idx ∧
  (∀ n, n ≠ name → var_map m' !! n = var_map m !! n) ∧
  rows m' = rows m.
Proof.
  intros (Ht & Hl & Hu & Ho). cbn zeta. cbn [add_variable fst snd]. split_and!.
  - done.
  - unfold vars_aligned. cbn. rewrite !length_app. cbn. lia.
  - unfold variable. cbn.
    rewrite (lookup_app_r (var_names m)), (lookup_app_r (var_types m)),
      (lookup_app_r (lbs m)), (lookup_app_r (ubs m)), (lookup_app_r (obj_coeffs m))
      by lia.
    rewrite Ht, Hl, Hu, Ho, Nat.sub_diag. done.
  - intros j Hj. unfold variable. cbn.
    by rewrite !lookup_app_l by lia.
  - cbn. apply lookup_insert_eq.
  - intros n Hn. cbn. by apply lookup_insert_ne.
  - done.
Qed.

Lemma add_variable_round_trip_witness :
  let m := (add_variable "Buy_2023_BEV_S1" "continuous" (Fin 0) PosInf 500%Q new_model).2 in
  let idx := (add_variable "Buy_2023_BEV_S1" "Integer" (Fin 0) (Fin 9) 7%Q m).1 in
  let m' := (add_variable "Buy_2023_BEV_S1" "Integer" (Fin 0) (Fin 9) 7%Q m).2 in
  idx = length (var_names m) ∧
  vars_aligned m' ∧
  variable m' idx
    = Some ("Buy_2023_BEV_S1", if String.eqb "Integer" "integer" then 1 else 0,
            Fin 0, Fin 9, 7%Q) ∧
  (∀ j, (j < idx)%nat → variable m' j = variable m j) ∧
  var_map m' !! "Buy_2023_BEV_S1" = Some idx ∧
  (∀ n, n ≠ "Buy_2023_BEV_S1" → var_map m' !! n = var_map m !! n) ∧
  rows m' = rows m.
Proof.
  apply (add_variable_round_trip "Buy_2023_BEV_S1" "Integer" (Fin 0) (Fin 9) 7%Q).
  by repeat split.
Defined.

(** ** The variables *)

(** X5. The creation of the variables returns for every parameter set,
    before any row is added. It registers a Buy variable exactly for the
    years and classes of the sets, a Fleet variable exactly for the ages 0
    to 10 and a Sell variable exactly for the ages 1 to 10 whose purchase
    year [t - age] is not before 2023, so there is no variable for a
    vehicle older than 10 years. The variable of a key is continuous with
    the bounds 0 and infinity and carries the name of the key; its
    objective coefficient is the purchase cost for Buy, the cost of the
    purchase year times the sum of the maintenance and insurance rates of
    the age for Fleet, and minus that cost times the resale rate of the age
    for Sell (a missing table entry counts as 0). No two keys share a
    variable. *)
Theorem variables_created (P : Params) :
  ∃ b, create_variables P new_builder = Ok (tt, b) ∧
    rows (model b) = [] ∧
    (∀ t v s, is_Some (buy_vars b !! (t, v, s)) ↔
       t ∈ years P ∧ v ∈ vehicle_types P ∧ s ∈ sizes P) ∧
    (∀ t v s age, is_Some (fleet_vars b !! (t, v, s, age)) ↔
       t ∈ years P ∧ v ∈ vehicle_types P ∧ s ∈ sizes P ∧
       0 ≤ age ≤ 10 ∧ 2023 ≤ t - age) ∧
    (∀ t v s age, is_Some (sell_vars b !! (t, v, s, age)) ↔
       t ∈ years P ∧ v ∈ vehicle_types P ∧ s ∈ sizes P ∧
       1 ≤ age ≤ 10 ∧ 2023 ≤ t - age) ∧
    (∀ t v s i, buy_vars b !! (t, v, s) = Some i →
       variable (model b) i
       = Some (buy_name t v s, 0, Fin 0, PosInf,
               dict_get (vehicle_cost P) (v, s, t) 0%Q)) ∧
    (∀ t v s age i, fleet_vars b !! (t, v, s, age) = Some i →
       variable (model b) i
       = Some (fleet_name t v s age, 0, Fin 0, PosInf,
               (dict_get (vehicle_cost P) (v, s, (t - age)%Z) 0 *
                (dict_get (maintenance_profile P) age 0 / 100 +
                 dict_get (insurance_profile P) age 0 / 100))%Q)) ∧
    (∀ t v s age i, sell_vars b !! (t, v, s, age) = Some i →
       variable (model b) i
       = Some (sell_name t v s age, 0, Fin 0, PosInf,
               ((-1)%Q * dict_get (vehicle_cost P) (v, s, (t - age)%Z) 0 *
                (dict_get (resale_profile P) age 0 / 100))%Q)) ∧
    (∀ key1 key2 i, reg_lookup b key1 = Some i → reg_lookup b key2 = Some i →
       key1 = key2).
Proof.
  destruct (create_variables_declared P) as (b & Hrun & Hreg).
  pose proof (create_variables_inv P b Hrun) as Hinv.
  exists b. split; [done|]. split; [by apply (builder_inv_wf P)|].
  assert (∀ key i, reg_lookup b key = Some i →
            variable (model b) i = Some (name_of key, 0, Fin 0, PosInf, obj_of P key)) as Hvar.
  { intros key i Hk. apply (inv_var _ _ Hinv) in Hk as (? & ? & ? & ? & ?).
    by apply variable_Some. }
  split_and!.
  - intros t v s. apply (Hreg (KBuy (t, v, s))).
  - intros t v s age. apply (Hreg (KFleet (t, v, s, age))).
  - intros t v s age. apply (Hreg (KSell (t, v, s, age))).
  - intros t v s i Hk. apply (Hvar (KBuy (t, v, s)) i Hk).
  - intros t v s age i Hk. apply (Hvar (KFleet (t, v, s, age)) i Hk).
  - intros t v s age i Hk. apply (Hvar (KSell (t, v, s, age)) i Hk).
  - apply (inv_inj _ _ Hinv).
Qed.

(** X6. The model that goes to the solver is a relaxation: when the model
    is built, every one of its variables, registered or not, has the type
    0 (continuous), the lower bound 0 and the upper bound infinity, and the
    five per-variable lists have one length. No vehicle count is declared
    an integer. *)
Theorem built_model_relaxed (data : Data) (P : Params) (R : Builder) :
  build_model data = Ok (P, R) →
  vars_aligned (model R) ∧
  ∀ i, (i < length (var_names (model R)))%nat →
    ∃ name obj, variable (model R) i = Some (name, 0, Fin 0, PosInf, obj).
Proof.
  intros (b & m & HP & Hb & Hm & ->)%build_model_steps.
  destruct (create_variables_relaxed P b Hb) as [Hrel Hal].
  pose proof (create_variables_inv P b Hb) as Hinv.
  destruct (generates_run P b _ _ m Hinv (generates_add_constraints P b) Hm)
    as (_ & _ & Hvars).
  cbn [with_model model].
  apply (relaxed_vars_of _ _ Hvars) in Hrel.
  apply (vars_aligned_vars_of _ _ Hvars) in Hal.
  split; [done|]. intros i Hi.
  destruct Hal as (At & Al & Au & Ao). destruct Hrel as (Ht & Hl & Hu).
  destruct (lookup_lt_is_Some_2 (var_names m) i) as [name Hn]; [done|].
  destruct (lookup_lt_is_Some_2 (var_types m) i) as [ty Hty]; [lia|].
  destruct (lookup_lt_is_Some_2 (lbs m) i) as [lb Hlb]; [lia|].
  destruct (lookup_lt_is_Some_2 (ubs m) i) as [ub Hub]; [lia|].
  destruct (lookup_lt_is_Some_2 (obj_coeffs m) i) as [obj Hobj]; [lia|].
  exists name, obj.
  rewrite (Forall_lookup_1 _ _ _ _ Ht Hty) in Hty.
  rewrite (Forall_lookup_1 _ _ _ _ Hl Hlb) in Hlb.
  rewrite (Forall_lookup_1 _ _ _ _ Hu Hub) in Hub.
  by apply variable_Some.
Qed.

Lemma built_model_relaxed_witness :
  vars_aligned (model demo_model) ∧
  ∀ i, (i < length (var_names (model demo_model)))%nat →
    ∃ name obj, variable (model demo_model) i = Some (name, 0, Fin 0, PosInf, obj).
Proof. exact (built_model_relaxed demo_data demo_params demo_model demo_built). Defined.

(** ** The rows of the capacity links and of the usage limit *)

(** X7. When the model is built, every Km variable [(t, v, s, d, f)] has
    its Use variable, a different one, and the model has the row
    [Km - range * Use <= 0], where the range is the yearly range that the
    vehicles table gives for the class in the year [t] of the duty, and 0
    when the table has no such entry. A feasible assignment therefore has
    [Km <= range * Use], and [Km <= 0] for a class that the table does not
    list in that year. *)
Theorem capacity_link_emitted
    (data : Data) (P : Params) (R : Builder) (t : Z) (v s d f : string) (ik : nat) :
  build_model data = Ok (P, R) →
  km_vars R !! (t, v, s, d, f) = Some ik →
  ∃ iu,
    use_vars R !! (t, v, s, d, f) = Some iu ∧ iu ≠ ik ∧
    row_of [(1%Q, ik); ((- dict_get (vehicle_range P) (v, s, t) 0)%Q, iu)] "<=" 0%Q
      ∈ rows (model R) ∧
    (∀ xs, feasible xs (model R) →
       (value xs ik <= dict_get (vehicle_range P) (v, s, t) 0 * value xs iu)%Q) ∧
    (vehicle_range P !! (v, s, t) = None →
     ∀ xs, feasible xs (model R) → (value xs ik <= 0)%Q).
Proof.
  intros Hbuild Hik.
  destruct (build_model_inv data P R Hbuild)
    as (t1 & t2 & t3 & t4 & Hpar & HR & _ & _ & H2 & _ & _ & Hrows).
  pose proof (vo_reg P R HR) as Hreg.
  assert (declared P (KKm (t, v, s, d, f))) as (Ht & Hv & Hs & Hd & Hf & _).
  { apply Hreg. cbn. by rewrite Hik. }
  destruct (link_km_use_rows_in P R Hreg t s d v f ik Hik) as (iu & Hiu & Hlink).
  exists iu. split; [done|].
  assert (iu ≠ ik) as Hne.
  { intros ->.
    by pose proof (vo_inj P R HR (KUse (t, v, s, d, f)) (KKm (t, v, s, d, f)) ik Hiu Hik). }
  split; [done|].
  assert (le_row [(1%Q, ik); ((- dict_get (vehicle_range P) (v, s, t) 0)%Q, iu)] 0%Q
            ∈ rows (model R)) as Hin.
  { rewrite Hrows, !elem_of_app. right. left.
    destruct (gather_ok_inv _ _ _ t H2 Ht) as (tr1 & Htr1).
    destruct (gather_ok_inv _ _ _ s Htr1 Hs) as (tr2 & Htr2).
    destruct (gather_ok_inv _ _ _ d Htr2 Hd) as (tr & Hcell).
    eapply demand_cell_rows_sub; [exact Ht | exact Hs | exact Hd | exact H2
                                 | exact Hcell |].
    pose proof Hcell as Hcell'. unfold demand_cell_rows in Hcell'.
    apply rbind_ok in Hcell' as (dem & Hdem & _).
    unfold getitem in Hdem. destruct (demand_dict P !! (t, s, d)) as [dem'|] eqn:E;
      [|done]. injection Hdem as ->.
    destruct (demand_cell_rows_in P R Hreg t s d dem E) as (links & Hcell2 & Hlinks).
    rewrite Hcell in Hcell2. injection Hcell2 as ->. right.
    destruct (gather_ok_inv _ _ _ v Hlinks Hv) as (l1 & Hl1).
    eapply gather_sub; [exact Hlinks | exact Hv | exact Hl1 |].
    eapply gather_sub; [exact Hl1 | exact Hf | exact Hlink | by left]. }
  split; [by rewrite row_of_le|].
  assert (∀ xs, feasible xs (model R) →
            (value xs ik <= dict_get (vehicle_range P) (v, s, t) 0 * value xs iu)%Q) as Hle.
  { intros xs Hxs. by apply satisfies_link, Hxs. }
  split; [done|]. intros Hnone xs Hxs. specialize (Hle xs Hxs).
  unfold dict_get in Hle. rewrite Hnone in Hle. cbn in Hle. lra.
Qed.

Lemma capacity_link_emitted_witness :
  ∃ iu,
    use_vars demo_model !! (2024, "BEV", "S1", "D2", "Electricity") = Some iu ∧ iu ≠ 13%nat ∧
    row_of [(1%Q, 13%nat);
            ((- dict_get (vehicle_range demo_params) ("BEV", "S1", 2024%Z) 0)%Q, iu)] "<=" 0%Q
      ∈ rows (model demo_model) ∧
    (∀ xs, feasible xs (model demo_model) →
       (value xs 13 <= dict_get (vehicle_range demo_params) ("BEV", "S1", 2024%Z) 0
                       * value xs iu)%Q) ∧
    (vehicle_range demo_params !! ("BEV", "S1", 2024) = None →
     ∀ xs, feasible xs (model demo_model) → (value xs 13 <= 0)%Q).
Proof.
  apply (capacity_link_emitted demo_data demo_params demo_model 2024 "BEV" "S1" "D2"
           "Electricity" 13).
  - exact demo_built.
  - vm_compute. reflexivity.
Defined.

(** X8. When the model is built, it has for every year [t] and class
    [(v, s)] of the sets the row [sum of Use - sum of Fleet <= 0]: the Use
    variables of the class in the year over all distances and fuels, each
    with the coefficient 1, then its Fleet variables over the ages 0 to 10,
    each with the coefficient -1. A feasible assignment therefore uses, over
    all duties of the class, at most the vehicles that the fleet of the
    year holds over all ages. *)
Theorem usage_limit_emitted
    (data : Data) (P : Params) (R : Builder) (t : Z) (v s : string) :
  build_model data = Ok (P, R) →
  t ∈ years P → v ∈ vehicle_types P → s ∈ sizes P →
  row_of (((λ i, (1%Q, i)) <$> use_indices P R t v s) ++
          ((λ i, ((-1)%Q, i)) <$> fleet_indices R t v s)) "<=" 0%Q
    ∈ rows (model R) ∧
  (∀ i, i ∈ use_indices P R t v s ↔
        ∃ d f, d ∈ distances P ∧ f ∈ fuels P ∧ use_vars R !! (t, v, s, d, f) = Some i) ∧
  (∀ i, i ∈ fleet_indices R t v s ↔
        ∃ age, 0 ≤ age ≤ 10 ∧ fleet_vars R !! (t, v, s, age) = Some i) ∧
  (∀ xs, feasible xs (model R) →
     (total_value xs (use_indices P R t v s)
      <= total_value xs (fleet_indices R t v s))%Q).
Proof.
  intros Hbuild Ht Hv Hs.
  destruct (build_model_inv data P R Hbuild)
    as (t1 & t2 & t3 & t4 & Hpar & HR & _ & _ & _ & H3 & _ & Hrows).
  assert (le_row (use_terms P R t v s ++ fleet_terms R t v s) 0%Q ∈ rows (model R))
    as Hin.
  { rewrite Hrows, !elem_of_app. right. right. left.
    unfold usage_limit_rows in H3.
    destruct (gather_ok_inv _ _ _ t H3 Ht) as (l1 & Hl1).
    destruct (gather_ok_inv _ _ _ v Hl1 Hv) as (l2 & Hl2).
    eapply gather_sub; [exact H3 | exact Ht | exact Hl1 |].
    eapply gather_sub; [exact Hl1 | exact Hv | exact Hl2 |].
    eapply gather_sub; [exact Hl2 | exact Hs | reflexivity | by left]. }
  rewrite use_terms_indices, fleet_terms_indices in Hin.
  split_and!.
  - by rewrite row_of_le.
  - apply elem_of_use_indices.
  - apply elem_of_fleet_indices.
  - intros xs Hxs. apply Hxs, satisfies_le_row in Hin.
    rewrite row_sum_app, row_sum_plus, row_sum_minus in Hin. lra.
Qed.

Lemma usage_limit_emitted_witness :
  row_of (((λ i, (1%Q, i)) <$> use_indices demo_params demo_model 2024 "BEV" "S1") ++
          ((λ i, ((-1)%Q, i)) <$> fleet_indices demo_model 2024 "BEV" "S1")) "<=" 0%Q
    ∈ rows (model demo_model) ∧
  (∀ i, i ∈ use_indices demo_params demo_model 2024 "BEV" "S1" ↔
        ∃ d f, d ∈ distances demo_params ∧ f ∈ fuels demo_params ∧
               use_vars demo_model !! (2024, "BEV", "S1", d, f) = Some i) ∧
  (∀ i, i ∈ fleet_indices demo_model 2024 "BEV" "S1" ↔
        ∃ age, 0 ≤ age ≤ 10 ∧ fleet_vars demo_model !! (2024, "BEV", "S1", age) = Some i) ∧
  (∀ xs, feasible xs (model demo_model) →
     (total_value xs (use_indices demo_params demo_model 2024 "BEV" "S1")
      <= total_value xs (fleet_indices demo_model 2024 "BEV" "S1"))%Q).
Proof.
  apply (usage_limit_emitted demo_data demo_params demo_model 2024 "BEV" "S1").
  - exact demo_built.
  - vm_compute. right. left.
  - vm_compute. left.
  - vm_compute. left.
Defined.

(** ** The errors of the model builder *)

(** X9. The horizon that the generator supports is the one that starts in
    2023 and has no gap. With at least one vehicle type and one size, when
    the targets name a year before 2023, or a year after 2023 whose
    previous year they do not name, the fleet dynamics look up a Fleet
    variable that was never created and the build ends in a [KeyError];
    no model is returned. *)
Theorem broken_horizon_raises (data : Data) (P : Params) (t : Z) :
  parameters data = Ok P →
  vehicle_types P ≠ [] → sizes P ≠ [] →
  t ∈ years P → t < 2023 ∨ (2023 < t ∧ t - 1 ∉ years P) →
  build_model data = Raise KeyError.
Proof.
  intros HP Hvt Hsz Ht Hbad.
  destruct (build_model_rows data P HP) as (b & Hb & Hreg & Hrun).
  destruct (vehicle_types P) as [|v vt] eqn:Ev; [done|].
  destruct (sizes P) as [|s sz] eqn:Es; [done|].
  assert (v ∈ vehicle_types P) as Hv by (rewrite Ev; left).
  assert (s ∈ sizes P) as Hs by (rewrite Es; left).
  assert (∀ tr, fleet_dynamics_rows P b ≠ Ok tr) as Hno.
  { intros tr Htr. unfold fleet_dynamics_rows in Htr.
    destruct (gather_ok_inv _ _ _ t Htr Ht) as (l1 & Hl1).
    destruct (gather_ok_inv _ _ _ v Hl1 Hv) as (l2 & Hl2).
    destruct (gather_ok_inv _ _ _ s Hl2 Hs) as (l3 & Hcell).
    unfold fleet_cell_rows in Hcell.
    apply rbind_ok in Hcell as (f0 & Hf0%getitem_ok & Hcell).
    apply rbind_ok in Hcell as (b0 & _ & Hcell).
    destruct Hbad as [Hlt | [Hgt Hprev]].
    - assert (declared P (KFleet (t, v, s, 0))) as (_ & _ & _ & _ & Hbase).
      { apply Hreg. cbn. by rewrite Hf0. }
      unfold base_year in Hbase. lia.
    - unfold seq_rows in Hcell. cbn in Hcell.
      apply rbind_ok in Hcell as (l4 & Hages & _).
      destruct (gather_ok_inv _ _ _ 1 Hages) as (l5 & Hage);
        [apply elem_of_range; lia|].
      unfold fleet_aging_rows in Hage.
      rewrite bool_decide_eq_true_2 in Hage by (unfold base_year; lia).
      apply rbind_ok in Hage as (fa & _ & Hage).
      apply rbind_ok in Hage as (sa & _ & Hage).
      apply rbind_ok in Hage as (terms & Hterms & _).
      rewrite bool_decide_eq_true_2 in Hterms by (unfold base_year; lia).
      apply rbind_ok in Hterms as (fp & Hfp%getitem_ok & _).
      assert (declared P (KFleet (t - 1, v, s, 1 - 1))) as (Hin & _).
      { apply Hreg. cbn. by rewrite Hfp. }
      by rewrite Ev, Es in *. }
  unfold add_constraints_rows, seq_rows in Hrun.
  pose proof (fleet_dynamics_rows_key_error P b) as Hkey.
  destruct (fleet_dynamics_rows P b) as [tr|e]; [by destruct (Hno tr)|].
  cbn in Hrun. by rewrite (Hkey e eq_refl) in Hrun.
Qed.

Lemma broken_horizon_raises_witness : build_model gap_data = Raise KeyError.
Proof.
  assert (years (params_of gap_data) = [2023; 2025]) as Hy by (vm_compute; reflexivity).
  apply (broken_horizon_raises gap_data (params_of gap_data) 2025).
  - apply params_of_ok. vm_compute. exact I.
  - vm_compute. discriminate.
  - vm_compute. discriminate.
  - rewrite Hy. right. left.
  - right. split; [lia|]. rewrite Hy. intros H.
    apply elem_of_cons in H as [H | H]; [discriminate H|].
    apply list_elem_of_singleton in H. discriminate H.
Defined.

(** X10. With a horizon that starts in 2023 without a gap, the model is
    built exactly when the demand table has a cell for every year of the
    horizon and every size and distance that the table mentions. When a
    cell is missing, the build ends in a [KeyError]. *)
Theorem build_needs_every_demand_cell (data : Data) (P : Params) :
  parameters data = Ok P → contiguous_horizon P →
  (is_ok (build_model data) ↔ demand_complete P) ∧
  (¬ demand_complete P → build_model data = Raise KeyError).
Proof.
  intros HP Hhor.
  destruct (build_model_rows data P HP) as (b & Hb & Hreg & Hrun).
  pose proof (add_constraints_rows_key_error P b) as Hkey.
  assert (∀ e, build_model data = Raise e → e = KeyError) as Honly.
  { intros e He. destruct (add_constraints_rows P b) as [tr|e'].
    - destruct Hrun as (m & Hm & _). congruence.
    - rewrite Hrun in He. injection He as <-. by apply Hkey. }
  assert (is_ok (build_model data) → demand_complete P) as Hneed.
  { intros Hok. destruct (build_model data) as [[P' R]|] eqn:Hbuild; [|done].
    pose proof Hbuild as Hsteps. apply build_model_steps in Hsteps
      as (b' & m & HP' & _ & _ & _).
    assert (P' = P) as -> by congruence.
    destruct (build_model_inv data P R Hbuild)
      as (t1 & t2 & t3 & t4 & _ & HR & _ & _ & H2 & _).
    intros t s d Ht Hs Hd. unfold demand_satisfaction_rows in H2.
    destruct (gather_ok_inv _ _ _ t H2 Ht) as (l1 & Hl1).
    destruct (gather_ok_inv _ _ _ s Hl1 Hs) as (l2 & Hl2).
    destruct (gather_ok_inv _ _ _ d Hl2 Hd) as (l3 & Hcell).
    unfold demand_cell_rows in Hcell.
    apply rbind_ok in Hcell as (dem & Hdem%getitem_ok & _). by exists dem. }
  assert (demand_complete P → is_ok (build_model data)) as Hsuff.
  { intros Hdem.
    destruct (build_model_ok data P HP Hhor Hdem) as (R & _ & _ & _ & _ & -> & _).
    exact I. }
  split; [by split|]. intros Hmiss.
  destruct (build_model data) as [x|e] eqn:Hbuild.
  - destruct Hmiss. by apply Hneed.
  - by rewrite (Honly e eq_refl).
Qed.

Lemma build_needs_every_demand_cell_witness :
  build_model sparse_data = Raise KeyError.
Proof.
  assert (parameters sparse_data = Ok (params_of sparse_data)) as HP.
  { apply params_of_ok. vm_compute. exact I. }
  assert (contiguous_horizon (params_of sparse_data)) as Hhor.
  { exists 2. vm_compute. reflexivity. }
  destruct (build_needs_every_demand_cell sparse_data (params_of sparse_data) HP Hhor)
    as [_ Hraise].
  apply Hraise. intros Hdem.
  assert (demand_dict (params_of sparse_data) !! (2024, "S1", "D2") = None) as Hnone.
  { vm_compute. reflexivity. }
  destruct (Hdem 2024 "S1" "D2") as [dem Hsome].
  - vm_compute. right. left.
  - vm_compute. left.
  - vm_compute. right. left.
  - rewrite Hnone in Hsome. discriminate Hsome.
Defined.

(** ** The plan *)

(** X13. The plan lists the purchases and sales first, then the Use rows,
    and the first part is a fixed list: for every year and class, in the
    order of the loops (years, vehicle types, sizes), one Buy row when the
    Buy variable has a positive rounded value, with this value as the
    number of vehicles and the year in the batch id, then, for every age
    from 1 to 10 in this order, one Sell row when the Sell variable has a
    positive rounded value, with the purchase year [t - age] in the batch
    id. No variable has two rows, and a value that rounds to zero or below
    leaves no row. *)
Theorem plan_purchases_and_sales
    (P : Params) (R : Builder) (xs : list Q) (rows : list PlanRow) :
  decode P R xs = Ok rows →
  ∃ us,
    rows = trades P R xs ++ us ∧
    Forall (λ r, r_type r = "Buy" ∨ r_type r = "Sell") (trades P R xs) ∧
    Forall (λ r, r_type r = "Use") us ∧
    (∀ r, r ∈ trades P R xs ↔ is_buy_row P R xs r ∨ is_sell_row P R xs r).
Proof.
  intros (bs & us & Hbs & -> & Hus)%decode_shape.
  pose proof (buy_sell_rows_eq P R xs bs Hbs) as Heq.
  assert (∀ r, r ∈ bs ↔ is_buy_row P R xs r ∨ is_sell_row P R xs r) as Hiff.
  { intros r. by apply elem_of_buy_sell_rows. }
  subst bs. exists us. split_and!; [done | | done | done].
  apply Forall_forall. intros r [Hr | Hr]%Hiff.
  - destruct Hr as (t & v & s & idx & q & _ & _ & _ & _ & _ & _ & ->). by left.
  - destruct Hr as (t & v & s & age & idx & q & _ & _ & _ & _ & _ & _ & _ & ->).
    by right.
Qed.

Lemma plan_purchases_and_sales_witness :
  ∃ us,
    [ buy_row 2023 "BEV_S1_2023" 2;
      use_row 2023 "Electricity" "D1" 140 "BEV_S1_2023" 1;
      use_row 2023 "Electricity" "D2" 60 "BEV_S1_2023" 1;
      use_row 2024 "Electricity" "D1" (150 # 2) "BEV_S1_2023" 2 ]
    = trades demo_params demo_model demo_relaxed ++ us ∧
    Forall (λ r, r_type r = "Buy" ∨ r_type r = "Sell")
           (trades demo_params demo_model demo_relaxed) ∧
    Forall (λ r, r_type r = "Use") us ∧
    (∀ r, r ∈ trades demo_params demo_model demo_relaxed ↔
          is_buy_row demo_params demo_model demo_relaxed r ∨
          is_sell_row demo_params demo_model demo_relaxed r).
Proof.
  apply (plan_purchases_and_sales demo_params demo_model demo_relaxed).
  vm_compute. reflexivity.
Defined.

(** X15. Two duties of a class draw on one pool: the second duty finds
    the counts that the first one left. Together they get the smaller of
    the sum of their needs and of what the pool held, the first duty being
    served first; the pool goes down by what both got, and the pools of
    the other classes are not touched. *)
Theorem duties_share_the_pool
    (t : Z) (v s : string) (d1 f1 : string) (a1 : Q) (n1 : Z)
    (d2 f2 : string) (a2 : Q) (n2 : Z) (st : Decoder) (pool : list PoolItem) :
  fleet_pool st !! (v, s) = Some pool → pool_nonneg pool → 0 ≤ n1 → 0 ≤ n2 →
  ∃ rs1 rs2 pool2,
    (allocate_duty t v s d1 f1 a1 n1 ;; allocate_duty t v s d2 f2 a2 n2) st
      = Ok (tt, {| final_submission := final_submission st ++ rs1 ++ rs2;
                   fleet_pool := <[(v, s) := pool2]> (fleet_pool st) |}) ∧
    vehicles_of rs1 = Z.min n1 (pool_total pool) ∧
    vehicles_of rs2 = Z.min n2 (pool_total pool - vehicles_of rs1) ∧
    vehicles_of rs1 + vehicles_of rs2 = Z.min (n1 + n2) (pool_total pool) ∧
    pool_total pool2 = pool_total pool - vehicles_of rs1 - vehicles_of rs2 ∧
    pool_nonneg pool2.
Proof.
  intros Hlook Hpool Hn1 Hn2.
  destruct (allocate (use_row t f1 d1 a1) pool n1) as [[pool1 rs1] rem1] eqn:E1.
  destruct (allocate (use_row t f2 d2 a2) pool1 n2) as [[pool2 rs2] rem2] eqn:E2.
  pose proof (pool_nonneg_after _ _ _ _ _ _ Hpool E1) as Hpool1.
  pose proof (pool_nonneg_after _ _ _ _ _ _ Hpool1 E2) as Hpool2.
  destruct (allocate_account _ _ _ _ _ _ _ _ _ Hpool Hn1 E1) as (_ & H1 & H1' & _).
  destruct (allocate_account _ _ _ _ _ _ _ _ _ Hpool1 Hn2 E2) as (_ & H2 & H2' & _).
  pose proof (pool_total_nonneg _ Hpool) as Ht.
  exists rs1, rs2, pool2. split_and!; [|lia..|done].
  unfold bind, allocate_duty, modify. rewrite Hlook, E1. cbn.
  rewrite lookup_insert_eq, E2. cbn.
  by rewrite insert_insert_eq, app_assoc.
Qed.

Lemma duties_share_the_pool_witness :
  let st := {| final_submission := [];
               fleet_pool := {[ ("BEV", "S1") :=
                 [ {| item_id := "BEV_S1_2023"; item_count := 3 |} ] ]} |} in
  ∃ rs1 rs2 pool2,
    (allocate_duty 2023 "BEV" "S1" "D1" "Electricity" 70 2 ;;
     allocate_duty 2023 "BEV" "S1" "D2" "Electricity" 30 2) st
      = Ok (tt, {| final_submission := final_submission st ++ rs1 ++ rs2;
                   fleet_pool := <[("BEV", "S1") := pool2]> (fleet_pool st) |}) ∧
    vehicles_of rs1 = Z.min 2 (pool_total [ {| item_id := "BEV_S1_2023"; item_count := 3 |} ]) ∧
    vehicles_of rs2 = Z.min 2 (pool_total [ {| item_id := "BEV_S1_2023"; item_count := 3 |} ]
                               - vehicles_of rs1) ∧
    vehicles_of rs1 + vehicles_of rs2
      = Z.min (2 + 2) (pool_total [ {| item_id := "BEV_S1_2023"; item_count := 3 |} ]) ∧
    pool_total pool2 = pool_total [ {| item_id := "BEV_S1_2023"; item_count := 3 |} ]
                       - vehicles_of rs1 - vehicles_of rs2 ∧
    pool_nonneg pool2.
Proof.
  apply (duties_share_the_pool 2023 "BEV" "S1" "D1" "Electricity" 70 2
           "D2" "Electricity" 30 2).
  - apply lookup_singleton_eq.
  - repeat constructor; cbn; lia.
  - lia.
  - lia.
Defined.

(** X16. A run whose solver succeeds with an assignment in which no Buy,
    Sell or Use value rounds to a positive number (the assignment 0, for
    instance) decodes no row at all, and then ends in a [KeyError] at the
    selection of the columns: no empty plan is written. *)
Theorem empty_plan_raises
    (milp : OptimizationModel → SolverResult) (data : Data) (P : Params) (R : Builder) :
  build_model data = Ok (P, R) →
  success (milp (model R)) = true →
  length (res_x (milp (model R))) = length (var_names (model R)) →
  (∀ k idx q, buy_vars R !! k = Some idx →
     res_x (milp (model R)) !! idx = Some q → py_round q ≤ 0) →
  (∀ k idx q, sell_vars R !! k = Some idx →
     res_x (milp (model R)) !! idx = Some q → py_round q ≤ 0) →
  (∀ k idx q, use_vars R !! k = Some idx →
     res_x (milp (model R)) !! idx = Some q → py_round q ≤ 0) →
  decode P R (res_x (milp (model R))) = Ok [] ∧
  solve_optimization milp data = Raise KeyError.
Proof.
  intros Hbuild Hok Hlen Hbuy Hsell Huse.
  destruct (build_model_inv data P R Hbuild) as (_ & _ & _ & _ & _ & HR & _).
  destruct (decode_total P R _ HR Hlen) as (rows & Hdec).
  assert (rows = []) as ->.
  { destruct (decode_shape P R _ rows Hdec) as (bs & us & Hbs & -> & Hus).
    pose proof (decode_rows_ok P R _ _ Hdec) as Hrows.
    destruct bs as [|r bs].
    - destruct us as [|r us]; [done|]. exfalso.
      destruct (Hrows r) as [[Hb _] | [[Hs _] | [_ Hduty]]]; [by left | | |].
      + apply Forall_cons in Hus as [Hu _]. congruence.
      + apply Forall_cons in Hus as [Hu _]. congruence.
      + destruct Hduty as (t & v & s & d & f & iu & ik & qu & qk & y & _ & _ & _ & _ & _ &
          Hiu & _ & Hqu & _ & Hpos & _).
        specialize (Huse _ _ _ Hiu Hqu). lia.
    - exfalso.
      assert (r ∈ r :: bs) as Hr by left.
      apply (elem_of_buy_sell_rows P R _ _ r Hbs) in Hr
        as [(t & v & s & idx & q & _ & _ & _ & Hidx & Hq & Hpos & _)
           |(t & v & s & age & idx & q & _ & _ & _ & _ & Hidx & Hq & Hpos & _)].
      + specialize (Hbuy _ _ _ Hidx Hq). lia.
      + specialize (Hsell _ _ _ Hidx Hq). lia. }
  split; [done|].
  rewrite (solve_optimization_built milp data P R Hbuild), Hok. cbn.
  by rewrite Hdec.
Qed.

Lemma empty_plan_raises_witness :
  decode demo_params demo_model (res_x (idle_solver 14 (model demo_model))) = Ok [] ∧
  solve_optimization (idle_solver 14) demo_data = Raise KeyError.
Proof.
  assert (∀ idx q, res_x (idle_solver 14 (model demo_model)) !! idx = Some q →
            py_round q ≤ 0) as Hzero.
  { intros idx q Hq. apply list_elem_of_lookup_2 in Hq.
    apply elem_of_replicate in Hq as [-> _]. done. }
  apply (empty_plan_raises (idle_solver 14) demo_data demo_params demo_model).
  - exact demo_built.
  - reflexivity.
  - vm_compute. reflexivity.
  - intros k idx q _. apply Hzero.
  - intros k idx q _. apply Hzero.
  - intros k idx q _. apply Hzero.
Defined.

(** ** Batch ids between the optimiser and the validator *)

(** X17. A batch id is read back as it was written. For a vehicle type
    and a size without an underscore and a year that is a 64-bit integer,
    as pandas reads it, the id [f"{v}_{s}_{year}"] splits at the
    underscores into the type, the size and the decimal form of the year,
    and [int] of that form is the year: the validator reads the type, the
    size and the year off the id and raises nothing. When the type has an
    underscore, the parts shift: the second half of the type is read as
    the size and the size as the year. *)
Theorem batch_id_round_trip (v s : string) (y : Z) :
  free_of underscore v → free_of underscore s → - 2 ^ 63 ≤ y < 2 ^ 63 →
  split_on underscore (vehicle_id v s y) = [v; s; pretty y] ∧
  py_int (pretty y) = Ok y ∧
  read_batch_id (vehicle_id v s y) = Ok (v, s, y) ∧
  (∀ v', free_of underscore v' →
     split_on underscore (vehicle_id (v' +:+ "_" +:+ v) s y) = [v'; v; s; pretty y] ∧
     read_batch_id (vehicle_id (v' +:+ "_" +:+ v) s y) = rbind (py_int s) (λ z, Ok (v', v, z))).
Proof.
  intros Hv Hs _.
  pose proof (split_vehicle_id v s y Hv Hs) as Hsplit.
  split; [done|]. split; [apply py_int_pretty|]. split.
  - unfold read_batch_id. rewrite Hsplit. cbn. by rewrite py_int_pretty.
  - intros v' Hv'.
    assert (split_on underscore (vehicle_id (v' +:+ "_" +:+ v) s y)
            = [v'; v; s; pretty y]) as Hshift.
    { unfold vehicle_id.
      assert ((v' +:+ "_" +:+ v) +:+ "_" +:+ s +:+ "_" +:+ pretty y
              = v' +:+ String underscore (v +:+ "_" +:+ s +:+ "_" +:+ pretty y)) as ->.
      { clear. induction v' as [|a v' IH]; [done|].
        change (String a ((v' +:+ "_" +:+ v) +:+ "_" +:+ s +:+ "_" +:+ pretty y)
                = String a (v' +:+ String underscore (v +:+ "_" +:+ s +:+ "_" +:+ pretty y))).
        by rewrite IH. }
      rewrite split_on_app by done. by rewrite <- Hsplit. }
    split; [done|]. unfold read_batch_id. rewrite Hshift. cbn.
    by destruct (py_int s).
Qed.

Lemma batch_id_round_trip_witness :
  split_on underscore (vehicle_id "BEV" "S1" 2023) = ["BEV"; "S1"; pretty 2023] ∧
  py_int (pretty 2023) = Ok 2023 ∧
  read_batch_id (vehicle_id "BEV" "S1" 2023) = Ok ("BEV", "S1", 2023) ∧
  (∀ v', free_of underscore v' →
     split_on underscore (vehicle_id (v' +:+ "_" +:+ "BEV") "S1" 2023)
     = [v'; "BEV"; "S1"; pretty 2023] ∧
     read_batch_id (vehicle_id (v' +:+ "_" +:+ "BEV") "S1" 2023)
     = rbind (py_int "S1") (λ z, Ok (v', "BEV", z))).
Proof.
  apply (batch_id_round_trip "BEV" "S1" 2023).
  - by repeat split.
  - by repeat split.
  - lia.
Defined.

(** X18. The validator reads the batch ids of a decoded plan. When no
    vehicle type and no size has an underscore, reading the id of any Use
    row of the plan raises nothing: it gives a vehicle type and a size of
    the sets and a purchase year in the pool of the year of the row (the
    year itself or, after 2023, one of the eleven years before it), the
    ones that the decoder named the batch with. *)
Theorem validator_reads_plan
    (P : Params) (R : Builder) (xs : list Q) (rows : list PlanRow) (r : PlanRow) :
  (∀ v, v ∈ vehicle_types P → free_of underscore v) →
  (∀ s, s ∈ sizes P → free_of underscore s) →
  decode P R xs = Ok rows → r ∈ rows → r_type r = "Use" →
  ∃ v s y,
    v ∈ vehicle_types P ∧ s ∈ sizes P ∧ pool_vintage (r_year r) y ∧
    r_id r = vehicle_id v s y ∧
    read_batch_id (r_id r) = Ok (v, s, y).
Proof.
  intros Hvt Hsz Hdec Hr Htype.
  destruct (decode_rows_ok P R xs rows Hdec r Hr) as [[Hb _] | [[Hs _] | [_ Hduty]]];
    [congruence | congruence |].
  destruct Hduty as (t & v & s & d & f & iu & ik & qu & qk & y & Ht & Hv & Hs & _ & _ &
    _ & _ & _ & _ & _ & <- & _ & _ & Hid & Hy & _ & Hdpv).
  exists v, s, y. split_and!; try done.
  unfold read_batch_id. rewrite Hid.
  rewrite (split_vehicle_id v s y (Hvt v Hv) (Hsz s Hs)). cbn.
  by rewrite py_int_pretty.
Qed.

Lemma validator_reads_plan_witness :
  let r := use_row 2024 "Electricity" "D1" (150 # 2) "BEV_S1_2023" 2 in
  ∃ v s y,
    v ∈ vehicle_types demo_params ∧ s ∈ sizes demo_params ∧ pool_vintage (r_year r) y ∧
    r_id r = vehicle_id v s y ∧
    read_batch_id (r_id r) = Ok (v, s, y).
Proof.
  assert (vehicle_types demo_params = ["BEV"]) as Hvt by (vm_compute; reflexivity).
  assert (sizes demo_params = ["S1"]) as Hsz by (vm_compute; reflexivity).
  apply (validator_reads_plan demo_params demo_model demo_relaxed
    (match decode demo_params demo_model demo_relaxed with
     | Ok rows => rows | Raise _ => [] end)).
  - intros v. rewrite Hvt. intros ->%list_elem_of_singleton. by repeat split.
  - intros s. rewrite Hsz. intros ->%list_elem_of_singleton. by repeat split.
  - vm_compute. reflexivity.
  - vm_compute. do 3 right. left.
  - reflexivity.
Defined.
